(** * research-companion: keyword generator and note file naming

    A shallow embedding of the algorithmic core of
    [step0_keyword_generator.py] and [step1_analysis.py]:

    - [consolidate_similar_keywords] and the final top-K ranking of [main];
    - the section extractor inside [download_pdf_and_extract_method];
    - [get_papers_for_year], [process_year], [save_progress], [load_progress];
    - [get_unique_filename];
    - the clean-up of the keywords in [extract_keywords_from_text], the
      loop of [main] over the years and the vocabulary file it writes;
    - [load_controlled_keywords], [extract_year], and the loop of the
      analyzer over the Zotero items with its choice of author, file
      name, PDF and content.

    Conventions.  A Python [str] is a [string], one [ascii] per character;
    a Python [int] is a [Z].  A [dict] whose iteration order matters is an
    association list in insertion order.  The regular-expression engine,
    the web services and the language model are parameters of the
    definitions that call them. *)

From Stdlib Require Import ZArith String Ascii.
From stdpp Require Import base option gmap sets list strings pretty sorting.

Open Scope Z_scope.

(* ===================================================================== *)
(** * Part I: definitions                                                 *)
(* ===================================================================== *)

(** ** Python string primitives *)

(** [len(s)] *)
Definition len (s : string) : Z := Z.of_nat (String.length s).

(** [sub in s] for two strings: [sub] starts at some position of [s]. *)
Fixpoint contains (sub s : string) : bool :=
  String.prefix sub s ||
  match s with
  | EmptyString => false
  | String _ s' => contains sub s'
  end.

(** [s[:n]] *)
Definition slice_to (n : Z) (s : string) : string :=
  String.substring 0 (Z.to_nat n) s.

(** [sep.join(parts)] *)
Fixpoint join (sep : string) (parts : list string) : string :=
  match parts with
  | [] => EmptyString
  | [p] => p
  | p :: rest => p +:+ sep +:+ join sep rest
  end.

(** truthiness of a [str] *)
Definition truthy (s : string) : bool :=
  match s with
  | EmptyString => false
  | String _ _ => true
  end.

Definition newline : ascii := Ascii.ascii_of_nat 10.

Definition push_head (c : ascii) (parts : list string) : list string :=
  match parts with
  | [] => [String c EmptyString]
  | p :: rest => String c p :: rest
  end.

(** [s.split('\n\n')]: cut at every occurrence of two line feeds, scanning
    from the left; the result is never empty. *)
Fixpoint split_blank_lines (s : string) : list string :=
  match s with
  | EmptyString => [EmptyString]
  | String c s' =>
      match s' with
      | String c' s'' =>
          if Ascii.eqb c newline && Ascii.eqb c' newline
          then EmptyString :: split_blank_lines s''
          else push_head c (split_blank_lines s')
      | EmptyString => push_head c (split_blank_lines s')
      end
  end.

(** [sum] of a list of integers *)
Definition sumZ (l : list Z) : Z := foldr Z.add 0 l.

(** ** Insertion-ordered dictionaries from [str] to [int] *)

Definition dict : Type := list (string * Z).

(** [d[k]]; [None] stands for [KeyError]. *)
Fixpoint dict_get (d : dict) (k : string) : option Z :=
  match d with
  | [] => None
  | (k', v) :: d' => if decide (k' = k) then Some v else dict_get d' k
  end.

(** [d[k] = v]: an existing key keeps its position, a new key goes last. *)
Fixpoint dict_set (d : dict) (k : string) (v : Z) : dict :=
  match d with
  | [] => [(k, v)]
  | (k', v') :: d' =>
      if decide (k' = k) then (k', v) :: d' else (k', v') :: dict_set d' k v
  end.

(** [x] stands before [y] in [l]. *)
Definition before {A} (l : list A) (x y : A) : Prop :=
  ∃ l1 l2 l3, l = l1 ++ x :: l2 ++ y :: l3.

(** [sorted(items, key=lambda x: x[1], reverse=True)].  Python's sort is
    stable, also with [reverse=True]: items with equal counts keep their
    relative order.  An item is placed in front of the first item whose
    count is not larger than its own. *)
Fixpoint insert_desc (x : string * Z) (l : list (string * Z)) : list (string * Z) :=
  match l with
  | [] => [x]
  | y :: l' => if x.2 <? y.2 then y :: insert_desc x l' else x :: y :: l'
  end.

Definition sorted_desc (l : list (string * Z)) : list (string * Z) :=
  foldr insert_desc [] l.

(** ** [consolidate_similar_keywords] (step0, lines 386-414) *)

Definition longer (best s : string) : string :=
  if len best <? len s then s else best.

(** [max(group, key=len)]: the first longest element; [None] stands for
    the [ValueError] on an empty list. *)
Definition max_by_len (group : list string) : option string :=
  match group with
  | [] => None
  | x :: rest => Some (foldl longer x rest)
  end.

(** One iteration of the outer loop builds one cluster.  The source keeps
    only [representative -> total_count]; the clusters themselves are
    recorded here as ghost state so that membership can be stated. *)
Record cluster := Cluster {
  members : list string;
  representative : string;
  total_count : Z
}.

Record loop_state := LoopState {
  consolidated : dict;
  processed : gset string;
  clusters : list cluster
}.

Definition entry (c : cluster) : string * Z := (representative c, total_count c).

(** body of [for other_kw, other_count in keywords_sorted] *)
Definition inner_step (keyword : string) (st : list string * gset string)
    (item : string * Z) : list string * gset string :=
  let '(similar_group, processed) := st in
  let other_kw := item.1 in
  if bool_decide (other_kw ∈ processed) || bool_decide (other_kw = keyword) then st
  else if contains keyword other_kw || contains other_kw keyword
  then (similar_group ++ [other_kw], processed ∪ {[other_kw]})
  else st.

(** body of [for keyword, count in keywords_sorted] *)
Definition outer_step (keyword_counts : dict) (keywords_sorted : list (string * Z))
    (st : loop_state) (item : string * Z) : option loop_state :=
  let keyword := item.1 in
  if bool_decide (keyword ∈ processed st) then Some st
  else
    let '(similar_group, processed') :=
      foldl (inner_step keyword) ([keyword], processed st) keywords_sorted in
    representative ← max_by_len similar_group;
    counts ← mapM (dict_get keyword_counts) similar_group;
    let total_count := sumZ counts in
    Some {| consolidated := dict_set (consolidated st) representative total_count;
            processed := processed' ∪ {[keyword]};
            clusters := clusters st ++ [Cluster similar_group representative total_count] |}.

Fixpoint outer_loop (keyword_counts : dict) (keywords_sorted : list (string * Z))
    (items : list (string * Z)) (st : loop_state) : option loop_state :=
  match items with
  | [] => Some st
  | item :: rest =>
      st' ← outer_step keyword_counts keywords_sorted st item;
      outer_loop keyword_counts keywords_sorted rest st'
  end.

Definition consolidate_run (keyword_counts : dict) : option loop_state :=
  let keywords_sorted := sorted_desc keyword_counts in
  outer_loop keyword_counts keywords_sorted keywords_sorted (LoopState [] ∅ []).

(** The function itself: [None] would be an uncaught exception. *)
Definition consolidate_similar_keywords (keyword_counts : dict) : option dict :=
  consolidated <$> consolidate_run keyword_counts.

(** What the loop maintains, stated on the ghost clusters. *)

Definition all_members (cs : list cluster) : list string :=
  concat (members <$> cs).

(** [keyword_counts[kw]] for a key that is known to be present *)
Definition count_of (keyword_counts : dict) (kw : string) : Z :=
  default 0 (dict_get keyword_counts kw).

Definition cluster_ok (keyword_counts : dict) (c : cluster) : Prop :=
  representative c ∈ members c ∧
  (∀ m, m ∈ members c → len m ≤ len (representative c)) ∧
  total_count c = sumZ (count_of keyword_counts <$> members c).

Record run_inv (keyword_counts : dict) (st : loop_state) : Prop := RunInv {
  inv_nodup : NoDup (all_members (clusters st));
  inv_processed : ∀ x, x ∈ processed st ↔ x ∈ all_members (clusters st);
  inv_keys : ∀ x, x ∈ all_members (clusters st) → x ∈ keyword_counts.*1;
  inv_dict : consolidated st = entry <$> clusters st;
  inv_clusters : Forall (cluster_ok keyword_counts) (clusters st)
}.

(** ** Final ranking in [main] (step0, lines 447-456) *)

Definition TOP_N_KEYWORDS : nat := 100.

(** [Counter(all_keywords)]: keys in first-seen order. *)
Definition Counter (all_keywords : list string) : dict :=
  foldl (λ d kw, dict_set d kw (default 0 (dict_get d kw) + 1)) [] all_keywords.

(** [sorted(consolidated_counts.items(), key=..., reverse=True)[:TOP_N_KEYWORDS]] *)
Definition top_keywords (consolidated_counts : dict) : list (string * Z) :=
  take TOP_N_KEYWORDS (sorted_desc consolidated_counts).

Definition final_vocabulary (all_keywords : list string) : option (list (string * Z)) :=
  top_keywords <$> consolidate_similar_keywords (Counter all_keywords).

(** ** Section extractor in [download_pdf_and_extract_method]
       (step0, lines 141-240) *)

Definition method_keywords : list string :=
  [ "methods?"; "methodology"; "empirical strategy"; "empirical strategies";
    "empirical approach"; "empirical approaches"; "analytical approach";
    "analytic approach"; "analytical approaches"; "analytic approaches";
    "research design"; "empirical analysis"; "empirical framework";
    "empirical methodology"; "identification strategy"; "identification strategies";
    "data and methods?"; "estimation strategy"; "estimation strategies";
    "econometric approach"; "statistical approach"; "causal identification" ]%string.

Definition keyword_pattern : string := join "|" method_keywords.

(** The four regular expressions, as the r-strings of the source spell
    them once [keyword_pattern] is substituted. *)
Definition section_header_patterns : list string :=
  [ "(?i)\n\s*(?:II+|III+|IV+|V+|2|3|4|5)\.?\s*(" +:+ keyword_pattern +:+
    ")\s*\n(.*?)(?=\n\s*(?:II+|III+|IV+|V+|VI+|\d+)\.?\s+[A-Z]|\nReferences|\nConclusion|\nAppendix|$)";
    "(?i)\n\s*(" +:+ keyword_pattern +:+
    ")\s*\n(.*?)(?=\n\s*[A-Z][a-z]+\s*\n|\nReferences|\nConclusion|\nResults|\nDiscussion|\nAppendix|$)"
  ]%string.

Definition data_with_method_patterns : list string :=
  [ "(?i)\n\s*(?:II+|III+|IV+|2|3|4)\.?\s*(data.*?(?:" +:+ keyword_pattern +:+
    "))\s*\n(.*?)(?=\n\s*(?:II+|III+|IV+|V+|VI+|\d+)\.?\s+[A-Z]|\nReferences|\nConclusion|$)";
    "(?i)\n\s*(data.*?(?:" +:+ keyword_pattern +:+
    "))\s*\n(.*?)(?=\n\s*[A-Z][a-z]+\s*\n|\nReferences|\nConclusion|$)"
  ]%string.

Definition all_patterns : list string :=
  section_header_patterns ++ data_with_method_patterns.

Definition MIN_HEADER_LEN : Z := 200.
Definition MIN_DENSITY_LEN : Z := 500.
Definition MAX_SECTION_LEN : Z := 25000.

(** State of the keyword-density loop.  [considered] is ghost state: the
    joined text of every run the loop evaluates, in order. *)
Record density_state := DensityState {
  method_rich_section : string;
  max_method_mentions : Z;
  current_section : list string;
  considered : list string
}.

Section Extractor.

(** [re_finditer pattern text]: [match.group(0)] of the successive
    matches of [re.finditer(pattern, text, re.DOTALL)]. *)
Variable re_finditer : string → string → list string.

(** [re_search pattern text]: whether
    [re.search(pattern, text, re.IGNORECASE)] finds a match. *)
Variable re_search : string → string → bool.

(** body of [for match in matches] *)
Definition header_step (st : option string * Z) (method_text : string)
    : option string * Z :=
  let '(best_match, best_length) := st in
  if len method_text <? MIN_HEADER_LEN then st
  else
    let method_text :=
      if len method_text >? MAX_SECTION_LEN
      then slice_to MAX_SECTION_LEN method_text else method_text in
    if len method_text >? best_length
    then (Some method_text, len method_text)
    else st.

(** [for pattern in all_patterns: for match in matches: ...] *)
Definition header_scan (full_text : string) : option string * Z :=
  foldl (λ st pattern, foldl header_step st (re_finditer pattern full_text))
        (None, 0) all_patterns.

(** [sum(1 for kw in method_keywords if re.search(rf'\b{kw}\b', text, re.IGNORECASE))] *)
Definition method_count (text : string) : Z :=
  Z.of_nat (length (filter (λ kw, Is_true (re_search ("\b" +:+ kw +:+ "\b") text))
                           method_keywords)).

(** body of [for para in paragraphs] *)
Definition density_step (st : density_state) (para : string) : density_state :=
  if method_count para >? 0 then
    {| method_rich_section := method_rich_section st;
       max_method_mentions := max_method_mentions st;
       current_section := current_section st ++ [para];
       considered := considered st |}
  else
    match current_section st with
    | _ :: _ =>
        let section_text := join (String newline (String newline EmptyString))
                                 (current_section st) in
        let section_method_count := method_count section_text in
        if (section_method_count >? max_method_mentions st)
           && (len section_text >? MIN_DENSITY_LEN)
        then {| method_rich_section := section_text;
                max_method_mentions := section_method_count;
                current_section := [];
                considered := considered st ++ [section_text] |}
        else {| method_rich_section := method_rich_section st;
                max_method_mentions := max_method_mentions st;
                current_section := [];
                considered := considered st ++ [section_text] |}
    | [] => st
    end.

Definition density_scan (full_text : string) : density_state :=
  foldl density_step (DensityState EmptyString 0 [] [])
        (split_blank_lines full_text).

(** Pattern 3, after the loop *)
Definition density_fallback (full_text : string) : option string :=
  let method_rich_section := method_rich_section (density_scan full_text) in
  if truthy method_rich_section && (len method_rich_section >? MIN_DENSITY_LEN) then
    Some (if len method_rich_section >? MAX_SECTION_LEN
          then slice_to MAX_SECTION_LEN method_rich_section
          else method_rich_section)
  else None.

(** Everything after [full_text] is assembled. *)
Definition extract_method_section (full_text : string) : option string :=
  match (header_scan full_text).1 with
  | Some best_match =>
      if truthy best_match then Some best_match else density_fallback full_text
  | None => density_fallback full_text
  end.

(** [download_pdf_and_extract_method]: [pages] is the text of the pages
    of the downloaded PDF; [None] stands for a failed download, a
    status other than 200 or an exception of the PDF reader. *)
Definition download_pdf_and_extract_method (pages : option (list string))
    : option string :=
  match pages with
  | None => None
  | Some pages =>
      let full_text :=
        foldl (λ acc page, acc +:+ page +:+ String newline EmptyString)
              EmptyString pages in
      extract_method_section full_text
  end.

(** The header matches the loop meets, in the order it meets them. *)
Definition header_matches (full_text : string) : list string :=
  concat ((λ pattern, re_finditer pattern full_text) <$> all_patterns).

End Extractor.

(** Truncation applied to a candidate that is long enough. *)
Definition truncate (s : string) : string :=
  if len s >? MAX_SECTION_LEN then slice_to MAX_SECTION_LEN s else s.

(** The header candidates that survive the length filter, truncated, in
    the order the loop meets them. *)
Definition qualifying (matches : list string) : list string :=
  truncate <$> filter (λ m, MIN_HEADER_LEN ≤ len m) matches.

(** *** A reference interpreter for the patterns [\bkw\b]

    Used only to run the extractor on concrete ASCII texts.  A keyword is
    a literal in which a character followed by [?] is optional; matching
    ignores case; [\b] holds between a word character and a non-word
    character or an end of the text. *)

Definition is_word_char (c : ascii) : bool :=
  let n := Ascii.N_of_ascii c in
  ((48 <=? n) && (n <=? 57) || (65 <=? n) && (n <=? 90) ||
   (97 <=? n) && (n <=? 122) || (n =? 95))%N.

Definition to_lower (c : ascii) : ascii :=
  let n := Ascii.N_of_ascii c in
  if ((65 <=? n) && (n <=? 90))%N then Ascii.ascii_of_N (n + 32)%N else c.

Definition word_opt (c : option ascii) : bool :=
  match c with
  | Some c => is_word_char c
  | None => false
  end.

Definition at_boundary (prev next : option ascii) : bool :=
  xorb (word_opt prev) (word_opt next).

Definition first_char (s : string) : option ascii :=
  match s with
  | EmptyString => None
  | String c _ => Some c
  end.

(** [(c, true)] is the optional character [c?]. *)
Fixpoint parse_literal (kw : string) : list (ascii * bool) :=
  match kw with
  | EmptyString => []
  | String c rest =>
      match rest with
      | String "?" rest' => (c, true) :: parse_literal rest'
      | _ => (c, false) :: parse_literal rest
      end
  end.

(** Backtracking as the engine does it: take the character first, and
    skip an optional one only when taking it does not lead to a match. *)
Fixpoint match_here (pat : list (ascii * bool)) (prev : option ascii) (s : string) : bool :=
  match pat with
  | [] => at_boundary prev (first_char s)
  | (c, optional) :: pat' =>
      let taken :=
        match s with
        | String d s' =>
            if Ascii.eqb (to_lower d) (to_lower c)
            then match_here pat' (Some d) s' else false
        | EmptyString => false
        end in
      if taken then true
      else if optional then match_here pat' prev s else false
  end.

Fixpoint search_from (pat : list (ascii * bool)) (prev : option ascii) (s : string) : bool :=
  if (if at_boundary prev (first_char s) then match_here pat prev s else false)
  then true
  else match s with
       | String d s' => search_from pat (Some d) s'
       | EmptyString => false
       end.

(** Strips the leading and the trailing [\b] of the pattern. *)
Definition word_search (pattern text : string) : bool :=
  let n := String.length pattern in
  search_from (parse_literal (String.substring 2 (n - 4) pattern)) None text.

(** ** [get_papers_for_year] (step0, lines 69-122) *)

(** The [title] of a CrossRef item is a list of strings; any other
    truthy value is used as it is. *)
Inductive title_field :=
| TitleList (titles : list string)
| TitleStr (title : string).

(** An item of the CrossRef answer; [None] is a key that is missing (or
    [null]). *)
Record crossref_item := CrossrefItem {
  item_title : option title_field;
  item_abstract : option string;
  item_DOI : option string
}.

Record crossref_response := CrossrefResponse {
  status_code : Z;
  items : list crossref_item
}.

Record paper := Paper {
  title : string;
  abstract : string;
  doi : string;
  year : Z;
  method_text : option string
}.

(** [str.isspace] on the characters below 256 *)
Definition is_space (c : ascii) : bool :=
  let n := Ascii.N_of_ascii c in
  ((9 <=? n) && (n <=? 13) || (28 <=? n) && (n <=? 32) || (n =? 133) || (n =? 160))%N.

Fixpoint lstrip (s : string) : string :=
  match s with
  | EmptyString => EmptyString
  | String c s' => if is_space c then lstrip s' else s
  end.

Fixpoint rstrip (s : string) : string :=
  match s with
  | EmptyString => EmptyString
  | String c s' =>
      match rstrip s' with
      | EmptyString => if is_space c then EmptyString else String c EmptyString
      | r => String c r
      end
  end.

(** [s.strip()] *)
Definition strip (s : string) : string := rstrip (lstrip s).

(** Position of the first [>] *)
Fixpoint index_gt (s : string) : option nat :=
  match s with
  | EmptyString => None
  | String c s' => if Ascii.eqb c ">" then Some O else S <$> index_gt s'
  end.

(** [re.sub(r'<[^>]+>', '', s)]: a tag is a [<], at least one character
    other than [>], and the next [>].  [skip] characters of a tag remain
    to be dropped. *)
Fixpoint strip_tags_from (skip : nat) (s : string) : string :=
  match s with
  | EmptyString => EmptyString
  | String c s' =>
      match skip with
      | S k => strip_tags_from k s'
      | O =>
          if Ascii.eqb c "<" then
            match index_gt s' with
            | Some (S j) => strip_tags_from (S (S j)) s'
            | _ => String c (strip_tags_from O s')
            end
          else String c (strip_tags_from O s')
      end
  end.

Definition strip_tags (s : string) : string := strip_tags_from O s.

(** body of [for item in items]: [None] is [continue] or a failed test. *)
Definition accept_item (year : Z) (item : crossref_item) : option paper :=
  match item_title item with
  | None | Some (TitleList []) | Some (TitleStr EmptyString) => None
  | Some title_list =>
      let title :=
        match title_list with
        | TitleList (t :: _) => t
        | TitleList [] => EmptyString
        | TitleStr t => t
        end in
      let abstract := default EmptyString (item_abstract item) in
      let abstract := if truthy abstract then strip (strip_tags abstract) else abstract in
      if truthy abstract && (len abstract >? 100)
      then Some {| title := title;
                   abstract := abstract;
                   doi := default EmptyString (item_DOI item);
                   year := year;
                   method_text := None |}
      else None
  end.

(** [response] is [None] when the request raises. *)
Definition get_papers_for_year (response : option crossref_response) (year : Z)
    : list paper :=
  match response with
  | None => []
  | Some response =>
      if bool_decide (status_code response ≠ 200) then []
      else omap (accept_item year) (items response)
  end.

(** ** Checkpoint and batch driver (step0, lines 53-67 and 309-384) *)

Record progress := Progress {
  completed_years : list Z;
  all_keywords : list string
}.

Definition empty_progress : progress := Progress [] [].

(** What the run does to the outside world, in order. *)
Inductive event :=
| CrossrefQuery (year : Z)
| SemanticScholarQuery (doi : string)
| PdfDownload (url : string)
| KeywordRequest (title text text_type : string)
| Makedirs
| OpenTruncate
| WriteChar (c : ascii)
| CloseFile.

(** A computation with the events it causes. *)
Definition traced (A : Type) : Type := list event * A.

Definition tret {A} (a : A) : traced A := ([], a).

Definition tbind {A B} (m : traced A) (k : A → traced B) : traced B :=
  let '(e1, a) := m in
  let '(e2, b) := k a in
  (e1 ++ e2, b).

Definition emit (e : event) : traced unit := ([e], tt).

Notation "'do' x <- m ; k" := (tbind m (λ x, k))
  (at level 10, x pattern, m at level 100, k at level 200).

(** [for x in xs: acc = body(acc, x)] *)
Fixpoint tfold {A B} (body : B → A → traced B) (xs : list A) (acc : B) : traced B :=
  match xs with
  | [] => tret acc
  | x :: rest => do acc' <- body acc x; tfold body rest acc'
  end.

(** *** [json.dump(progress, f, ensure_ascii=False, indent=2)] *)

Definition dquote : string := String (Ascii.ascii_of_nat 34) EmptyString.
Definition nl : string := String newline EmptyString.

Definition hex_digit (n : N) : ascii :=
  if (n <? 10)%N then Ascii.ascii_of_N (48 + n) else Ascii.ascii_of_N (87 + n).

Definition json_escape_char (c : ascii) : string :=
  let n := Ascii.N_of_ascii c in
  if (n =? 34)%N then "\" +:+ dquote
  else if (n =? 92)%N then "\\"
  else if (n =? 8)%N then "\b"
  else if (n =? 12)%N then "\f"
  else if (n =? 10)%N then "\n"
  else if (n =? 13)%N then "\r"
  else if (n =? 9)%N then "\t"
  else if (n <? 32)%N then
    "\u00" +:+ String (hex_digit (n / 16)) (String (hex_digit (n mod 16)) EmptyString)
  else String c EmptyString.

Fixpoint json_escape (s : string) : string :=
  match s with
  | EmptyString => EmptyString
  | String c s' => json_escape_char c +:+ json_escape s'
  end.

Definition json_string (s : string) : string := dquote +:+ json_escape s +:+ dquote.

Definition json_list (elems : list string) : string :=
  match elems with
  | [] => "[]"
  | _ => "[" +:+ nl +:+ "    " +:+ join ("," +:+ nl +:+ "    ") elems +:+ nl +:+ "  ]"
  end.

Definition json_dumps (p : progress) : string :=
  "{" +:+ nl +:+
  "  " +:+ json_string "completed_years" +:+ ": " +:+
     json_list (pretty <$> completed_years p) +:+ "," +:+ nl +:+
  "  " +:+ json_string "all_keywords" +:+ ": " +:+
     json_list (json_string <$> all_keywords p) +:+ nl +:+
  "}".

(** [save_progress]: the directory is made, the file is opened with mode
    ['w'], which empties it, the text is written, the file is closed. *)
Definition save_progress (p : progress) : traced unit :=
  ([Makedirs; OpenTruncate] ++ (WriteChar <$> list_ascii_of_string (json_dumps p))
   ++ [CloseFile], tt).

(** The content of [PROGRESS_FILE]; [None] when the file does not exist. *)
Definition disk : Type := option string.

Definition disk_step (d : disk) (e : event) : disk :=
  match e with
  | OpenTruncate => Some EmptyString
  | WriteChar c => Some (default EmptyString d +:+ String c EmptyString)
  | _ => d
  end.

Definition disk_after (events : list event) (d : disk) : disk :=
  foldl disk_step d events.

Definition is_file_event (e : event) : bool :=
  match e with
  | Makedirs | OpenTruncate | WriteChar _ | CloseFile => true
  | _ => false
  end.

(** [load_progress]: [json_load] is the parser, [None] when it raises. *)
Definition load_progress (json_load : string → option progress) (d : disk) : progress :=
  match d with
  | Some text =>
      match json_load text with
      | Some p => p
      | None => empty_progress
      end
  | None => empty_progress
  end.

Section BatchDriver.

Variable re_finditer : string → string → list string.
Variable re_search : string → string → bool.

(** Answer of CrossRef for a year; [None] when the request raises. *)
Variable crossref : Z → option crossref_response.

(** Answer of Semantic Scholar for a DOI: [None] when there is none,
    [Some u] with [u] the [url] of [openAccessPdf] ([None] when that
    is missing). *)
Variable semantic_scholar : string → option (option string).

(** The page texts of the PDF behind a URL; [None] when it cannot be
    fetched or read. *)
Variable fetch_pdf : string → option (list string).

(** [extract_keywords_from_text]: the language model, with the clean-up
    of its answer; [[]] on failure. *)
Variable extract_keywords_from_text : string → string → string → list string.

Definition search_semantic_scholar_by_doi (doi : string)
    : traced (option (option string)) :=
  if truthy doi
  then do _ <- emit (SemanticScholarQuery doi); tret (semantic_scholar doi)
  else tret None.

(** body of the first loop of [process_year]; the paper is updated in
    place in the source, here the updated list is rebuilt. *)
Definition search_step (papers : list paper) (p : paper) : traced (list paper) :=
  do s2_data <- search_semantic_scholar_by_doi (doi p);
  match s2_data with
  | Some (Some pdf_url) =>
      if truthy pdf_url then
        do _ <- emit (PdfDownload pdf_url);
        match download_pdf_and_extract_method re_finditer re_search (fetch_pdf pdf_url) with
        | Some text =>
            if truthy text
            then tret (papers ++ [Paper (title p) (abstract p) (doi p) (year p) (Some text)])
            else tret (papers ++ [p])
        | None => tret (papers ++ [p])
        end
      else tret (papers ++ [p])
  | _ => tret (papers ++ [p])
  end.

(** body of the second loop of [process_year] *)
Definition keyword_step (year_keywords : list string) (p : paper)
    : traced (list string) :=
  do _ <- emit (KeywordRequest (title p) (abstract p) "abstract");
  let keywords := extract_keywords_from_text (title p) (abstract p) "abstract" in
  let year_keywords := year_keywords ++ keywords in
  match method_text p with
  | Some text =>
      if truthy text then
        do _ <- emit (KeywordRequest (title p) text "method");
        tret (year_keywords ++ extract_keywords_from_text (title p) text "method")
      else tret year_keywords
  | None => tret year_keywords
  end.

(** The events before the checkpoint is written, and the new progress. *)
Definition process_papers (year : Z) (papers : list paper) (p : progress)
    : traced progress :=
  do papers <- tfold search_step papers [];
  do year_keywords <- tfold keyword_step papers [];
  tret {| completed_years := completed_years p ++ [year];
          all_keywords := all_keywords p ++ year_keywords |}.

Definition process_year (year : Z) (p : progress) : traced progress :=
  if bool_decide (year ∈ completed_years p) then tret p
  else
    do _ <- emit (CrossrefQuery year);
    let papers := get_papers_for_year (crossref year) year in
    match papers with
    | [] => tret p
    | _ :: _ =>
        do p' <- process_papers year papers p;
        do _ <- save_progress p';
        tret p'
    end.

End BatchDriver.

(** ** [get_unique_filename] (step1, lines 108-136) *)

Section Filename.

(** The names of the files in [folder]. *)
Variable folder : gset string.

(** [os.path.exists(os.path.join(folder, filename))] *)
Definition path_exists (filename : string) : bool :=
  bool_decide (filename ∈ folder).

(** [f"{base_author} ({year}).md"] *)
Definition note_name (base_author year : string) : string :=
  base_author +:+ " (" +:+ year +:+ ").md".

(** [for suffix in 'abcdefghijklmnopqrstuvwxyz']; [None] when the loop
    ends without a [return]. *)
Fixpoint letter_loop (base_author base_year : string) (letters : string)
    : option (string * string * bool) :=
  match letters with
  | EmptyString => None
  | String suffix rest =>
      let year_with_suffix := base_year +:+ String suffix EmptyString in
      let filename := note_name base_author year_with_suffix in
      if path_exists filename
      then letter_loop base_author base_year rest
      else Some (filename, year_with_suffix, false)
  end.

(** [while True] from [counter]; [None] when [fuel] iterations did not
    reach the [return]. *)
Fixpoint counter_loop (fuel : nat) (base_author base_year : string) (counter : Z)
    : option (string * string * bool) :=
  match fuel with
  | O => None
  | S fuel' =>
      let year_with_suffix := base_year +:+ "-" +:+ pretty counter in
      let filename := note_name base_author year_with_suffix in
      if path_exists filename
      then counter_loop fuel' base_author base_year (counter + 1)
      else Some (filename, year_with_suffix, false)
  end.

(** The outer [option] is [None] when the fuel runs out; the inner one
    is the value returned, [None] for a mode that is neither
    ["replace"] nor ["suffix"]. *)
Definition get_unique_filename (fuel : nat) (base_author base_year mode : string)
    : option (option (string * string * bool)) :=
  let filename := note_name base_author base_year in
  if bool_decide (mode = "replace") then
    Some (Some (filename, base_year, path_exists filename))
  else if bool_decide (mode = "suffix") then
    if negb (path_exists filename) then Some (Some (filename, base_year, false))
    else
      match letter_loop base_author base_year "abcdefghijklmnopqrstuvwxyz" with
      | Some r => Some (Some r)
      | None => Some <$> counter_loop fuel base_author base_year 1
      end
  else Some None.

End Filename.

(** ** Notions used in the statements *)

(** The counts go down along the list. *)
Definition descending (l : list (string * Z)) : Prop :=
  ∀ a b, before l a b → b.2 ≤ a.2.

(** The choice among the candidates that passed the length filter *)
Definition pick (st : option string * Z) (c : string) : option string * Z :=
  if len c >? st.2 then (Some c, len c) else st.

(** The identifier of a note: [author (year)] *)
Definition identifier (base_author year : string) : string :=
  base_author +:+ " (" +:+ year +:+ ")".

(** An identifier is taken when the file that carries it is in the folder. *)
Definition taken (folder : gset string) (id : string) : Prop :=
  id +:+ ".md" ∈ folder.

(** The call returns the file of the identifier [author (year)], together
    with [year], and reports no overwrite. *)
Definition resolves_to (result : option (option (string * string * bool)))
    (base_author year : string) : Prop :=
  result = Some (Some (identifier base_author year +:+ ".md", year, false)).

(** The suffixes of the first loop of [get_unique_filename] *)
Definition letters : string := "abcdefghijklmnopqrstuvwxyz".

(** The name tried for a letter *)
Definition letter_name (base_author base_year : string) (c : ascii) : string :=
  note_name base_author (base_year +:+ String c EmptyString).

(** The name tried for a number *)
Definition counter_name (base_author base_year : string) (k : Z) : string :=
  note_name base_author (base_year +:+ "-" +:+ pretty k).

(** The test of [get_papers_for_year] on the cleaned abstract *)
Definition long_abstract (p : paper) : Prop := 100 < len (abstract p).

(** An event of the loops of [process_year]: it leaves the file alone,
    and a keyword request on an abstract carries more than 100
    characters. *)
Definition work_event (e : event) : Prop :=
  is_file_event e = false ∧
  ∀ t text, e = KeywordRequest t text "abstract" → 100 < len text.

(** ** Samples used to run the definitions *)

(** The mapping of the example in the specification *)
Definition regression_counts : dict :=
  [("regression", 5); ("regression discontinuity", 3); ("rdd", 1)]%string.

(** 101 keywords of two letters, none of which occurs in another *)
Definition sample_keywords : list string :=
  (λ i, String (Ascii.ascii_of_nat (97 + i / 26))
          (String (Ascii.ascii_of_nat (97 + i mod 26)) EmptyString))%nat <$> seq 0 101.

(** A folder with [Lee (2020).md] and [Lee (2020a).md] to [Lee (2020z).md] *)
Definition lee_folder : gset string :=
  list_to_set (note_name "Lee" "2020" ::
               (letter_name "Lee" "2020" <$> list_ascii_of_string letters)).

(** [n] copies of a character *)
Definition filler (n : nat) (c : ascii) : string :=
  string_of_list_ascii (replicate n c).

(** A text with a headed section of 213 characters, then a run of two
    blocks that mention a keyword, 846 characters together. *)
Definition headed_section : string :=
  nl +:+ "Methodology" +:+ nl +:+ filler 200 "x".

Definition keyword_block : string :=
  "We discuss methodology " +:+ filler 600 "y".

Definition headed_text : string :=
  headed_section +:+ nl +:+ "Results" +:+ nl +:+ nl +:+ keyword_block
  +:+ nl +:+ nl +:+ "The end.".

(** An engine that finds [headed_section] with the second pattern of
    [all_patterns] and nothing else. *)
Definition headed_finditer (pattern text : string) : list string :=
  if bool_decide (all_patterns !! 1%nat = Some pattern) then [headed_section] else [].

(** A text whose last block mentions a keyword and is 612 characters
    long; the block before it mentions none. *)
Definition trailing_block : string :=
  "Our methodology " +:+ filler 595 "z" +:+ nl.

Definition trailing_text : string :=
  "Introduction" +:+ nl +:+ nl +:+ trailing_block.

(** An engine that finds no header. *)
Definition no_finditer (pattern text : string) : list string := [].

(** An abstract of 120 characters inside a JATS paragraph *)
Definition sample_abstract : string :=
  "<jats:p>" +:+ filler 120 "a" +:+ "</jats:p>".

Definition sample_item : crossref_item :=
  CrossrefItem (Some (TitleList ["School funding"%string]))
               (Some sample_abstract) (Some "10.1162/edfp.1"%string).

(** An item whose list of titles holds one empty title *)
Definition untitled_item : crossref_item :=
  CrossrefItem (Some (TitleList [EmptyString]))
               (Some sample_abstract) (Some "10.1162/edfp.2"%string).

(** A world with one paper a year, no open-access PDF, and a language
    model that always answers with the same keyword. *)
Definition sample_crossref (year : Z) : option crossref_response :=
  Some (CrossrefResponse 200 [sample_item]).

Definition sample_semantic_scholar (doi : string) : option (option string) := None.

Definition sample_fetch_pdf (url : string) : option (list string) := None.

Definition sample_keywords_oracle (title text text_type : string) : list string :=
  ["school finance"%string].

Definition sample_process_year : Z → progress → traced progress :=
  process_year no_finditer word_search sample_crossref sample_semantic_scholar
               sample_fetch_pdf sample_keywords_oracle.

(** A checkpoint written by an earlier run *)
Definition earlier_progress : progress := Progress [2014] ["tax"%string].

(** ** Further definitions: the rest of the two scripts *)

(** The matches of the patterns of strategy 1, and of strategy 2, in the
    order the loop meets them; the loop goes through the first, then
    through the second. *)
Definition strategy1_matches (re_finditer : string → string → list string)
    (full_text : string) : list string :=
  concat ((λ pattern, re_finditer pattern full_text) <$> section_header_patterns).

Definition strategy2_matches (re_finditer : string → string → list string)
    (full_text : string) : list string :=
  concat ((λ pattern, re_finditer pattern full_text) <$> data_with_method_patterns).

(** A text with two headed sections: one of 321 characters under the
    header [Methods], which only the second pattern of strategy 1
    matches, and one of 631 characters under the header [Data sources
    and methodology], which only the second pattern of strategy 2
    matches. *)
Definition methods_section : string :=
  nl +:+ "Methods" +:+ nl +:+ filler 312 "x".

Definition data_section : string :=
  nl +:+ "Data sources and methodology" +:+ nl +:+ filler 601 "y".

Definition two_header_text : string :=
  "Intro" +:+ methods_section +:+ nl +:+ "Results" +:+ nl +:+ filler 10 "r"
  +:+ data_section +:+ nl +:+ "References" +:+ nl +:+ filler 5 "z".

(** The answers of the engine of the source on [two_header_text]: the
    second pattern finds [methods_section], the fourth finds
    [data_section], the first and the third find nothing. *)
Definition two_header_finditer (pattern text : string) : list string :=
  if bool_decide (all_patterns !! 1%nat = Some pattern) then [methods_section]
  else if bool_decide (all_patterns !! 3%nat = Some pattern) then [data_section]
  else [].

(** ** Notions for the counting and the consolidation of keywords *)

(** Number of occurrences of a keyword in a list *)
Definition occurrences (kw : string) (l : list string) : Z :=
  Z.of_nat (length (filter (λ x, x = kw) l)).

(** The elements of a list in the order of their first occurrence *)
Definition first_seen (l : list string) : list string :=
  reverse (remove_dups (reverse l)).

(** Two keywords one of which occurs in the other *)
Definition related (a b : string) : Prop :=
  contains a b = true ∨ contains b a = true.

(** Two keywords about school lunch and about tax, unrelated *)
Definition unrelated_counts : dict := [("tax", 2); ("lunch", 5)]%string.

(** A cluster whose members after the first all contain the first member
    or occur in it *)
Definition lexical_cluster (c : cluster) : Prop :=
  ∃ head rest, members c = head :: rest ∧ Forall (related head) rest.

(** ** Clean-up of the language model's answer (step0, lines 300-301) *)

(** [s.split(sep)] for a separator of one character *)
Fixpoint split_char (sep : ascii) (s : string) : list string :=
  match s with
  | EmptyString => [EmptyString]
  | String c s' =>
      if Ascii.eqb c sep then EmptyString :: split_char sep s'
      else push_head c (split_char sep s')
  end.

(** [str.lower] on the characters below 256: the letters [A]-[Z] and the
    accented capitals, all but the multiplication sign *)
Definition lower_char (c : ascii) : ascii :=
  let n := Ascii.N_of_ascii c in
  if ((65 <=? n) && (n <=? 90) || (192 <=? n) && (n <=? 214)
      || (216 <=? n) && (n <=? 222))%N
  then Ascii.ascii_of_N (n + 32) else c.

Fixpoint lower (s : string) : string :=
  match s with
  | EmptyString => EmptyString
  | String c s' => String (lower_char c) (lower s')
  end.

(** [[kw.strip().lower() for kw in content.strip().split(';') if kw.strip()]] *)
Definition clean_keywords (content : string) : list string :=
  (λ kw, lower (strip kw))
    <$> filter (λ kw, Is_true (truthy (strip kw))) (split_char ";" (strip content)).

(** The tail of [extract_keywords_from_text]: [completion] is the text
    the model returns, [None] when the request raises. *)
Definition keywords_of_completion (completion : option string) : list string :=
  match completion with
  | Some content => clean_keywords content
  | None => []
  end.

(** ** File-name sanitisation (step1, lines 221-223) *)

(** The characters of the class of the substitution: slash, backslash,
    colon, star, question mark, double quote, angle brackets, bar *)
Definition forbidden (c : ascii) : bool :=
  let n := Ascii.N_of_ascii c in
  ((n =? 47) || (n =? 92) || (n =? 58) || (n =? 42) || (n =? 63) || (n =? 34)
   || (n =? 60) || (n =? 62) || (n =? 124))%N.

(** [re.sub] of that class by a hyphen *)
Fixpoint sanitize (s : string) : string :=
  match s with
  | EmptyString => EmptyString
  | String c s' => String (if forbidden c then "-"%char else c) (sanitize s')
  end.

(** The characters of a string *)
Definition chars (s : string) : list ascii := list_ascii_of_string s.

(** A string without forbidden character *)
Definition clean (s : string) : Prop :=
  Forall (λ c, forbidden c = false) (chars s).

(** A string that does not start with white space *)
Definition no_lead (s : string) : Prop :=
  match s with
  | EmptyString => True
  | String c _ => is_space c = false
  end.

(** ** [extract_year] (step1, lines 82-106) *)

(** [c.isdigit()]: the decimal digits and the superscripts two, three
    and one (codes 178, 179 and 185) *)
Definition is_digit (c : ascii) : bool :=
  let n := Ascii.N_of_ascii c in
  ((48 <=? n) && (n <=? 57) || (n =? 178) || (n =? 179) || (n =? 185))%N.

(** A decimal digit: what [int] reads and [\d] matches *)
Definition is_decimal (c : ascii) : bool :=
  let n := Ascii.N_of_ascii c in ((48 <=? n) && (n <=? 57))%N.

(** [s.isdigit()]: at least one character, and all of them digits *)
Definition isdigit (s : string) : bool :=
  truthy s && forallb is_digit (chars s).

Fixpoint int_digits (acc : Z) (s : string) : option Z :=
  match s with
  | EmptyString => Some acc
  | String c s' =>
      if is_decimal c
      then int_digits (10 * acc + Z.of_N (Ascii.N_of_ascii c - 48)) s'
      else None
  end.

(** [int(s)] on a string for which [s.isdigit()] holds, the only use the
    code makes of it; [None] is the [ValueError] that a superscript
    raises. *)
Definition int (s : string) : option Z :=
  if truthy s then int_digits 0 s else None.

(** [for part in reversed(parts)]: the outer [None] is the [ValueError]
    of [int], [Some None] the end of the loop without a [return]. *)
Fixpoint year_of_parts (parts : list string) : option (option string) :=
  match parts with
  | [] => Some None
  | part :: rest =>
      let part := strip part in
      if (len part =? 4) && isdigit part then Some (Some part)
      else if (len part =? 2) && isdigit part then
        match int part with
        | Some year_int =>
            Some (Some (if year_int <=? 30 then pretty (2000 + year_int)
                        else pretty (1900 + year_int)))
        | None => None
        end
      else year_of_parts rest
  end.

(** [\w] on the characters below 256 *)
Definition is_word (c : ascii) : bool :=
  let n := Ascii.N_of_ascii c in
  ((48 <=? n) && (n <=? 57) || (65 <=? n) && (n <=? 90) || (n =? 95)
   || (97 <=? n) && (n <=? 122) || (n =? 170) || (178 <=? n) && (n <=? 179)
   || (n =? 181) || (185 <=? n) && (n <=? 186) || (188 <=? n) && (n <=? 190)
   || (192 <=? n) && (n <=? 214) || (216 <=? n) && (n <=? 246)
   || (248 <=? n) && (n <=? 255))%N.

(** [\b] between two positions; [None] is an end of the text. *)
Definition boundary (prev next : option ascii) : bool :=
  xorb (from_option is_word false prev) (from_option is_word false next).

(** [\b(19|20)\d{2}\b] matched at the head of [s], which follows [prev] *)
Definition year_here (prev : option ascii) (s : string) : option string :=
  match s with
  | String c1 (String c2 (String d1 (String d2 rest))) =>
      if boundary prev (Some c1)
         && (Ascii.eqb c1 "1" && Ascii.eqb c2 "9" || Ascii.eqb c1 "2" && Ascii.eqb c2 "0")
         && is_decimal d1 && is_decimal d2
         && boundary (Some d2) (first_char rest)
      then Some (String c1 (String c2 (String d1 (String d2 EmptyString))))
      else None
  | _ => None
  end.

(** [re.search] of that pattern: the leftmost match *)
Fixpoint year_search (prev : option ascii) (s : string) : option string :=
  match year_here prev s with
  | Some m => Some m
  | None =>
      match s with
      | String c s' => year_search (Some c) s'
      | EmptyString => None
      end
  end.

(** [None] when the call raises. *)
Definition extract_year (date_str : string) : option string :=
  if negb (truthy date_str) then Some "n.d."%string
  else
    let date_str := strip date_str in
    if (4 <=? len date_str) && isdigit (slice_to 4 date_str)
    then Some (slice_to 4 date_str)
    else
      match (if contains "/" date_str
             then year_of_parts (reverse (split_char "/" date_str))
             else Some None) with
      | None => None
      | Some (Some y) => Some y
      | Some None =>
          match year_search None date_str with
          | Some m => Some m
          | None => Some "n.d."%string
          end
      end.

(** The value [int] gives for two decimal digits *)
Definition two_digits (a b : ascii) : Z :=
  10 * Z.of_N (Ascii.N_of_ascii a - 48) + Z.of_N (Ascii.N_of_ascii b - 48).

(** The century chosen for a year of two digits *)
Definition pivot (n : Z) : Z := if n <=? 30 then 2000 + n else 1900 + n.


(** What every result of [extract_year] looks like *)
Definition year_like (y : string) : Prop :=
  String.length y = 4%nat ∧ (y = "n.d."%string ∨ isdigit y = true).

(** ** The analyzer's loop over the Zotero items (step1, lines 163-420) *)

Module Zotero.

(** A creator; [None] is a key that the entry does not have. *)
Record creator := Creator {
  lastName : option string;
  firstName : option string
}.

(** An item of the library with the fields of [item['data']] that the
    script reads; an attachment is an item too.  [creators] is
    [data.get('creators', [])]. *)
Record item := Item {
  key : string;
  itemType : option string;
  contentType : option string;
  parentItem : option string;
  title : option string;
  abstractNote : option string;
  creators : list creator;
  date : option string;
  filesize : option Z
}.

End Zotero.

(** [item_type in ['journalArticle', ...]] *)
Definition is_paper (it : Zotero.item) : bool :=
  match Zotero.itemType it with
  | Some item_type =>
      bool_decide (item_type ∈ ["journalArticle"; "conferencePaper"; "book";
                                "bookSection"; "report"; "thesis"]%string)
  | None => false
  end.

Definition is_standalone_pdf (it : Zotero.item) : bool :=
  bool_decide (Zotero.itemType it = Some "attachment"%string)
  && bool_decide (Zotero.contentType it = Some "application/pdf"%string)
  && negb (truthy (default EmptyString (Zotero.parentItem it))).

(** [s.lstrip(chars)], [s.rstrip(chars)] and [s.strip(chars)] for the
    set of characters [p] *)
Fixpoint lstrip_set (p : ascii → bool) (s : string) : string :=
  match s with
  | EmptyString => EmptyString
  | String c s' => if p c then lstrip_set p s' else s
  end.

Fixpoint rstrip_set (p : ascii → bool) (s : string) : string :=
  match s with
  | EmptyString => EmptyString
  | String c s' =>
      match rstrip_set p s' with
      | EmptyString => if p c then EmptyString else String c EmptyString
      | r => String c r
      end
  end.

Definition strip_set (p : ascii → bool) (s : string) : string :=
  rstrip_set p (lstrip_set p s).

(** The characters of [', '] *)
Definition comma_or_space (c : ascii) : bool :=
  Ascii.eqb c "," || Ascii.eqb c " ".

(** The author of the file name, from the creators that the item ends
    up with (lines 209-219, and ["Unknown"] of line 207) *)
Definition author_part (creators : list Zotero.creator) : string :=
  match creators with
  | [] => "Unknown"
  | [c] =>
      let last := default EmptyString (Zotero.lastName c) in
      let first := default EmptyString (Zotero.firstName c) in
      let first_initial :=
        match first with
        | String f _ => String f "."
        | EmptyString => EmptyString
        end in
      strip_set comma_or_space (last +:+ ", " +:+ first_initial)
  | [c1; c2] =>
      default EmptyString (Zotero.lastName c1) +:+ " & "
      +:+ default EmptyString (Zotero.lastName c2)
  | c1 :: _ => default EmptyString (Zotero.lastName c1) +:+ " et al."
  end.

(** [att['data'].get('filesize', 0) or 0] *)
Definition pdf_size (att : Zotero.item) : Z := default 0 (Zotero.filesize att).

Definition larger (best att : Zotero.item) : Zotero.item :=
  if pdf_size best <? pdf_size att then att else best.

(** [max(candidates, key=_pdf_size)]: the first of the largest; [None]
    stands for the [ValueError] on an empty list. *)
Definition max_by_size (candidates : list Zotero.item) : option Zotero.item :=
  match candidates with
  | [] => None
  | att :: rest => Some (foldl larger att rest)
  end.

(** What becomes of [with open(filepath, 'w') as f: f.write(...)]: the
    note is written; [open] raises and no file is made; or [open] makes
    the file, or empties it, and the writing raises after that. *)
Inductive write_outcome :=
| Written
| OpenRaises
| WriteRaises.

(** What the run keeps: the files of the notes folder, the files it has
    opened for writing, in order, those of them that it has written, and
    the four counters. *)
Record run_state := RunState {
  notes : gset string;
  opened : list string;
  written : list string;
  success_count : Z;
  fail_count : Z;
  skip_count : Z;
  replace_count : Z
}.

Section Analyzer.

Variable DUPLICATE_MODE : string.
Variable ZOTERO_ID : string.

(** [zot.item(key)]; [None] when the request raises. *)
Variable zot_item : string → option Zotero.item.

(** [zot.children(key)]; [None] when the request raises. *)
Variable zot_children : string → option (list Zotero.item).

(** [SUPPLEMENT_PATTERN.search(title)] *)
Variable is_supplement : string → bool.

(** [requests.get(url)]: the status and the texts of the pages, [None]
    for the pages when the reader raises; [None] when the request
    raises. *)
Variable download : string → option (Z * option (list string)).

(** The language model on a title, a content and its type; [None] when
    the request raises. *)
Variable analyse : string → string → string → option string.

(** The writing of the note in the file [filename], for the title, the
    author, the year, the type of the content and the answer of the
    model that make its text. *)
Variable write_note : string → string → string → string → string → string → write_outcome.

(** Lines 184-207: the creators and the year that the item goes on
    with; [None] when [extract_year] raises, which nothing catches. *)
Definition creators_and_year (data : Zotero.item)
    : option (list Zotero.creator * string) :=
  match extract_year (default EmptyString (Zotero.date data)) with
  | None => None
  | Some year =>
      let is_pdf_attachment := is_standalone_pdf data in
      if bool_decide (Zotero.creators data = []) then
        if is_pdf_attachment then
          let parent_key := default EmptyString (Zotero.parentItem data) in
          if truthy parent_key then
            match zot_item parent_key with
            | Some parent =>
                let creators := Zotero.creators parent in
                if bool_decide (year = "n.d."%string) then
                  match extract_year (default EmptyString (Zotero.date parent)) with
                  | Some parent_year => Some (creators, parent_year)
                  | None => Some (creators, year)
                  end
                else Some (creators, year)
            | None => Some (Zotero.creators data, year)
            end
          else Some (Zotero.creators data, year)
        else Some (Zotero.creators data, year)
      else Some (Zotero.creators data, year)
  end.

Definition file_url (item_key : string) : string :=
  "https://api.zotero.org/users/" +:+ ZOTERO_ID +:+ "/items/" +:+ item_key +:+ "/file".

(** Lines 241-262: the attachment whose file is fetched *)
Definition select_pdf (attachments : list Zotero.item) : option Zotero.item :=
  let pdf_attachments :=
    filter (λ att, Zotero.contentType att = Some "application/pdf"%string) attachments in
  match pdf_attachments with
  | [] => None
  | _ :: _ =>
      let main_pdfs :=
        filter (λ att, is_supplement (default EmptyString (Zotero.title att)) = false)
               pdf_attachments in
      let candidates :=
        match main_pdfs with
        | [] => pdf_attachments
        | _ :: _ => main_pdfs
        end in
      max_by_size candidates
  end.

(** Lines 234-264; the outer [None] is a request that raises. *)
Definition find_pdf (it : Zotero.item) : option (option string) :=
  if is_standalone_pdf it then Some (Some (file_url (Zotero.key it)))
  else
    match zot_children (Zotero.key it) with
    | None => None
    | Some attachments =>
        Some (file_url ∘ Zotero.key <$> select_pdf attachments)
    end.

Definition max_chars : Z := 100000.

(** Lines 269-308: the content and its type; the outer [None] is a
    request that raises. *)
Definition content_to_analyze (pdf_url : option string) (abstract : string)
    : option (string * string) :=
  match pdf_url with
  | Some url =>
      if truthy url then
        match download url with
        | None => None
        | Some (status_code, pages) =>
            if status_code =? 200 then
              match pages with
              | Some texts =>
                  let full_text := foldl String.append EmptyString texts in
                  let full_text :=
                    if len full_text >? max_chars then slice_to max_chars full_text
                    else full_text in
                  Some (full_text, "full_text"%string)
              | None => Some (abstract, "abstract"%string)
              end
            else Some (abstract, "abstract"%string)
        end
      else Some (abstract, "abstract"%string)
  | None => Some (abstract, "abstract"%string)
  end.

(** The body of the loop; [None] when the run stops on an exception
    that nothing catches. *)
Definition process_item (st : run_state) (it : Zotero.item) : option run_state :=
  if negb (is_paper it) && negb (is_standalone_pdf it) then
    Some (RunState (notes st) (opened st) (written st) (success_count st)
                   (fail_count st) (skip_count st + 1) (replace_count st))
  else
    let title := default "Untitled"%string (Zotero.title it) in
    let abstract := default EmptyString (Zotero.abstractNote it) in
    match creators_and_year it with
    | None => None
    | Some (creators, year) =>
        let author_part := author_part creators in
        let safe_author := sanitize author_part in
        let safe_year := sanitize year in
        match get_unique_filename (notes st) (S (size (notes st)))
                                  safe_author safe_year DUPLICATE_MODE with
        | Some (Some (filename, final_year, is_replacing)) =>
            let replace_count :=
              if bool_decide (DUPLICATE_MODE = "replace"%string) && is_replacing
              then replace_count st + 1 else replace_count st in
            match find_pdf it with
            | None => None
            | Some pdf_url =>
                match content_to_analyze pdf_url abstract with
                | None => None
                | Some (content, content_type) =>
                    if negb (truthy content) then
                      Some (RunState (notes st) (opened st) (written st)
                                     (success_count st) (fail_count st + 1)
                                     (skip_count st) replace_count)
                    else
                      match analyse title content content_type with
                      | Some ai_result =>
                          match write_note filename title author_part final_year
                                           content_type ai_result with
                          | Written =>
                              Some (RunState ({[filename]} ∪ notes st)
                                             (opened st ++ [filename])
                                             (written st ++ [filename])
                                             (success_count st + 1) (fail_count st)
                                             (skip_count st) replace_count)
                          | WriteRaises =>
                              Some (RunState ({[filename]} ∪ notes st)
                                             (opened st ++ [filename])
                                             (written st)
                                             (success_count st) (fail_count st + 1)
                                             (skip_count st) replace_count)
                          | OpenRaises =>
                              Some (RunState (notes st) (opened st) (written st)
                                             (success_count st) (fail_count st + 1)
                                             (skip_count st) replace_count)
                          end
                      | None =>
                          Some (RunState (notes st) (opened st) (written st)
                                         (success_count st) (fail_count st + 1)
                                         (skip_count st) replace_count)
                      end
                end
            end
        | _ => None
        end
    end.

(** [for idx, item in enumerate(items, 1)] *)
Fixpoint process_items (items : list Zotero.item) (st : run_state) : option run_state :=
  match items with
  | [] => Some st
  | it :: rest =>
      match process_item st it with
      | Some st' => process_items rest st'
      | None => None
      end
  end.

End Analyzer.

(** The state in which a run starts, on a folder of notes *)
Definition initial_state (folder : gset string) : run_state :=
  RunState folder [] [] 0 0 0 0.

(** An attachment is a PDF. *)
Definition is_pdf (att : Zotero.item) : Prop :=
  Zotero.contentType att = Some "application/pdf"%string.

(** The test of [main_pdfs] on an attachment *)
Definition supplementary (is_supplement : string → bool) (att : Zotero.item) : bool :=
  is_supplement (default EmptyString (Zotero.title att)).

(** Three attachments: a snapshot, a supplement of 900 bytes and the
    paper of 500 bytes *)
Definition sample_attachments : list Zotero.item :=
  [Zotero.Item "A1" (Some "attachment"%string) (Some "text/html"%string)
               (Some "K1"%string) (Some "Snapshot"%string) None [] None (Some 2000);
   Zotero.Item "A2" (Some "attachment"%string) (Some "application/pdf"%string)
               (Some "K1"%string) (Some "Supplement"%string) None [] None (Some 900);
   Zotero.Item "A3" (Some "attachment"%string) (Some "application/pdf"%string)
               (Some "K1"%string) (Some "Paper"%string) None [] None (Some 500)].

Definition sample_is_supplement (title : string) : bool :=
  bool_decide (title = "Supplement"%string).

(** A download that answers 200 with a PDF of two pages without text *)
Definition sample_download (url : string) : option (Z * option (list string)) :=
  Some (200, Some [EmptyString; EmptyString]).

(** A library of four items: two articles by the same author in the same
    year, a note, and an article without abstract; no item has a PDF,
    the language model answers every request, and the writing of the
    note of the item [K3] raises after its file is opened. *)
Definition sample_article (item_key : string) (abstract : option string) : Zotero.item :=
  Zotero.Item item_key (Some "journalArticle"%string) None None
              (Some "School finance"%string) abstract
              [Zotero.Creator (Some "Lee"%string) (Some "Hojung"%string)]
              (Some "2020-05-01"%string) None.

Definition sample_library : list Zotero.item :=
  [sample_article "K1" (Some "An abstract."%string);
   Zotero.Item "K2" (Some "note"%string) None None None None [] None None;
   sample_article "K3" (Some "Another abstract."%string);
   sample_article "K4" None].

Definition sample_write_note
    (filename title author year content_type ai_result : string) : write_outcome :=
  if bool_decide (filename = "Lee, H. (2020a).md"%string) then WriteRaises else Written.

Definition sample_run (mode : string) : option run_state :=
  process_items mode "0" (λ _, None) (λ _, Some []) (λ _, false) (λ _, Some (404, None))
                (λ _ _ _, Some "summary"%string) sample_write_note
                sample_library (initial_state ∅).

(** ** The vocabulary file: written by [main] (step0, lines 458-476),
       read by [load_controlled_keywords] (step1, lines 39-72) *)

Definition START_YEAR : Z := 2015.
Definition END_YEAR : Z := 2025.

(** The double quote and the carriage return *)
Definition dq : ascii := Ascii.ascii_of_nat 34.
Definition cr : ascii := Ascii.ascii_of_nat 13.

(** What a file opened in text mode with ['w'] receives for [text]:
    every line feed is written as [linesep], the [os.linesep] of the
    platform. *)
Fixpoint written_text (linesep text : string) : string :=
  match text with
  | EmptyString => EmptyString
  | String c text' =>
      if Ascii.eqb c newline then linesep +:+ written_text linesep text'
      else String c (written_text linesep text')
  end.

(** What a file opened in text mode with ['r'] gives for the stored
    text: a carriage return followed by a line feed, and a carriage
    return alone, are read as a line feed. *)
Fixpoint universal_newlines (stored : string) : string :=
  match stored with
  | EmptyString => EmptyString
  | String c rest =>
      if Ascii.eqb c cr then
        match rest with
        | String d rest' =>
            if Ascii.eqb d newline then String newline (universal_newlines rest')
            else String newline (universal_newlines rest)
        | EmptyString => String newline EmptyString
        end
      else String c (universal_newlines rest)
  end.

(** [str(sorted(years))]: the list as Python prints it *)
Definition list_repr (years : list Z) : string :=
  "[" +:+ join ", " (pretty <$> merge_sort Z.le years) +:+ "]".

(** One line of the list: four spaces, the keyword between double
    quotes, a comma, and the count in a comment *)
Definition keyword_line (item : string * Z) : string :=
  "    " +:+ String dq (item.1 +:+ String dq (",  # appeared " +:+ pretty item.2
  +:+ " times" +:+ nl)).

(** One line of the ranking; [idx] counts from 1. *)
Definition ranked_line (idx : nat) (item : string * Z) : string :=
  pretty (Z.of_nat idx) +:+ ". " +:+ item.1 +:+ " (" +:+ pretty item.2
  +:+ " occurrences)" +:+ nl.

(** The text handed to the file, the [f.write] calls in order; [now] is
    the time stamp that [strftime] gives.  The two pictographs of the
    headings are beyond the characters of the model and stand here as
    the bytes of their UTF-8 encoding. *)
Definition report (now : string) (completed : list Z)
    (top_keywords : list (string * Z)) : string :=
  "# Education Finance & Policy - Top " +:+ pretty (Z.of_nat TOP_N_KEYWORDS)
    +:+ " Keywords" +:+ nl
  +:+ "# Generated: " +:+ now +:+ nl
  +:+ "# Based on papers from " +:+ pretty START_YEAR +:+ "-" +:+ pretty END_YEAR +:+ nl
  +:+ "# Completed years: " +:+ list_repr completed +:+ nl
  +:+ "# Source: CrossRef API + Semantic Scholar API" +:+ nl +:+ nl
  +:+ "# 📋 Python List Format (for direct copy-paste)" +:+ nl
  +:+ "CONTROLLED_KEYWORDS = [" +:+ nl
  +:+ foldr (λ item rest, keyword_line item +:+ rest)
        ("]" +:+ nl +:+ nl
         +:+ "# 📊 Ranked by Frequency" +:+ nl
         +:+ foldr (λ item rest, ranked_line item.1 item.2 +:+ rest) EmptyString
               (zip (seq 1 (length top_keywords)) top_keywords))
        top_keywords.

(** *** The regular expression of [load_controlled_keywords]

    The pattern is a sequence of single characters and of greedy
    repetitions of a class of characters, one of which is the group. *)
Inductive atom :=
| Lit (c : ascii)
| Rep (cls : ascii → bool) (min : nat) (group : bool).

(** A greedy repetition followed by [k]: one more character is taken
    while the class allows it, and the rest of the pattern is tried
    from the longest repetition down to the shortest allowed. *)
Fixpoint rep {R} (cls : ascii → bool) (min : nat) (k : string → string → option R)
    (taken : string) (n : nat) (s : string) : option R :=
  match s with
  | String d s' =>
      if cls d then
        match rep cls min k (taken +:+ String d EmptyString) (S n) s' with
        | Some r => Some r
        | None => if (min <=? n)%nat then k taken s else None
        end
      else if (min <=? n)%nat then k taken s else None
  | EmptyString => if (min <=? n)%nat then k taken s else None
  end.

(** The match of the pattern at the head of [s]: the texts of the
    groups and what follows the match. *)
Fixpoint match_atoms (atoms : list atom) (s : string) : option (list string * string) :=
  match atoms with
  | [] => Some ([], s)
  | Lit c :: atoms' =>
      match s with
      | String d s' => if Ascii.eqb c d then match_atoms atoms' s' else None
      | EmptyString => None
      end
  | Rep cls min group :: atoms' =>
      rep cls min
          (λ taken s',
             match match_atoms atoms' s' with
             | Some (groups, rest) =>
                 Some (if group then taken :: groups else groups, rest)
             | None => None
             end)
          EmptyString 0 s
  end.

(** [re.findall] for a pattern with one group that matches no empty
    text: the matches are looked for from the left, each search starts
    where the last match ended; [skip] counts the characters of the last
    match that are still to be passed. *)
Fixpoint findall_from (atoms : list atom) (skip : nat) (s : string) : list string :=
  match s with
  | EmptyString => []
  | String _ s' =>
      match skip with
      | S skip' => findall_from atoms skip' s'
      | O =>
          match match_atoms atoms s with
          | Some (groups, rest) =>
              default EmptyString (head groups)
              :: findall_from atoms (String.length s - String.length rest - 1) s'
          | None => findall_from atoms 0 s'
          end
      end
  end.

Definition findall (atoms : list atom) (s : string) : list string :=
  findall_from atoms 0 s.

Definition lits (s : string) : list atom := Lit <$> chars s.

Definition not_dq (c : ascii) : bool := negb (Ascii.eqb c dq).

(** The pattern: a double quote, the group of one or more characters
    other than a double quote, a double quote, a comma, [\s*#\s*],
    [appeared], [\s+\d+\s+], [times]. *)
Definition pattern : list atom :=
  [Lit dq; Rep not_dq 1 true; Lit dq; Lit ","; Rep is_space 0 false; Lit "#";
   Rep is_space 0 false]
  ++ lits "appeared"
  ++ [Rep is_space 1 false; Rep is_decimal 1 false; Rep is_space 1 false]
  ++ lits "times".

(** [file] is the text stored in the file, [None] when there is no file
    or it cannot be read; [content] is what [f.read()] gives for it. *)
Definition load_controlled_keywords (file : option string) : list string :=
  match file with
  | Some stored =>
      let content := universal_newlines stored in
      findall pattern content
  | None => []
  end.

(** A text in which the character [x] does not occur *)
Definition without (x : ascii) (s : string) : Prop :=
  Forall (λ c, c ≠ x) (chars s).

(** A text without double quote, and one without carriage return *)
Definition quote_free (s : string) : Prop := without dq s.
Definition cr_free (s : string) : Prop := without cr s.

(** An entry that the file can carry: a keyword that is not empty and
    has neither double quote nor carriage return, with a count that is
    not negative *)
Definition loadable (item : string * Z) : Prop :=
  item.1 ≠ EmptyString ∧ quote_free item.1 ∧ cr_free item.1 ∧ 0 ≤ item.2.

(** The two values of [os.linesep] *)
Definition is_linesep (linesep : string) : Prop :=
  linesep = nl ∨ linesep = String cr nl.

(** ** The loop of [main] over the years (step0, lines 425-440) *)

(** [range(START_YEAR, END_YEAR + 1)] *)
Definition year_range : list Z :=
  (λ i, START_YEAR + Z.of_nat i) <$> seq 0 (Z.to_nat (END_YEAR + 1 - START_YEAR)).

Global Instance progress_eq_dec : EqDecision progress.
Proof. solve_decision. Defined.

Section Main.

Variable re_finditer : string → string → list string.
Variable re_search : string → string → bool.
Variable crossref : Z → option crossref_response.
Variable semantic_scholar : string → option (option string).
Variable fetch_pdf : string → option (list string).
Variable extract_keywords_from_text : string → string → string → list string.
Variable json_load : string → option progress.

(** Lines 426-436: the progress that the loop starts from; [answer] is
    what the user types when asked whether to continue. *)
Definition starting_progress (d : disk) (answer : string) : progress :=
  let p := load_progress json_load d in
  match completed_years p with
  | [] => p
  | _ :: _ => if bool_decide (lower answer ≠ "y"%string) then empty_progress else p
  end.

(** [for year in range(START_YEAR, END_YEAR + 1): process_year(year, progress)] *)
Definition main_loop (p : progress) : traced progress :=
  tfold (λ p year, process_year re_finditer re_search crossref semantic_scholar
                                fetch_pdf extract_keywords_from_text year p)
        year_range p.

(** [if not papers] in [process_year] *)
Definition has_papers (year : Z) : bool :=
  match get_papers_for_year (crossref year) year with
  | [] => false
  | _ :: _ => true
  end.

End Main.

(** The years for which CrossRef is queried, in the order of the queries *)
Definition crossref_queries (events : list event) : list Z :=
  omap (λ e, match e with CrossrefQuery year => Some year | _ => None end) events.

(** An event that is neither a query to CrossRef nor an operation on the
    checkpoint file *)
Definition quiet (e : event) : Prop :=
  is_file_event e = false ∧ ∀ year, e ≠ CrossrefQuery year.


(* ===================================================================== *)
(** * Part II: properties                                                 *)
(* ===================================================================== *)

(** ** Strings *)

Lemma string_length_app (s t : string) :
  String.length (s +:+ t) = (String.length s + String.length t)%nat.
Proof. induction s as [|c s IH]; simpl; [done|]. by rewrite IH. Qed.

Lemma string_app_inj_r (s1 s2 t : string) : s1 +:+ t = s2 +:+ t → s1 = s2.
Proof.
  revert s2. induction s1 as [|c s1 IH]; intros [|d s2] H; simpl in H.
  - done.
  - apply (f_equal String.length) in H. cbn in H. rewrite !string_length_app in H.
    cbn in H. lia.
  - apply (f_equal String.length) in H. cbn in H. rewrite !string_length_app in H.
    cbn in H. lia.
  - cbn in H. injection H as -> H. f_equal. by apply IH.
Qed.

Lemma string_app_nil_r (s : string) : s +:+ EmptyString = s.
Proof.
  induction s as [|c s IH]; [done|].
  change (String c (s +:+ EmptyString) = String c s). by rewrite IH.
Qed.

Lemma string_app_assoc (s t u : string) : (s +:+ t) +:+ u = s +:+ (t +:+ u).
Proof.
  induction s as [|c s IH]; [done|].
  change (String c ((s +:+ t) +:+ u) = String c (s +:+ (t +:+ u))). by rewrite IH.
Qed.

(** ** Consolidation *)

Lemma sumZ_app l1 l2 : sumZ (l1 ++ l2) = sumZ l1 + sumZ l2.
Proof. induction l1 as [|x l1 IH]; simpl; lia. Qed.

Lemma sumZ_perm l1 l2 : l1 ≡ₚ l2 → sumZ l1 = sumZ l2.
Proof. induction 1; simpl; lia. Qed.

Lemma insert_desc_perm x l : insert_desc x l ≡ₚ x :: l.
Proof.
  induction l as [|y l IH]; simpl; [done|].
  destruct (x.2 <? y.2); [|done].
  rewrite IH. apply Permutation_swap.
Qed.

Lemma sorted_desc_perm l : sorted_desc l ≡ₚ l.
Proof.
  induction l as [|x l IH]; simpl; [done|].
  rewrite insert_desc_perm. by f_equiv.
Qed.

Lemma dict_get_is_Some d k : is_Some (dict_get d k) ↔ k ∈ d.*1.
Proof.
  induction d as [|[k' v] d IH]; simpl.
  - split; [intros [? ?]; discriminate | intros H; inversion H].
  - rewrite elem_of_cons. case_decide; subst.
    + split; eauto.
    + rewrite IH. split; [auto | intros [->|?]; [done|auto]].
Qed.

Lemma dict_set_fresh d k v : k ∉ d.*1 → dict_set d k v = d ++ [(k, v)].
Proof.
  induction d as [|[k' v'] d IH]; simpl; [done|].
  rewrite not_elem_of_cons. intros [Hne Hd].
  case_decide; [congruence|]. by rewrite IH.
Qed.

Lemma counts_of_keys d : NoDup d.*1 → count_of d <$> d.*1 = d.*2.
Proof.
  induction d as [|[k v] d IH]; [done|].
  rewrite !fmap_cons. simpl. rewrite NoDup_cons. intros [Hk Hd].
  unfold count_of at 1. simpl. rewrite decide_True by done. simpl. f_equal.
  rewrite <- IH by done.
  apply list_fmap_ext. intros i a Ha%list_elem_of_lookup_2.
  unfold count_of. simpl. case_decide; [congruence|done].
Qed.

Lemma mapM_dict_get d g :
  (∀ x, x ∈ g → x ∈ d.*1) → mapM (dict_get d) g = Some (count_of d <$> g).
Proof.
  induction g as [|x g IH]; intros Hg; [done|].
  destruct (proj2 (dict_get_is_Some d x)) as [v Hv]; [apply Hg; left|].
  cbn [mapM].
  rewrite Hv. simpl. rewrite IH by (intros; apply Hg; by right). simpl.
  unfold count_of at 2. by rewrite Hv.
Qed.

Lemma foldl_longer x r :
  foldl longer x r ∈ x :: r ∧ len x ≤ len (foldl longer x r) ∧
  ∀ y, y ∈ r → len y ≤ len (foldl longer x r).
Proof.
  revert x. induction r as [|z r IH]; intros x; simpl.
  - split; [left|]. split; [lia|]. intros y Hy. inversion Hy.
  - destruct (IH (longer x z)) as (Hin & Hle & Hall).
    assert (len x ≤ len (longer x z) ∧ len z ≤ len (longer x z) ∧
            (longer x z = x ∨ longer x z = z)) as (Hx & Hz & Hor).
    { unfold longer. destruct (Z.ltb_spec (len x) (len z)); split_and!; auto; lia. }
    split_and!.
    + apply elem_of_cons in Hin as [->|Hin].
      * destruct Hor as [->| ->]; [left | right; left].
      * right; by right.
    + lia.
    + intros y [->|Hy]%elem_of_cons; [lia | by apply Hall].
Qed.

Lemma max_by_len_spec g m :
  max_by_len g = Some m → m ∈ g ∧ ∀ y, y ∈ g → len y ≤ len m.
Proof.
  destruct g as [|x r]; [discriminate|]. intros [= <-].
  destruct (foldl_longer x r) as (Hin & Hle & Hall).
  split; [done|]. intros y [->|Hy]%elem_of_cons; auto.
Qed.

Lemma inner_loop_spec keyword l g P g' P' :
  foldl (inner_step keyword) (g, P) l = (g', P') →
  ∃ added, g' = g ++ added ∧ NoDup added ∧
    (∀ x, x ∈ added → (x ∉ P) ∧ x ≠ keyword ∧ x ∈ l.*1) ∧
    (∀ x, x ∈ P' ↔ x ∈ P ∨ x ∈ added).
Proof.
  revert g P. induction l as [|[k c] l IH]; intros g P; simpl.
  - intros [= <- <-]. exists []. rewrite app_nil_r. split_and!; [done|constructor| |].
    + intros x Hx; inversion Hx.
    + intros x. split; [auto|]. intros [?|Hx]; [done|inversion Hx].
  - destruct (bool_decide (k ∈ P) || bool_decide (k = keyword))%bool eqn:Hskip.
    { intros (added & -> & Hnd & Hadd & HP)%IH. exists added. split_and!; auto.
      intros x Hx. destruct (Hadd x Hx) as (?&?&?). split_and!; auto. by right. }
    apply orb_false_iff in Hskip as [HkP%bool_decide_eq_false Hkk%bool_decide_eq_false].
    destruct (contains keyword k || contains k keyword).
    + intros (added & -> & Hnd & Hadd & HP)%IH. exists (k :: added).
      rewrite <- app_assoc. simpl. split_and!; [done| | |].
      * constructor; [|done]. intros Hk. destruct (Hadd k Hk) as (Hn & _).
        apply Hn, elem_of_union. right. by apply elem_of_singleton.
      * intros x [->|Hx]%elem_of_cons.
        -- split_and!; [done|done|by left].
        -- destruct (Hadd x Hx) as (Hn & ? & ?). split_and!; [|done|by right].
           intros HxP. apply Hn, elem_of_union. by left.
      * intros x. rewrite HP, elem_of_cons, elem_of_union, elem_of_singleton. tauto.
    + intros (added & -> & Hnd & Hadd & HP)%IH. exists added. split_and!; auto.
      intros x Hx. destruct (Hadd x Hx) as (?&?&?). split_and!; auto. by right.
Qed.

Lemma all_members_snoc cs c : all_members (cs ++ [c]) = all_members cs ++ members c.
Proof. unfold all_members. rewrite fmap_app, concat_app. simpl. by rewrite app_nil_r. Qed.

Lemma elem_of_all_members cs x :
  x ∈ all_members cs ↔ ∃ c, c ∈ cs ∧ x ∈ members c.
Proof.
  unfold all_members. induction cs as [|c cs IH]; simpl.
  - split; [intros H; inversion H | intros (c & H & _); inversion H].
  - rewrite elem_of_app, IH. split.
    + intros [Hx|(c' & Hc' & Hx)]; [exists c; split; [left|done]|].
      exists c'. split; [by right|done].
    + intros (c' & [->|Hc']%elem_of_cons & Hx); [by left|]. right. eauto.
Qed.

Lemma representative_in_members kc cs c :
  Forall (cluster_ok kc) cs → c ∈ cs → representative c ∈ all_members cs.
Proof.
  intros Hall Hc. rewrite Forall_forall in Hall. destruct (Hall c Hc) as (Hr & _).
  apply elem_of_all_members. eauto.
Qed.

Lemma outer_step_inv kc L st item :
  run_inv kc st → (∀ x, x ∈ L.*1 → x ∈ kc.*1) → item.1 ∈ kc.*1 →
  ∃ st', outer_step kc L st item = Some st' ∧ run_inv kc st' ∧
         item.1 ∈ processed st' ∧ (∀ x, x ∈ processed st → x ∈ processed st').
Proof.
  intros [Hnd Hproc Hkeys Hdict Hcl] HL Hitem. unfold outer_step.
  destruct (bool_decide (item.1 ∈ processed st)) eqn:Hdone.
  { apply bool_decide_eq_true in Hdone. exists st. split_and!; auto. by constructor. }
  apply bool_decide_eq_false in Hdone.
  destruct (foldl (inner_step item.1) ([item.1], processed st) L) as [g P'] eqn:Hinner.
  apply inner_loop_spec in Hinner as (added & -> & Hnda & Hadd & HP').
  simpl app.
  destruct (max_by_len (item.1 :: added)) as [rep|] eqn:Hrep; [|done].
  apply max_by_len_spec in Hrep as [Hrin Hrmax].
  assert (Hgk : ∀ x, x ∈ item.1 :: added → x ∈ kc.*1).
  { intros x [->|Hx]%elem_of_cons; [done|]. apply HL. by apply Hadd. }
  rewrite (mapM_dict_get kc _ Hgk). simpl.
  assert (Hfresh : ∀ x, x ∈ item.1 :: added → x ∉ all_members (clusters st)).
  { intros x [->|Hx]%elem_of_cons; rewrite <- Hproc; [done|]. by apply Hadd. }
  eexists. split; [done|]. split; [constructor; simpl|]; simpl.
  - rewrite all_members_snoc. simpl. apply NoDup_app. split_and!; [done| |].
    + intros x Hx Hx'. by apply (Hfresh x).
    + constructor; [|done]. intros Hk. by destruct (Hadd _ Hk) as (_ & ? & _).
  - intros x. rewrite all_members_snoc. simpl.
    rewrite elem_of_union, elem_of_singleton, HP', Hproc, elem_of_app, elem_of_cons.
    tauto.
  - intros x. rewrite all_members_snoc. simpl. rewrite elem_of_app.
    intros [Hx|Hx]; auto.
  - rewrite fmap_app. simpl. rewrite <- Hdict. apply dict_set_fresh.
    rewrite Hdict. rewrite <- list_fmap_compose.
    intros (c & Hc1 & Hc2)%list_elem_of_fmap. simpl in Hc1. subst rep.
    apply (Hfresh _ Hrin). by eapply representative_in_members.
  - apply Forall_app. split; [done|]. constructor; [|constructor].
    split_and!; simpl; auto.
  - split.
    + rewrite elem_of_union, elem_of_singleton. by right.
    + intros x Hx. rewrite elem_of_union, HP'. auto.
Qed.

Lemma outer_loop_inv kc L items st :
  run_inv kc st → (∀ x, x ∈ L.*1 → x ∈ kc.*1) → (∀ x, x ∈ items.*1 → x ∈ kc.*1) →
  ∃ st', outer_loop kc L items st = Some st' ∧ run_inv kc st' ∧
         (∀ x, x ∈ items.*1 → x ∈ processed st') ∧
         (∀ x, x ∈ processed st → x ∈ processed st').
Proof.
  revert st. induction items as [|item items IH]; intros st Hinv HL Hitems; simpl.
  - exists st. split_and!; auto. intros x Hx. inversion Hx.
  - assert (Hhd : item.1 ∈ kc.*1) by (apply Hitems; left).
    assert (Htl : ∀ x, x ∈ items.*1 → x ∈ kc.*1).
    { intros x Hx. apply Hitems. by right. }
    destruct (outer_step_inv kc L st item Hinv HL Hhd) as (st1 & -> & Hinv1 & Hin1 & Hmono1).
    simpl.
    destruct (IH st1 Hinv1 HL Htl) as (st' & Hrun & Hinv' & Hall & Hmono).
    exists st'. split_and!; auto.
    intros x Hx. change (x ∈ item.1 :: items.*1) in Hx.
    apply elem_of_cons in Hx as [->|Hx]; auto.
Qed.

Lemma run_inv_init kc : run_inv kc (LoopState [] ∅ []).
Proof.
  constructor; simpl; try done.
  - constructor.
  - intros x. split; intros Hx; [by apply not_elem_of_empty in Hx | inversion Hx].
  - intros x Hx. inversion Hx.
Qed.

Lemma consolidate_run_inv kc :
  NoDup kc.*1 →
  ∃ st, consolidate_run kc = Some st ∧ run_inv kc st ∧
        all_members (clusters st) ≡ₚ kc.*1.
Proof.
  intros Hnd. unfold consolidate_run.
  assert (Hperm : (sorted_desc kc).*1 ≡ₚ kc.*1) by (by rewrite sorted_desc_perm).
  assert (HL : ∀ x, x ∈ (sorted_desc kc).*1 → x ∈ kc.*1).
  { intros x. by rewrite Hperm. }
  destruct (outer_loop_inv kc (sorted_desc kc) (sorted_desc kc) _ (run_inv_init kc) HL HL)
    as (st & Hrun & Hinv & Hall & _).
  exists st. split_and!; [done|done|].
  destruct Hinv as [Hnd' Hproc Hkeys _ _].
  apply NoDup_Permutation; [done|done|].
  intros x. split; [apply Hkeys|]. intros Hx. apply Hproc, Hall. by rewrite Hperm.
Qed.

Lemma sum_totals kc cs :
  Forall (cluster_ok kc) cs →
  sumZ (total_count <$> cs) = sumZ (count_of kc <$> all_members cs).
Proof.
  induction 1 as [|c cs (_ & _ & Htot) _ IH]; [done|].
  unfold all_members in *. rewrite !fmap_cons. simpl.
  rewrite fmap_app, sumZ_app, <- IH, Htot. done.
Qed.

Lemma no_cluster_of (cs : list cluster) (x : string) :
  x ∉ all_members cs → filter (λ c, x ∈ members c) cs = [].
Proof.
  induction cs as [|c cs IH]; [done|]. intros Hx.
  rewrite filter_cons. case_decide as Hin.
  - exfalso. apply Hx, elem_of_all_members. exists c. split; [left|done].
  - apply IH. intros (c' & Hc' & Hx')%elem_of_all_members.
    apply Hx, elem_of_all_members. exists c'. split; [by right|done].
Qed.

Lemma one_cluster_of (cs : list cluster) (x : string) :
  NoDup (all_members cs) → x ∈ all_members cs →
  length (filter (λ c, x ∈ members c) cs) = 1%nat.
Proof.
  induction cs as [|c cs IH].
  - intros _ Hx. inversion Hx.
  - change (all_members (c :: cs)) with (members c ++ all_members cs).
    rewrite NoDup_app, elem_of_app. intros (Hc & Hdisj & Hcs) Hx.
    rewrite filter_cons. case_decide as Hin; simpl.
    + rewrite no_cluster_of; [done|]. by apply Hdisj.
    + destruct Hx as [Hx|Hx]; [done|]. by apply IH.
Qed.

(** C1.  For every input mapping (an association list with distinct
    keys), [consolidate_similar_keywords] returns a mapping whose counts
    add up to the input counts; its entries are the clusters, in the
    order they are created; every input keyword is a member of exactly
    one cluster; the members of a cluster are input keywords; the
    representative of a cluster is one of its members and no member is
    longer; the count of a cluster is the sum of its members' counts. *)
Theorem C1_consolidate_partitions_and_preserves_sum (keyword_counts : dict) :
  NoDup keyword_counts.*1 →
  ∃ st,
    consolidate_run keyword_counts = Some st ∧
    consolidate_similar_keywords keyword_counts = Some (consolidated st) ∧
    consolidated st = entry <$> clusters st ∧
    sumZ (consolidated st).*2 = sumZ keyword_counts.*2 ∧
    (∀ kw, kw ∈ keyword_counts.*1 →
       length (filter (λ c, kw ∈ members c) (clusters st)) = 1%nat) ∧
    (∀ c, c ∈ clusters st →
       representative c ∈ members c ∧
       (∀ m, m ∈ members c → m ∈ keyword_counts.*1 ∧ len m ≤ len (representative c)) ∧
       total_count c = sumZ (count_of keyword_counts <$> members c)).
Proof.
  intros Hnd.
  destruct (consolidate_run_inv keyword_counts Hnd) as (st & Hrun & Hinv & Hperm).
  destruct Hinv as [Hnd' Hproc Hkeys Hdict Hcl].
  exists st. split_and!; [done| |done| | |].
  - unfold consolidate_similar_keywords. by rewrite Hrun.
  - rewrite Hdict, <- list_fmap_compose.
    change (snd ∘ entry) with total_count.
    rewrite (sum_totals keyword_counts) by done.
    rewrite <- (counts_of_keys keyword_counts) by done.
    apply sumZ_perm. by rewrite Hperm.
  - intros kw Hkw. apply one_cluster_of; [done|]. by rewrite Hperm.
  - intros c Hc. rewrite Forall_forall in Hcl.
    destruct (Hcl c Hc) as (Hr & Hmax & Htot). split_and!; [done| |done].
    intros m Hm. split; [|by apply Hmax].
    apply Hkeys, elem_of_all_members. eauto.
Qed.

Lemma C1_witness :
  NoDup regression_counts.*1 ∧
  ∃ st, consolidate_run regression_counts = Some st ∧
        sumZ (consolidated st).*2 = sumZ regression_counts.*2.
Proof.
  assert (H : NoDup regression_counts.*1) by (apply (bool_decide_unpack _); by vm_compute).
  split; [exact H|].
  destruct (C1_consolidate_partitions_and_preserves_sum regression_counts H)
    as (st & Hrun & _ & _ & Hsum & _).
  exists st. split; [exact Hrun | exact Hsum].
Defined.

(** C9.  On [{regression: 5, regression discontinuity: 3, rdd: 1}] the
    result has exactly two entries: [regression discontinuity], the
    longest member of its cluster, with count 8, and [rdd] with count 1;
    [rdd] neither occurs in one of the two other keywords nor contains
    one of them. *)
Theorem C9_regression_example :
  consolidate_similar_keywords regression_counts
    = Some [("regression discontinuity", 8); ("rdd", 1)]%string ∧
  clusters <$> consolidate_run regression_counts
    = Some [ Cluster ["regression"; "regression discontinuity"]
                     "regression discontinuity" 8;
             Cluster ["rdd"] "rdd" 1 ]%string ∧
  contains "rdd" "regression" = false ∧
  contains "rdd" "regression discontinuity" = false ∧
  contains "regression" "rdd" = false ∧
  contains "regression discontinuity" "rdd" = false.
Proof. split_and!; by vm_compute. Qed.

(** ** Final ranking *)

Lemma before_cons_inv {A} (x : A) l a b :
  before (x :: l) a b → (a = x ∧ b ∈ l) ∨ before l a b.
Proof.
  intros (l1 & l2 & l3 & Heq). destruct l1 as [|z l1]; simpl in Heq.
  - injection Heq as -> ->. left. split; [done|].
    apply elem_of_app. right. left.
  - injection Heq as -> ->. right. by exists l1, l2, l3.
Qed.

Lemma before_cons {A} (x : A) l a b : before l a b → before (x :: l) a b.
Proof. intros (l1 & l2 & l3 & ->). by exists (x :: l1), l2, l3. Qed.

Lemma before_head {A} (x : A) l b : b ∈ l → before (x :: l) x b.
Proof. intros (l2 & l3 & ->)%list_elem_of_split. by exists [], l2, l3. Qed.

Lemma before_app_l {A} (l l' : list A) a b : before l a b → before (l ++ l') a b.
Proof.
  intros (l1 & l2 & l3 & ->). exists l1, l2, (l3 ++ l').
  rewrite <- app_assoc. simpl. by rewrite <- app_assoc.
Qed.

Lemma before_split {A} (l l' : list A) a b : a ∈ l → b ∈ l' → before (l ++ l') a b.
Proof.
  intros (l1 & l2 & ->)%list_elem_of_split (l3 & l4 & ->)%list_elem_of_split.
  exists l1, (l2 ++ l3), l4. by rewrite <- !app_assoc.
Qed.

Lemma descending_tail x l : descending (x :: l) → descending l.
Proof. intros H a b Hab. by apply H, before_cons. Qed.

Lemma before_insert_desc x s a b :
  descending s → before (insert_desc x s) a b →
  (a = x ∧ b ∈ s ∧ b.2 ≤ x.2) ∨ (b = x ∧ a ∈ s ∧ x.2 < a.2) ∨ before s a b.
Proof.
  induction s as [|y s IH]; intros Hs; simpl.
  - intros [[_ H]|(?&?&?&H)]%before_cons_inv; [inversion H|by destruct x0].
  - destruct (Z.ltb_spec x.2 y.2) as [Hlt|Hge].
    + intros [[-> Hb]|Hab]%before_cons_inv.
      * rewrite insert_desc_perm in Hb. apply elem_of_cons in Hb as [->|Hb].
        -- right; left. split_and!; [done|left|done].
        -- right; right. by apply before_head.
      * destruct (IH (descending_tail _ _ Hs) Hab) as [(-> & Hb & Hle)|[(-> & Ha & Hl)|Hb]].
        -- left. split_and!; [done|by right|done].
        -- right; left. split_and!; [done|by right|done].
        -- right; right. by apply before_cons.
    + intros [[-> Hb]|Hab]%before_cons_inv; [|by right; right].
      left. split_and!; [done|done|].
      apply elem_of_cons in Hb as [->|Hb]; [done|].
      specialize (Hs y b (before_head _ _ _ Hb)). lia.
Qed.

Lemma sorted_desc_stable l a b :
  before (sorted_desc l) a b → b.2 < a.2 ∨ (a.2 = b.2 ∧ before l a b).
Proof.
  revert a b. induction l as [|x l IH]; intros a b; simpl.
  - intros (l1 & l2 & l3 & H). by destruct l1.
  - intros Hab. apply before_insert_desc in Hab.
    + destruct Hab as [(-> & Hb & Hle)|[(-> & Ha & Hl)|Hb]].
      * rewrite sorted_desc_perm in Hb.
        destruct (Z.eq_dec b.2 x.2) as [Heq|Hne]; [|left; lia].
        right. split; [done|]. by apply before_head.
      * by left.
      * destruct (IH _ _ Hb) as [?|[? ?]]; [by left|].
        right. split; [done|]. by apply before_cons.
    + intros c d Hcd. destruct (IH _ _ Hcd) as [?|[? ?]]; lia.
Qed.

Lemma sorted_desc_descending l : descending (sorted_desc l).
Proof. intros a b Hab. destruct (sorted_desc_stable _ _ _ Hab) as [?|[? ?]]; lia. Qed.

Lemma dict_set_keys d k v :
  (dict_set d k v).*1 = if decide (k ∈ d.*1) then d.*1 else d.*1 ++ [k].
Proof.
  induction d as [|[k' v'] d IH]; [done|].
  simpl dict_set. destruct (decide (k' = k)) as [->|Hne].
  - rewrite decide_True; [done|]. rewrite fmap_cons. left.
  - rewrite !fmap_cons, IH. simpl.
    destruct (decide (k ∈ d.*1)) as [Hin|Hnin].
    + rewrite decide_True; [done|]. by right.
    + rewrite decide_False; [done|]. intros [?|?]%elem_of_cons; congruence.
Qed.

Lemma dict_set_NoDup d k v : NoDup d.*1 → NoDup (dict_set d k v).*1.
Proof.
  intros Hd. rewrite dict_set_keys. case_decide; [done|].
  apply NoDup_app. split_and!; [done| |apply NoDup_singleton].
  intros x Hx ->%list_elem_of_singleton. done.
Qed.

Lemma Counter_NoDup all_keywords : NoDup (Counter all_keywords).*1.
Proof.
  unfold Counter. generalize (NoDup_nil_2 (A := string)).
  change (@nil string) with ((@nil (string * Z)).*1).
  generalize (@nil (string * Z)).
  induction all_keywords as [|kw kws IH]; intros d Hd; [done|].
  simpl. apply IH. by apply dict_set_NoDup.
Qed.

(** C8.  When the mapping returned by the consolidation has more than
    [TOP_N_KEYWORDS] entries, the final vocabulary has exactly that many;
    they are entries of the mapping and none of the entries left out has
    a larger count; the counts go down along the vocabulary; the entries
    of the mapping are the clusters in the order the consolidation
    creates them, and of two entries with the same count the one created
    first comes first. *)
Theorem C8_top_k_sorted_stable (all_keywords : list string) (consolidated_counts : dict) :
  consolidate_similar_keywords (Counter all_keywords) = Some consolidated_counts →
  (TOP_N_KEYWORDS < length consolidated_counts)%nat →
  ∃ top rest st,
    final_vocabulary all_keywords = Some top ∧
    top = top_keywords consolidated_counts ∧
    length top = TOP_N_KEYWORDS ∧
    top ++ rest ≡ₚ consolidated_counts ∧
    (∀ a b, a ∈ top → b ∈ rest → b.2 ≤ a.2) ∧
    consolidate_run (Counter all_keywords) = Some st ∧
    consolidated_counts = entry <$> clusters st ∧
    (∀ a b, before top a b →
       b.2 < a.2 ∨ (a.2 = b.2 ∧ before (entry <$> clusters st) a b)).
Proof.
  intros Hcons Hlen.
  destruct (consolidate_run_inv (Counter all_keywords) (Counter_NoDup all_keywords))
    as (st & Hrun & [_ _ _ Hdict _] & _).
  assert (Hentries : consolidated_counts = entry <$> clusters st).
  { unfold consolidate_similar_keywords in Hcons. rewrite Hrun in Hcons.
    injection Hcons as <-. exact Hdict. }
  exists (top_keywords consolidated_counts),
         (drop TOP_N_KEYWORDS (sorted_desc consolidated_counts)), st.
  unfold final_vocabulary, top_keywords. rewrite Hcons. simpl.
  split_and!; [done|done| | | |done|done|].
  - rewrite length_take, (Permutation_length (sorted_desc_perm _)). lia.
  - by rewrite take_drop, sorted_desc_perm.
  - intros a b Ha Hb.
    apply (sorted_desc_descending consolidated_counts).
    rewrite <- (take_drop TOP_N_KEYWORDS (sorted_desc consolidated_counts)).
    by apply before_split.
  - intros a b Hab. rewrite <- Hentries. apply sorted_desc_stable.
    rewrite <- (take_drop TOP_N_KEYWORDS (sorted_desc consolidated_counts)).
    by apply before_app_l.
Qed.

Lemma C8_witness :
  ∃ top, final_vocabulary sample_keywords = Some top ∧ length top = TOP_N_KEYWORDS.
Proof.
  destruct (C8_top_k_sorted_stable sample_keywords
              (default [] (consolidate_similar_keywords (Counter sample_keywords))))
    as (top & rest & st & Hfinal & _ & Hlen & _).
  - by vm_compute.
  - vm_compute. lia.
  - exists top. split; [exact Hfinal | exact Hlen].
Defined.

(** ** File names *)

Lemma counter_name_inj a y : Inj (=) (=) (counter_name a y).
Proof.
  intros k1 k2 H. unfold counter_name, note_name in H.
  apply (inj (String.append a)), (inj (String.append " (")) in H.
  apply string_app_inj_r in H.
  apply (inj (String.append y)), (inj (String.append "-")) in H.
  by apply (inj pretty) in H.
Qed.

Section FilenameFacts.
Variable folder : gset string.
Variables a y : string.

Lemma letter_loop_first pre c post :
  (∀ d, d ∈ list_ascii_of_string pre → letter_name a y d ∈ folder) →
  letter_name a y c ∉ folder →
  letter_loop folder a y (pre +:+ String c post)
    = Some (letter_name a y c, y +:+ String c EmptyString, false).
Proof.
  induction pre as [|d pre IH]; intros Hpre Hc; simpl.
  - unfold path_exists. by rewrite bool_decide_eq_false_2.
  - unfold path_exists. rewrite bool_decide_eq_true_2 by (apply Hpre; left).
    apply IH; [|done]. intros e He. apply Hpre. by right.
Qed.

Lemma letter_loop_all_taken ls :
  (∀ d, d ∈ list_ascii_of_string ls → letter_name a y d ∈ folder) →
  letter_loop folder a y ls = None.
Proof.
  induction ls as [|d ls IH]; intros Hls; simpl; [done|].
  unfold path_exists. rewrite bool_decide_eq_true_2 by (apply Hls; left).
  apply IH. intros e He. apply Hls. by right.
Qed.

Lemma letter_loop_free ls f ys b :
  letter_loop folder a y ls = Some (f, ys, b) →
  (f ∉ folder) ∧ b = false ∧ f = note_name a ys.
Proof.
  induction ls as [|d ls IH]; simpl; [done|].
  unfold path_exists. case_bool_decide; [done|]. by intros [= <- <- <-].
Qed.

Lemma counter_loop_first fuel c n :
  c ≤ n → (Z.to_nat (n - c) < fuel)%nat →
  (∀ k, c ≤ k < n → counter_name a y k ∈ folder) →
  counter_name a y n ∉ folder →
  counter_loop folder fuel a y c
    = Some (counter_name a y n, y +:+ "-" +:+ pretty n, false).
Proof.
  revert c. induction fuel as [|fuel IH]; intros c Hcn Hfuel Htaken Hfree; [lia|].
  simpl. unfold path_exists. fold (counter_name a y c).
  destruct (decide (c = n)) as [->|Hne].
  - by rewrite bool_decide_eq_false_2.
  - rewrite bool_decide_eq_true_2 by (apply Htaken; lia).
    apply IH; [lia|lia| |done]. intros k Hk. apply Htaken. lia.
Qed.

Lemma counter_loop_free fuel c f ys b :
  counter_loop folder fuel a y c = Some (f, ys, b) →
  (f ∉ folder) ∧ b = false ∧ f = note_name a ys.
Proof.
  revert c. induction fuel as [|fuel IH]; intros c; simpl; [done|].
  unfold path_exists. case_bool_decide; [apply IH|]. by intros [= <- <- <-].
Qed.

Lemma counter_loop_none fuel c :
  counter_loop folder fuel a y c = None →
  ∀ i, (i < fuel)%nat → counter_name a y (c + Z.of_nat i) ∈ folder.
Proof.
  revert c. induction fuel as [|fuel IH]; intros c; simpl; [intros _ i; lia|].
  unfold path_exists. fold (counter_name a y c). case_bool_decide as Hc; [|done].
  intros Hrest [|i] Hi.
  - by rewrite Z.add_0_r.
  - replace (c + Z.of_nat (S i)) with ((c + 1) + Z.of_nat i) by lia.
    apply IH; [done|lia].
Qed.

Lemma counter_loop_mono fuel fuel' c r :
  counter_loop folder fuel a y c = Some r → (fuel ≤ fuel')%nat →
  counter_loop folder fuel' a y c = Some r.
Proof.
  revert fuel' c. induction fuel as [|fuel IH]; intros fuel' c; simpl; [done|].
  intros H Hle. destruct fuel' as [|fuel']; [lia|]. simpl.
  destruct (path_exists folder _); [|done]. apply IH; [done|lia].
Qed.

(** Pigeonhole: the loop cannot see more taken names than the folder has. *)
Lemma counter_loop_none_bound fuel c :
  counter_loop folder fuel a y c = None → (fuel ≤ size folder)%nat.
Proof.
  intros Hnone.
  set (names := counter_name a y <$> ((λ i, c + Z.of_nat i) <$> seq 0 fuel)).
  assert (Hnd : NoDup names).
  { apply NoDup_fmap_2_strong; [intros k1 k2 _ _; apply counter_name_inj|].
    apply NoDup_fmap_2_strong; [intros i j _ _ ?; lia|]. apply NoDup_seq. }
  assert (Hsub : list_to_set names ⊆ folder).
  { intros x Hx. apply elem_of_list_to_set in Hx.
    apply list_elem_of_fmap in Hx as (k & -> & Hk).
    apply list_elem_of_fmap in Hk as (i & -> & Hi).
    apply elem_of_seq in Hi. apply (counter_loop_none _ _ Hnone). lia. }
  apply subseteq_size in Hsub.
  rewrite size_list_to_set in Hsub by done.
  unfold names in Hsub. by rewrite !length_fmap, length_seq in Hsub.
Qed.

Lemma counter_loop_enough c :
  ∃ ys, counter_loop folder (S (size folder)) a y c = Some (note_name a ys, ys, false) ∧
        note_name a ys ∉ folder.
Proof.
  destruct (counter_loop folder (S (size folder)) a y c) as [[[f ys] b]|] eqn:H.
  - destruct (counter_loop_free _ _ _ _ _ H) as (Hf & -> & ->). by exists ys.
  - apply counter_loop_none_bound in H. lia.
Qed.

End FilenameFacts.

Lemma note_name_identifier a y : note_name a y = identifier a y +:+ ".md".
Proof. unfold note_name, identifier. by rewrite !string_app_assoc. Qed.

Lemma suffix_policy_names (folder : gset string) (a y : string) :
  (note_name a y ∉ folder →
   ∀ fuel, get_unique_filename folder fuel a y "suffix"
           = Some (Some (note_name a y, y, false))) ∧
  (∀ pre c post, letters = pre +:+ String c post →
     note_name a y ∈ folder →
     (∀ d, d ∈ list_ascii_of_string pre → letter_name a y d ∈ folder) →
     letter_name a y c ∉ folder →
     ∀ fuel, get_unique_filename folder fuel a y "suffix"
             = Some (Some (letter_name a y c, y +:+ String c EmptyString, false))) ∧
  (∀ n, 1 ≤ n →
     note_name a y ∈ folder →
     (∀ d, d ∈ list_ascii_of_string letters → letter_name a y d ∈ folder) →
     (∀ k, 1 ≤ k < n → counter_name a y k ∈ folder) →
     counter_name a y n ∉ folder →
     ∀ fuel, (Z.to_nat n ≤ fuel)%nat →
             get_unique_filename folder fuel a y "suffix"
             = Some (Some (counter_name a y n, y +:+ "-" +:+ pretty n, false))).
Proof.
  split_and!.
  - intros Hfree fuel. unfold get_unique_filename, path_exists.
    rewrite bool_decide_eq_false_2 by done. rewrite bool_decide_eq_true_2 by done.
    by rewrite bool_decide_eq_false_2.
  - intros pre c post Hl Hbase Hpre Hc fuel. unfold get_unique_filename, path_exists.
    rewrite bool_decide_eq_false_2 by done. rewrite bool_decide_eq_true_2 by done.
    rewrite bool_decide_eq_true_2 by done. simpl negb. cbv iota.
    fold letters. rewrite Hl. by rewrite letter_loop_first.
  - intros n Hn Hbase Hletters Htaken Hfree fuel Hfuel.
    unfold get_unique_filename, path_exists.
    rewrite bool_decide_eq_false_2 by done. rewrite bool_decide_eq_true_2 by done.
    rewrite bool_decide_eq_true_2 by done. simpl negb. cbv iota.
    fold letters. rewrite letter_loop_all_taken by done.
    rewrite (counter_loop_first folder a y fuel 1 n); [done|lia|lia|done|done].
Qed.

(** Membership in a concrete folder is settled by evaluation. *)
Ltac by_computation :=
  unfold taken; apply (bool_decide_unpack _); by vm_compute.

(** C6.  Under the ["suffix"] policy, an identifier being taken when its
    file is in the folder: the identifier [author (year)] is returned
    when it is free; otherwise the year is suffixed with [a] to [z] in
    that order and the first free identifier is returned; when all 26
    are taken, the first free identifier among [year-1], [year-2], ...
    is returned (the fuel only has to reach the number).  With
    [Lee (2020)] and [Lee (2020a)] to [Lee (2020z)] taken, [Lee] and
    [2020] resolve to [Lee (2020-1)]. *)
Theorem C6_suffix_policy :
  (∀ (folder : gset string) (a y : string),
     (¬ taken folder (identifier a y) →
      ∀ fuel, resolves_to (get_unique_filename folder fuel a y "suffix") a y) ∧
     (∀ pre c post, letters = pre +:+ String c post →
        taken folder (identifier a y) →
        (∀ d, d ∈ list_ascii_of_string pre →
              taken folder (identifier a (y +:+ String d EmptyString))) →
        ¬ taken folder (identifier a (y +:+ String c EmptyString)) →
        ∀ fuel, resolves_to (get_unique_filename folder fuel a y "suffix")
                            a (y +:+ String c EmptyString)) ∧
     (∀ n, 1 ≤ n →
        taken folder (identifier a y) →
        (∀ d, d ∈ list_ascii_of_string letters →
              taken folder (identifier a (y +:+ String d EmptyString))) →
        (∀ k, 1 ≤ k < n → taken folder (identifier a (y +:+ "-" +:+ pretty k))) →
        ¬ taken folder (identifier a (y +:+ "-" +:+ pretty n)) →
        ∀ fuel, (Z.to_nat n ≤ fuel)%nat →
                resolves_to (get_unique_filename folder fuel a y "suffix")
                            a (y +:+ "-" +:+ pretty n))) ∧
  (taken lee_folder "Lee (2020)" ∧
   (∀ d, d ∈ list_ascii_of_string letters →
         taken lee_folder (identifier "Lee" ("2020" +:+ String d EmptyString))) ∧
   identifier "Lee" "2020-1" = "Lee (2020-1)"%string ∧
   resolves_to (get_unique_filename lee_folder 1 "Lee" "2020" "suffix") "Lee" "2020-1").
Proof.
  split.
  - intros folder a y. unfold taken, resolves_to.
    setoid_rewrite <- note_name_identifier.
    destruct (suffix_policy_names folder a y) as (H1 & H2 & H3).
    split_and!; [exact H1|exact H2|exact H3].
  - split_and!; [by_computation| |done|by vm_compute].
    intros d Hd. unfold taken. rewrite <- note_name_identifier.
    apply elem_of_list_to_set. right. by apply (list_elem_of_fmap_2 (letter_name "Lee" "2020")).
Qed.

Lemma C6_witness :
  resolves_to (get_unique_filename ∅ 0 "Lee" "2020" "suffix") "Lee" "2020" ∧
  resolves_to (get_unique_filename
                 {[ note_name "Lee" "2020"; letter_name "Lee" "2020" "a" ]} 0
                 "Lee" "2020" "suffix") "Lee" "2020b" ∧
  resolves_to (get_unique_filename ({[ counter_name "Lee" "2020" 1 ]} ∪ lee_folder) 2
                 "Lee" "2020" "suffix") "Lee" "2020-2".
Proof.
  split_and!.
  - apply (proj1 (proj1 C6_suffix_policy ∅ "Lee"%string "2020"%string)).
    by_computation.
  - apply (proj1 (proj2 (proj1 C6_suffix_policy _ "Lee"%string "2020"%string))
             "a"%string "b"%char "cdefghijklmnopqrstuvwxyz"%string).
    + reflexivity.
    + by_computation.
    + intros d Hd. apply list_elem_of_singleton in Hd as ->. by_computation.
    + by_computation.
  - apply (proj2 (proj2 (proj1 C6_suffix_policy _ "Lee"%string "2020"%string)) 2).
    + lia.
    + by_computation.
    + intros d Hd. unfold taken. rewrite <- note_name_identifier.
      apply elem_of_union. right. apply elem_of_list_to_set. right.
      by apply (list_elem_of_fmap_2 (letter_name "Lee" "2020")).
    + intros k Hk. assert (k = 1) as -> by lia.
      by_computation.
    + by_computation.
    + simpl. lia.
Defined.

(** C7.  Under the ["suffix"] policy, whatever finite set of files the
    folder holds, the search returns once it has enough fuel (one more
    than the number of files in the folder is enough, and more fuel does
    not change the answer); the identifier it returns is not taken, and
    the flag that reports an overwrite is [false]. *)
Theorem C7_suffix_terminates_fresh (folder : gset string) (a y : string) :
  ∃ fuel year_with_suffix,
    ¬ taken folder (identifier a year_with_suffix) ∧
    ∀ fuel', (fuel ≤ fuel')%nat →
      resolves_to (get_unique_filename folder fuel' a y "suffix") a year_with_suffix.
Proof.
  unfold taken, resolves_to. setoid_rewrite <- note_name_identifier.
  exists (S (size folder)).
  unfold get_unique_filename.
  rewrite bool_decide_eq_false_2 by done. rewrite bool_decide_eq_true_2 by done.
  unfold path_exists at 1. case_bool_decide as Hbase; simpl negb; cbv iota.
  - destruct (letter_loop folder a y _) as [[[f ys] b]|] eqn:Hl.
    + destruct (letter_loop_free _ _ _ _ _ _ _ Hl) as (Hf & -> & ->). by exists ys.
    + destruct (counter_loop_enough folder a y 1) as (ys & Hc & Hf).
      exists ys. split; [done|]. intros fuel' Hfuel.
      by rewrite (counter_loop_mono _ _ _ _ _ _ _ Hc Hfuel).
  - by exists y.
Qed.

Lemma C7_witness :
  ∃ fuel year_with_suffix,
    ¬ taken lee_folder (identifier "Lee" year_with_suffix) ∧
    ∀ fuel', (fuel ≤ fuel')%nat →
      resolves_to (get_unique_filename lee_folder fuel' "Lee" "2020" "suffix")
                  "Lee" year_with_suffix.
Proof. exact (C7_suffix_terminates_fresh lee_folder "Lee" "2020"). Defined.

(** ** Section extractor *)

Lemma substring_length k s :
  String.length (String.substring 0 k s) = Nat.min k (String.length s).
Proof.
  revert s. induction k as [|k IH]; intros [|c s]; simpl; try done.
  by rewrite IH.
Qed.

Lemma len_slice_to n s : 0 ≤ n → len (slice_to n s) = Z.min n (len s).
Proof. intros Hn. unfold len, slice_to. rewrite substring_length. lia. Qed.

Lemma len_truncate s : len (truncate s) = Z.min MAX_SECTION_LEN (len s).
Proof.
  unfold truncate. destruct (Z.gtb_spec (len s) MAX_SECTION_LEN).
  - rewrite len_slice_to by done. done.
  - lia.
Qed.

Lemma truthy_len s : 0 < len s → truthy s = true.
Proof. destruct s; [unfold len; simpl; lia|done]. Qed.

Lemma foldl_concat {A B} (f : A → B → A) a (ls : list (list B)) :
  foldl f a (concat ls) = foldl (λ a l, foldl f a l) a ls.
Proof.
  revert a. induction ls as [|l ls IH]; intros a; simpl; [done|].
  by rewrite foldl_app, IH.
Qed.

Lemma header_step_pick st ms :
  foldl header_step st ms = foldl pick st (qualifying ms).
Proof.
  revert st. induction ms as [|m ms IH]; intros [b n]; [done|].
  unfold qualifying. rewrite filter_cons.
  change (foldl header_step (b, n) (m :: ms))
    with (foldl header_step (header_step (b, n) m) ms).
  rewrite IH. unfold header_step, qualifying.
  destruct (Z.ltb_spec (len m) MIN_HEADER_LEN) as [Hlt|Hge].
  - by rewrite decide_False by lia.
  - rewrite decide_True by lia. rewrite fmap_cons. simpl foldl.
    f_equal.
Qed.

Lemma header_scan_pick re_finditer full_text :
  header_scan re_finditer full_text
    = foldl pick (None, 0) (qualifying (header_matches re_finditer full_text)).
Proof.
  unfold header_scan, header_matches. rewrite <- header_step_pick, foldl_concat.
  generalize (@None string, 0). induction all_patterns as [|p ps IH]; intros st; [done|].
  simpl. apply IH.
Qed.

Lemma qualifying_len ms c : c ∈ qualifying ms → MIN_HEADER_LEN ≤ len c ≤ MAX_SECTION_LEN.
Proof.
  unfold qualifying. intros (m & -> & Hm)%list_elem_of_fmap.
  apply list_elem_of_filter in Hm as [Hm _]. rewrite len_truncate.
  unfold MIN_HEADER_LEN, MAX_SECTION_LEN in *. lia.
Qed.


(** The fold keeps the first of the longest candidates. *)
Lemma foldl_pick_first_max cs :
  (∀ c, c ∈ cs → 0 < len c) → cs ≠ [] →
  ∃ pre best post,
    cs = pre ++ best :: post ∧ foldl pick (None, 0) cs = (Some best, len best) ∧
    (∀ c, c ∈ pre → len c < len best) ∧ (∀ c, c ∈ post → len c ≤ len best).
Proof.
  induction cs as [|c cs IH] using rev_ind; [done|]. intros Hpos _.
  rewrite foldl_app. simpl.
  destruct (decide (cs = [])) as [->|Hcs].
  - simpl. unfold pick. simpl.
    destruct (Z.gtb_spec (len c) 0) as [_|Hle];
      [|specialize (Hpos c ltac:(left)); lia].
    exists [], c, []. split_and!; [done|done| |]; intros ? H; inversion H.
  - destruct IH as (pre & best & post & Heq & Hfold & Hpre & Hpost); [|done|].
    { intros d Hd. apply Hpos, elem_of_app. by left. }
    rewrite Hfold. unfold pick. simpl.
    destruct (Z.gtb_spec (len c) (len best)) as [Hgt|Hle].
    + exists cs, c, []. split_and!; [done|done| |].
      * intros d Hd. rewrite Heq in Hd.
        apply elem_of_app in Hd as [Hd|[->|Hd]%elem_of_cons].
        -- specialize (Hpre d Hd). lia.
        -- lia.
        -- specialize (Hpost d Hd). lia.
      * intros ? H; inversion H.
    + exists pre, best, (post ++ [c]). split_and!; [|done|done|].
      * rewrite Heq at 1. by rewrite <- app_assoc.
      * intros d [Hd|Hd]%elem_of_app; [by apply Hpost|].
        apply list_elem_of_singleton in Hd as ->. lia.
Qed.

Lemma header_choice
    (re_finditer : string → string → list string)
    (re_search : string → string → bool) (full_text : string) :
  let candidates := qualifying (header_matches re_finditer full_text) in
  (candidates ≠ [] →
     ∃ pre best post,
       candidates = pre ++ best :: post ∧
       (∀ c, c ∈ pre → len c < len best) ∧
       (∀ c, c ∈ post → len c ≤ len best) ∧
       extract_method_section re_finditer re_search full_text = Some best) ∧
  (candidates = [] →
     extract_method_section re_finditer re_search full_text
       = density_fallback re_search full_text).
Proof.
  intros candidates.
  unfold extract_method_section. rewrite header_scan_pick.
  fold candidates. split.
  - intros Hne.
    destruct (foldl_pick_first_max candidates) as (pre & best & post & Heq & Hfold & Hpre & Hpost);
      [|done|].
    { intros c Hc%qualifying_len. unfold MIN_HEADER_LEN in Hc. lia. }
    exists pre, best, post. rewrite Hfold. simpl.
    assert (Hbest : best ∈ candidates).
    { rewrite Heq. apply elem_of_app. right. left. }
    apply qualifying_len in Hbest. unfold MIN_HEADER_LEN in Hbest.
    by rewrite truthy_len by lia.
  - by intros ->.
Qed.

Lemma header_matches_strategies re_finditer full_text :
  header_matches re_finditer full_text
  = strategy1_matches re_finditer full_text ++ strategy2_matches re_finditer full_text.
Proof.
  unfold header_matches, strategy1_matches, strategy2_matches, all_patterns.
  by rewrite fmap_app, concat_app.
Qed.

Lemma qualifying_app l1 l2 : qualifying (l1 ++ l2) = qualifying l1 ++ qualifying l2.
Proof. unfold qualifying. by rewrite filter_app, fmap_app. Qed.

(** C2 (amended).  The candidates of strategy 1 and those of strategy 2
    are the matches of their patterns that have at least 200 characters,
    cut to 25000 characters.  When there is one, the extractor returns
    the longest of them all and, of several longest ones, the first the
    loop meets, strategy 1 before strategy 2; the keyword-density
    fallback is not consulted, whatever it would return.  Between the two
    strategies length decides and the order only breaks ties: a
    candidate of strategy 2 that is longer than every candidate of
    strategy 1 makes the result a candidate of strategy 2, longer than
    all those of strategy 1; a candidate of strategy 1 that is at least
    as long as every candidate of strategy 2 makes the result a
    candidate of strategy 1.  When there is no candidate, the extractor
    returns what the fallback returns. *)
Theorem C2_longest_header_whatever_strategy
    (re_finditer : string → string → list string)
    (re_search : string → string → bool) (full_text : string) :
  let first := qualifying (strategy1_matches re_finditer full_text) in
  let second := qualifying (strategy2_matches re_finditer full_text) in
  (first ++ second ≠ [] →
     ∃ pre best post,
       first ++ second = pre ++ best :: post ∧
       (∀ c, c ∈ pre → len c < len best) ∧
       (∀ c, c ∈ post → len c ≤ len best) ∧
       extract_method_section re_finditer re_search full_text = Some best ∧
       ((∃ c2, c2 ∈ second ∧ ∀ c1, c1 ∈ first → len c1 < len c2) →
        best ∈ second ∧ ∀ c1, c1 ∈ first → len c1 < len best) ∧
       ((∃ c1, c1 ∈ first ∧ ∀ c2, c2 ∈ second → len c2 ≤ len c1) →
        best ∈ first)) ∧
  (first ++ second = [] →
     extract_method_section re_finditer re_search full_text
       = density_fallback re_search full_text).
Proof.
  intros first second.
  destruct (header_choice re_finditer re_search full_text) as [Hsome Hnone].
  rewrite header_matches_strategies, qualifying_app in Hsome, Hnone.
  fold first second in Hsome, Hnone.
  split; [|exact Hnone].
  intros Hne. destruct (Hsome Hne) as (pre & best & post & Heq & Hpre & Hpost & Hres).
  exists pre, best, post. split_and!; try done.
  - (* a longer candidate of strategy 2 *)
    intros (c2 & Hc2 & Hlonger).
    assert (Hmax : len c2 ≤ len best).
    { assert (Hin : c2 ∈ pre ++ best :: post)
        by (rewrite <- Heq; apply elem_of_app; by right).
      apply elem_of_app in Hin as [Hin|[->|Hin]%elem_of_cons].
      - specialize (Hpre _ Hin). lia.
      - lia.
      - by apply Hpost. }
    assert (Hall : ∀ c1, c1 ∈ first → len c1 < len best).
    { intros c1 Hc1. specialize (Hlonger c1 Hc1). lia. }
    split; [|done].
    assert (Hin : best ∈ first ++ second)
      by (rewrite Heq; apply elem_of_app; right; left).
    apply elem_of_app in Hin as [Hin|Hin]; [|done].
    specialize (Hall best Hin). lia.
  - (* a candidate of strategy 1 that no candidate of strategy 2 exceeds *)
    intros (c1 & Hc1 & Hnot_longer).
    apply app_eq_app in Heq as [k [[Hfirst Htail]|[Hpre_eq Hsecond]]].
    + (* the result stands in the part of strategy 1 or opens strategy 2 *)
      destruct k as [|b k].
      * simpl in Htail. rewrite app_nil_r in Hfirst. subst pre.
        assert (best ∈ second) as Hb by (rewrite <- Htail; left).
        specialize (Hnot_longer best Hb). specialize (Hpre c1 Hc1). lia.
      * injection Htail as -> Htail. rewrite Hfirst.
        apply elem_of_app. right. left.
    + (* the result stands in the part of strategy 2 *)
      assert (best ∈ second) as Hb
        by (rewrite Hsecond; apply elem_of_app; right; left).
      assert (c1 ∈ pre) as Hin by (rewrite Hpre_eq; apply elem_of_app; by left).
      specialize (Hnot_longer best Hb). specialize (Hpre c1 Hin). lia.
Qed.

Lemma C2_witness :
  ∃ best, extract_method_section two_header_finditer word_search two_header_text = Some best
          ∧ best ∈ qualifying (strategy2_matches two_header_finditer two_header_text).
Proof.
  destruct (proj1 (C2_longest_header_whatever_strategy
                     two_header_finditer word_search two_header_text))
    as (pre & best & post & _ & _ & _ & Hres & Hsecond & _).
  - by vm_compute.
  - exists best. split; [done|]. apply Hsecond.
    exists data_section. split.
    + apply (bool_decide_unpack _). by vm_compute.
    + intros c1 Hc1.
      assert (c1 = methods_section) as ->.
      { assert (Hq : qualifying (strategy1_matches two_header_finditer two_header_text)
                     = [methods_section]) by (by vm_compute).
        rewrite Hq in Hc1. by apply list_elem_of_singleton in Hc1. }
      by vm_compute.
Defined.

(** The claim as stated fails on both counts.  In [two_header_text]
    strategy 1 has a candidate of 321 characters, which qualifies, and
    strategy 2 one of 631 characters: the extractor returns the
    candidate of strategy 2, so the order of the strategies does not
    settle the conflict.  In [headed_text] the extractor returns the
    header candidate of 213 characters although the fallback would
    return 846 characters, so the result is not the longest candidate
    across all strategies. *)
Lemma C2_counterexample :
  (qualifying (strategy1_matches two_header_finditer two_header_text) = [methods_section] ∧
   qualifying (strategy2_matches two_header_finditer two_header_text) = [data_section] ∧
   len methods_section = 321 ∧ len data_section = 631 ∧
   extract_method_section two_header_finditer word_search two_header_text
     = Some data_section ∧
   extract_method_section two_header_finditer word_search two_header_text
     ≠ Some methods_section) ∧
  (extract_method_section headed_finditer word_search headed_text = Some headed_section ∧
   len headed_section = 213 ∧
   (len <$> density_fallback word_search headed_text) = Some 846).
Proof. split; split_and!; by vm_compute. Qed.








Lemma density_trailing_run re_search st run :
  Forall (λ p, 0 < method_count re_search p) run →
  method_rich_section (foldl (density_step re_search) st run) = method_rich_section st ∧
  considered (foldl (density_step re_search) st run) = considered st.
Proof.
  intros Hrun. revert st. induction Hrun as [|p run Hp _ IH]; intros st; [done|].
  simpl. destruct (IH (density_step re_search st p)) as [-> ->].
  unfold density_step. by destruct (Z.gtb_spec (method_count re_search p) 0); [|lia].
Qed.

(** C4 (fails on the code).  A run of blocks with keywords that reaches
    the end of the text is never evaluated: the loop evaluates a run
    only when it meets a block without keyword after it.  Appending
    such a run to a text changes neither the section selected nor the
    runs evaluated.  In the sample text the last block mentions one
    keyword and has 612 characters, more than the 500 required, and the
    fallback returns [None]. *)
Theorem C4_trailing_run_not_evaluated :
  (∀ (re_search : string → string → bool) (paragraphs run : list string),
     Forall (λ p, 0 < method_count re_search p) run →
     let init := DensityState EmptyString 0 [] [] in
     method_rich_section (foldl (density_step re_search) init (paragraphs ++ run))
       = method_rich_section (foldl (density_step re_search) init paragraphs) ∧
     considered (foldl (density_step re_search) init (paragraphs ++ run))
       = considered (foldl (density_step re_search) init paragraphs)) ∧
  (split_blank_lines trailing_text = ["Introduction"%string; trailing_block] ∧
   method_count word_search "Introduction" = 0 ∧
   method_count word_search trailing_block = 1 ∧
   len trailing_block = 612 ∧
   considered (density_scan word_search trailing_text) = [] ∧
   density_fallback word_search trailing_text = None ∧
   extract_method_section no_finditer word_search trailing_text = None).
Proof.
  split; [|by vm_compute].
  intros re_search paragraphs run Hrun init. rewrite foldl_app.
  by apply density_trailing_run.
Qed.

Lemma C4_witness :
  method_rich_section
    (foldl (density_step word_search) (DensityState EmptyString 0 [] [])
           (["Introduction"%string] ++ [trailing_block]))
  = EmptyString.
Proof.
  destruct (proj1 C4_trailing_run_not_evaluated word_search
              ["Introduction"%string] [trailing_block]) as [H _].
  - repeat constructor.
  - rewrite H. reflexivity.
Defined.

(** ** Papers of a year, checkpoint and batch driver *)

Lemma tfold_inv {A B} (body : B → A → traced B) (I : B → Prop) (E : event → Prop)
    (Q : A → Prop) xs acc :
  Forall Q xs → I acc →
  (∀ acc x, Q x → I acc → Forall E (body acc x).1 ∧ I (body acc x).2) →
  Forall E (tfold body xs acc).1 ∧ I (tfold body xs acc).2.
Proof.
  intros Hxs Hacc Hbody. revert acc Hacc.
  induction Hxs as [|x xs Hx _ IH]; intros acc Hacc; simpl.
  - split; [constructor|done].
  - destruct (Hbody acc x Hx Hacc) as [HE HI].
    unfold tbind. destruct (body acc x) as [e1 acc1]. simpl in HE, HI.
    destruct (IH acc1 HI) as [HE2 HI2].
    destruct (tfold body xs acc1) as [e2 b]. simpl in *.
    split; [by apply Forall_app|done].
Qed.

Lemma accept_item_spec yr item p :
  accept_item yr item = Some p →
  (∃ rest, item_title item = Some (TitleList (title p :: rest)) ∨
           (item_title item = Some (TitleStr (title p)) ∧ title p ≠ EmptyString)) ∧
  (∃ raw, item_abstract item = Some raw ∧ raw ≠ EmptyString ∧
          abstract p = strip (strip_tags raw)) ∧
  100 < len (abstract p) ∧
  doi p = default EmptyString (item_DOI item) ∧
  year p = yr ∧ method_text p = None.
Proof.
  unfold accept_item.
  destruct (item_title item) as [[[|t rest]|[|c t]]|]; try done.
  - destruct (item_abstract item) as [[|c raw]|]; simpl; try done.
    destruct (Z.gtb_spec (len (strip (strip_tags (String c raw)))) 100);
      rewrite ?andb_false_r; [|done].
    destruct (truthy _); [|done]. intros [= <-]. simpl.
    split; [exists rest; by left|]. split_and!; eauto.
  - destruct (item_abstract item) as [[|c' raw]|]; simpl; try done.
    destruct (Z.gtb_spec (len (strip (strip_tags (String c' raw)))) 100);
      rewrite ?andb_false_r; [|done].
    destruct (truthy _); [|done]. intros [= <-]. simpl.
    split; [exists []; by right|]. split_and!; eauto.
Qed.

Lemma accept_item_excluded year item :
  (item_title item = None ∨ item_title item = Some (TitleList []) ∨
   item_title item = Some (TitleStr EmptyString) ∨
   item_abstract item = None ∨
   (∃ raw, item_abstract item = Some raw ∧ len (strip (strip_tags raw)) ≤ 100)) →
  accept_item year item = None.
Proof.
  unfold accept_item.
  intros [->|[->|[->|H]]]; try done.
  destruct (item_title item) as [[[|t rest]|[|c t]]|]; try done.
  - destruct H as [->|(raw & -> & Hlen)]; [done|]. simpl.
    destruct raw; [done|]. simpl.
    destruct (Z.gtb_spec (len (strip (strip_tags (String a raw)))) 100); [lia|].
    by rewrite andb_false_r.
  - destruct H as [->|(raw & -> & Hlen)]; [done|]. simpl.
    destruct raw; [done|]. simpl.
    destruct (Z.gtb_spec (len (strip (strip_tags (String a raw)))) 100); [lia|].
    by rewrite andb_false_r.
Qed.

Lemma get_papers_spec response year p :
  p ∈ get_papers_for_year response year →
  ∃ r item, response = Some r ∧ status_code r = 200 ∧ item ∈ items r ∧
            accept_item year item = Some p.
Proof.
  unfold get_papers_for_year. destruct response as [r|]; [|intros H; inversion H].
  case_bool_decide as Hs; [intros H; inversion H|].
  intros (item & Hitem & Haccept)%list_elem_of_omap.
  exists r, item. split_and!; [done| |done|done].
  destruct (decide (status_code r = 200)); [done|]. by destruct Hs.
Qed.

Lemma get_papers_long response year :
  Forall long_abstract (get_papers_for_year response year).
Proof.
  apply Forall_forall. intros p (r & item & _ & _ & _ & H)%get_papers_spec.
  by apply accept_item_spec in H as (_ & _ & ? & _).
Qed.

Lemma disk_after_app es1 es2 d :
  disk_after (es1 ++ es2) d = disk_after es2 (disk_after es1 d).
Proof. unfold disk_after. apply foldl_app. Qed.

Lemma disk_after_quiet es d :
  Forall (λ e, ∀ d', disk_step d' e = d') es → disk_after es d = d.
Proof.
  intros H. revert d. induction H as [|e es He _ IH]; intros d; [done|].
  unfold disk_after in *. simpl. by rewrite He.
Qed.

Lemma disk_after_work es d :
  Forall (λ e, is_file_event e = false) es → disk_after es d = d.
Proof.
  intros H. apply disk_after_quiet. eapply Forall_impl; [exact H|].
  intros e He d'. by destruct e.
Qed.

(** What the file holds when only the first [j] events of the writing
    have happened. *)
Lemma disk_after_writes s j t :
  disk_after (take j ((WriteChar <$> list_ascii_of_string s) ++ [CloseFile])) (Some t)
    = Some (t +:+ String.substring 0 j s).
Proof.
  revert j t. induction s as [|c s IH]; intros j t.
  - replace (String.substring 0 j EmptyString) with EmptyString by (by destruct j).
    rewrite string_app_nil_r. destruct j as [|[|j]]; done.
  - destruct j as [|j].
    + change (Some t = Some (t +:+ EmptyString)). by rewrite string_app_nil_r.
    + change (disk_after (take j ((WriteChar <$> list_ascii_of_string s) ++ [CloseFile]))
                         (Some (t +:+ String c EmptyString))
              = Some (t +:+ String c (String.substring 0 j s))).
      rewrite IH, string_app_assoc. done.
Qed.

Section BatchDriverFacts.

Variable re_finditer : string → string → list string.
Variable re_search : string → string → bool.
Variable crossref : Z → option crossref_response.
Variable semantic_scholar : string → option (option string).
Variable fetch_pdf : string → option (list string).
Variable extract_keywords_from_text : string → string → string → list string.

Lemma search_step_inv acc p :
  long_abstract p → Forall long_abstract acc →
  Forall work_event
    (search_step re_finditer re_search semantic_scholar fetch_pdf acc p).1 ∧
  Forall long_abstract
    (search_step re_finditer re_search semantic_scholar fetch_pdf acc p).2.
Proof.
  intros Hp Hacc.
  assert (Hsnoc : ∀ q, abstract q = abstract p → Forall long_abstract (acc ++ [q])).
  { intros q Hq. apply Forall_app. split; [done|]. constructor; [|constructor].
    unfold long_abstract. by rewrite Hq. }
  assert (Hs2 : ∀ s, work_event (SemanticScholarQuery s)) by (by split).
  assert (Hpdf : ∀ s, work_event (PdfDownload s)) by (by split).
  unfold search_step, search_semantic_scholar_by_doi.
  destruct (truthy (doi p)); cbn.
  - destruct (semantic_scholar (doi p)) as [[url|]|]; cbn.
    + destruct (truthy url); cbn; [|by auto].
      destruct (download_pdf_and_extract_method _ _ _) as [text|]; cbn; [|by auto].
      destruct (truthy text); cbn; auto.
    + auto.
    + auto.
  - auto.
Qed.

Lemma keyword_step_inv acc p :
  long_abstract p →
  Forall work_event (keyword_step extract_keywords_from_text acc p).1.
Proof.
  intros Hp. unfold keyword_step.
  assert (Ha : work_event (KeywordRequest (title p) (abstract p) "abstract")).
  { split; [done|]. by intros t text [= _ <-]. }
  assert (Hm : ∀ text, work_event (KeywordRequest (title p) text "method")).
  { intros text. split; [done|]. by intros t text' [=]. }
  destruct (method_text p) as [text|]; cbn; [|by auto].
  destruct (truthy text); cbn; auto.
Qed.

Lemma process_papers_spec year papers p :
  Forall long_abstract papers →
  ∃ work year_keywords,
    process_papers re_finditer re_search semantic_scholar fetch_pdf
                   extract_keywords_from_text year papers p
      = (work, Progress (completed_years p ++ [year])
                        (all_keywords p ++ year_keywords)) ∧
    Forall work_event work.
Proof.
  intros Hpapers. unfold process_papers, tbind.
  destruct (tfold_inv (search_step re_finditer re_search semantic_scholar fetch_pdf)
              (Forall long_abstract) work_event long_abstract papers [] Hpapers)
    as [Hev1 Hpapers'].
  { constructor. }
  { intros acc x Hx Hacc. by apply search_step_inv. }
  destruct (tfold _ papers []) as [ev1 papers']. simpl in Hev1, Hpapers'.
  destruct (tfold_inv (keyword_step extract_keywords_from_text)
              (λ _, True) work_event long_abstract papers' [] Hpapers' I)
    as [Hev2 _].
  { intros acc x Hx _. split; [by apply keyword_step_inv|done]. }
  destruct (tfold _ papers' []) as [ev2 year_keywords]. simpl in Hev2.
  exists (ev1 ++ ev2 ++ []), year_keywords. split; [done|].
  rewrite app_nil_r. by apply Forall_app.
Qed.

Lemma process_year_spec year p :
  year ∉ completed_years p →
  get_papers_for_year (crossref year) year ≠ [] →
  ∃ work year_keywords,
    let p' := Progress (completed_years p ++ [year])
                       (all_keywords p ++ year_keywords) in
    process_year re_finditer re_search crossref semantic_scholar fetch_pdf
                 extract_keywords_from_text year p
      = (work ++ [Makedirs; OpenTruncate]
              ++ (WriteChar <$> list_ascii_of_string (json_dumps p'))
              ++ [CloseFile], p') ∧
    Forall work_event work.
Proof.
  intros Hyear Hpapers. unfold process_year.
  rewrite bool_decide_eq_false_2 by done.
  pose proof (get_papers_long (crossref year) year) as Hlong.
  destruct (get_papers_for_year (crossref year) year) as [|q qs] eqn:Hq; [done|].
  destruct (process_papers_spec year (q :: qs) p Hlong) as (work & kws & Hpp & Hwork).
  exists (CrossrefQuery year :: work), kws. cbn zeta.
  unfold tbind at 1. cbn [emit]. unfold tbind at 1. rewrite Hpp.
  unfold tbind, save_progress, tret. split.
  - by rewrite app_nil_r.
  - constructor; [by split|done].
Qed.

Lemma process_year_abstract_requests year p t text :
  KeywordRequest t text "abstract"
    ∈ (process_year re_finditer re_search crossref semantic_scholar fetch_pdf
                    extract_keywords_from_text year p).1 →
  100 < len text.
Proof.
  destruct (decide (year ∈ completed_years p)) as [Hin|Hnin].
  { unfold process_year. rewrite bool_decide_eq_true_2 by done.
    intros H. inversion H. }
  destruct (decide (get_papers_for_year (crossref year) year = [])) as [Hnil|Hne].
  { unfold process_year. rewrite bool_decide_eq_false_2 by done. rewrite Hnil. cbn.
    intros H. apply list_elem_of_singleton in H. discriminate. }
  destruct (process_year_spec year p Hnin Hne) as (work & kws & -> & Hwork).
  cbn [fst]. rewrite Forall_forall in Hwork.
  intros [H|H]%elem_of_app; [by eapply (Hwork _ H)|].
  apply elem_of_app in H as [H|H].
  { apply elem_of_cons in H as [H|H]; [discriminate|].
    apply list_elem_of_singleton in H. discriminate. }
  apply elem_of_app in H as [H|H].
  - apply list_elem_of_fmap in H as (c & Hc & _). discriminate.
  - apply list_elem_of_singleton in H. discriminate.
Qed.

End BatchDriverFacts.

(** C3 (amended).  For a year that is not yet completed and has papers:
    the run consists of the events of the two loops, none of which
    touches the checkpoint file, followed by the writing of the new
    progress, in which the year is appended to the completed years.  A
    run that stops during the loops, or before the file is opened,
    leaves the file as it was, so the year is not among the completed
    years read back from it.  Opening the file empties it: a run that
    stops, or a write that fails, after that leaves the first characters
    written so far of the new text, not the old content.  A run that
    goes through leaves the whole new text. *)
Theorem C3_checkpoint_after_loop_then_overwrite
    (re_finditer : string → string → list string)
    (re_search : string → string → bool)
    (crossref : Z → option crossref_response)
    (semantic_scholar : string → option (option string))
    (fetch_pdf : string → option (list string))
    (extract_keywords_from_text : string → string → string → list string)
    (year : Z) (p : progress) (d : disk) :
  year ∉ completed_years p →
  get_papers_for_year (crossref year) year ≠ [] →
  ∃ work year_keywords,
    let p' := Progress (completed_years p ++ [year])
                       (all_keywords p ++ year_keywords) in
    let events := work ++ [Makedirs; OpenTruncate]
                       ++ (WriteChar <$> list_ascii_of_string (json_dumps p'))
                       ++ [CloseFile] in
    process_year re_finditer re_search crossref semantic_scholar fetch_pdf
                 extract_keywords_from_text year p = (events, p') ∧
    Forall (λ e, is_file_event e = false) work ∧
    (∀ k, (k ≤ length work + 1)%nat → disk_after (take k events) d = d) ∧
    (∀ k json_load, (k ≤ length work + 1)%nat →
       year ∉ completed_years (load_progress json_load d) →
       year ∉ completed_years (load_progress json_load (disk_after (take k events) d))) ∧
    (∀ j, disk_after (take (length work + 2 + j) events) d
          = Some (String.substring 0 j (json_dumps p'))) ∧
    disk_after events d = Some (json_dumps p').
Proof.
  intros Hyear Hpapers.
  destruct (process_year_spec re_finditer re_search crossref semantic_scholar fetch_pdf
              extract_keywords_from_text year p Hyear Hpapers)
    as (work & kws & Hrun & Hwork).
  exists work, kws. cbn zeta in *.
  set (p' := Progress _ _) in *.
  set (writes := WriteChar <$> list_ascii_of_string (json_dumps p')).
  assert (Hquiet : Forall (λ e, is_file_event e = false) work).
  { eapply Forall_impl; [exact Hwork|]. by intros e [? _]. }
  assert (Hbefore : ∀ k, (k ≤ length work + 1)%nat →
            disk_after (take k (work ++ [Makedirs; OpenTruncate] ++ writes ++ [CloseFile])) d = d).
  { intros k Hk.
    replace (take k (work ++ [Makedirs; OpenTruncate] ++ writes ++ [CloseFile]))
      with (take k (work ++ [Makedirs])).
    - apply disk_after_quiet, Forall_take, Forall_app. split.
      + eapply Forall_impl; [exact Hquiet|]. intros e He d'. by destruct e.
      + by repeat constructor.
    - change ([Makedirs; OpenTruncate] ++ writes ++ [CloseFile])
        with ([Makedirs] ++ (OpenTruncate :: writes ++ [CloseFile])).
      rewrite (app_assoc work). rewrite (take_app_le (work ++ [Makedirs])); [done|].
      rewrite length_app. simpl. lia. }
  assert (Hduring : ∀ j,
            disk_after (take (length work + 2 + j)
                          (work ++ [Makedirs; OpenTruncate] ++ writes ++ [CloseFile])) d
            = Some (String.substring 0 j (json_dumps p'))).
  { intros j.
    change ([Makedirs; OpenTruncate] ++ writes ++ [CloseFile])
      with ([Makedirs; OpenTruncate] ++ (writes ++ [CloseFile])).
    rewrite (app_assoc work).
    replace (length work + 2 + j)%nat with (length (work ++ [Makedirs; OpenTruncate]) + j)%nat
      by (rewrite length_app; simpl; lia).
    rewrite take_app_add, !disk_after_app.
    rewrite (disk_after_work work) by done.
    change (disk_after [Makedirs; OpenTruncate] d) with (Some EmptyString).
    unfold writes. by rewrite disk_after_writes. }
  split_and!; [done|done|done| | |].
  - intros k json_load Hk. by rewrite Hbefore.
  - done.
  - specialize (Hduring (S (String.length (json_dumps p')))).
    rewrite take_ge in Hduring.
    + rewrite Hduring. f_equal.
      generalize (json_dumps p'). intros s. clear.
      assert (H : ∀ n, (String.length s ≤ n)%nat → String.substring 0 n s = s); [|apply H; lia].
      induction s as [|c s IH]; intros [|n] Hn; simpl in *; try done; try lia.
      rewrite IH; [done|lia].
    + rewrite !length_app. unfold writes. rewrite length_fmap.
      assert (length (list_ascii_of_string (json_dumps p')) = String.length (json_dumps p')) as ->.
      { generalize (json_dumps p'). intros s. induction s; simpl; congruence. }
      simpl. lia.
Qed.

Lemma C3_witness :
  ∃ events p',
    sample_process_year 2015 earlier_progress = (events, p') ∧
    disk_after events (Some (json_dumps earlier_progress)) = Some (json_dumps p').
Proof.
  destruct (C3_checkpoint_after_loop_then_overwrite
              no_finditer word_search sample_crossref sample_semantic_scholar
              sample_fetch_pdf sample_keywords_oracle 2015 earlier_progress
              (Some (json_dumps earlier_progress)))
    as (work & kws & Hrun & _ & _ & _ & _ & Hfull).
  - apply (bool_decide_unpack _). by vm_compute.
  - by vm_compute.
  - eexists _, _. split; [exact Hrun | exact Hfull].
Defined.

(** The claim as stated fails: after the first five events of the sample
    run (three requests, the directory, the opening of the file) the
    checkpoint of the earlier run is gone and the new one is not there. *)
Lemma C3_counterexample :
  let d := Some (json_dumps earlier_progress) in
  let events := (sample_process_year 2015 earlier_progress).1 in
  let p' := (sample_process_year 2015 earlier_progress).2 in
  take 5 events
    = [CrossrefQuery 2015; SemanticScholarQuery "10.1162/edfp.1";
       KeywordRequest "School funding" (filler 120 "a") "abstract";
       Makedirs; OpenTruncate] ∧
  disk_after (take 5 events) d = Some EmptyString ∧
  disk_after (take 5 events) d ≠ d ∧
  disk_after (take 5 events) d ≠ Some (json_dumps p').
Proof. by vm_compute. Qed.

(** C10 (amended).  A paper returned by [get_papers_for_year] comes from
    an item of an answer with status 200; its title is the first entry
    of the item's non-empty list of titles (an entry that may itself be
    empty), or the item's non-empty title string; its abstract is the
    item's abstract with tags removed and white space trimmed, and has
    more than 100 characters.  An item without title, with an empty list
    of titles, without abstract, or with an abstract of at most 100
    characters after cleaning, gives no paper.  Every keyword request
    that [process_year] makes on an abstract carries more than 100
    characters. *)
Theorem C10_accepted_papers :
  (∀ response year p,
     p ∈ get_papers_for_year response year →
     ∃ r item,
       response = Some r ∧ status_code r = 200 ∧ item ∈ items r ∧
       (∃ rest, item_title item = Some (TitleList (title p :: rest)) ∨
                (item_title item = Some (TitleStr (title p)) ∧ title p ≠ EmptyString)) ∧
       (∃ raw, item_abstract item = Some raw ∧ raw ≠ EmptyString ∧
               abstract p = strip (strip_tags raw)) ∧
       100 < len (abstract p)) ∧
  (∀ year item,
     (item_title item = None ∨ item_title item = Some (TitleList []) ∨
      item_title item = Some (TitleStr EmptyString) ∨
      item_abstract item = None ∨
      (∃ raw, item_abstract item = Some raw ∧ len (strip (strip_tags raw)) ≤ 100)) →
     accept_item year item = None) ∧
  (∀ r year, status_code r = 200 →
     get_papers_for_year (Some r) year = omap (accept_item year) (items r)) ∧
  (∀ re_finditer re_search crossref semantic_scholar fetch_pdf
     extract_keywords_from_text year p t text,
     KeywordRequest t text "abstract"
       ∈ (process_year re_finditer re_search crossref semantic_scholar fetch_pdf
                       extract_keywords_from_text year p).1 →
     100 < len text).
Proof.
  split_and!.
  - intros response year p (r & item & -> & Hs & Hitem & Haccept)%get_papers_spec.
    apply accept_item_spec in Haccept as (Ht & Ha & Hlen & _).
    exists r, item. split_and!; done.
  - apply accept_item_excluded.
  - intros r year Hs. unfold get_papers_for_year.
    by rewrite bool_decide_eq_false_2 by (by intros ?).
  - apply process_year_abstract_requests.
Qed.

Lemma C10_witness :
  ∃ p, p ∈ get_papers_for_year (sample_crossref 2015) 2015 ∧ 100 < len (abstract p).
Proof.
  exists (Paper "School funding" (filler 120 "a") "10.1162/edfp.1" 2015 None).
  assert (H : Paper "School funding" (filler 120 "a") "10.1162/edfp.1" 2015 None
              ∈ get_papers_for_year (sample_crossref 2015) 2015) by (vm_compute; left).
  split; [exact H|].
  destruct (proj1 C10_accepted_papers _ _ _ H) as (r & item & _ & _ & _ & _ & _ & Hlen).
  exact Hlen.
Defined.

(** The claim as stated fails: an item whose list of titles holds one
    empty title is accepted, with an empty title. *)
Lemma C10_counterexample :
  get_papers_for_year (Some (CrossrefResponse 200 [untitled_item])) 2015
    = [Paper EmptyString (filler 120 "a") "10.1162/edfp.2" 2015 None].
Proof. by vm_compute. Qed.

(** ** Counting and consolidation, continued *)

Lemma dict_get_set d k v k' :
  dict_get (dict_set d k v) k' = if decide (k = k') then Some v else dict_get d k'.
Proof.
  induction d as [|[k0 v0] d IH]; simpl.
  - by destruct (decide (k = k')).
  - destruct (decide (k0 = k)) as [->|Hne]; simpl.
    + by destruct (decide (k = k')).
    + rewrite IH. destruct (decide (k0 = k')) as [->|?]; [|done].
      by rewrite decide_False by done.
Qed.

Lemma dict_set_sum d k v :
  sumZ (dict_set d k v).*2 = sumZ d.*2 - default 0 (dict_get d k) + v.
Proof.
  induction d as [|[k0 v0] d IH]; [simpl; lia|].
  simpl dict_set. simpl dict_get.
  destruct (decide (k0 = k)) as [->|Hne]; rewrite !fmap_cons.
  - simpl. lia.
  - change (sumZ ((k0, v0).2 :: (dict_set d k v).*2))
      with (v0 + sumZ (dict_set d k v).*2).
    rewrite IH. simpl. lia.
Qed.

Lemma Counter_snoc l x :
  Counter (l ++ [x])
    = dict_set (Counter l) x (default 0 (dict_get (Counter l) x) + 1).
Proof. unfold Counter. by rewrite foldl_app. Qed.

Lemma occurrences_snoc kw l x :
  occurrences kw (l ++ [x]) = occurrences kw l + (if decide (x = kw) then 1 else 0).
Proof.
  unfold occurrences. rewrite filter_app, length_app, filter_cons, filter_nil.
  destruct (decide (x = kw)); simpl; lia.
Qed.

Lemma occurrences_pos kw l : kw ∈ l → 0 < occurrences kw l.
Proof.
  intros Hin. unfold occurrences.
  assert (Hf : kw ∈ filter (λ x, x = kw) l) by (by apply list_elem_of_filter).
  destruct (filter _ l); [inversion Hf|simpl; lia].
Qed.

Lemma occurrences_absent kw l : kw ∉ l → occurrences kw l = 0.
Proof.
  unfold occurrences. induction l as [|y l IH]; [done|].
  rewrite not_elem_of_cons. intros [Hne Hl].
  rewrite filter_cons, decide_False by done. by apply IH.
Qed.

Lemma first_seen_snoc l x :
  first_seen (l ++ [x]) = if decide (x ∈ l) then first_seen l else first_seen l ++ [x].
Proof.
  unfold first_seen. rewrite reverse_app, reverse_singleton.
  change ([x] ++ reverse l) with (x :: reverse l).
  change (remove_dups (x :: reverse l))
    with (if decide (x ∈ reverse l) then remove_dups (reverse l)
          else x :: remove_dups (reverse l)).
  destruct (decide (x ∈ l)) as [Hin|Hnin];
    destruct (decide (x ∈ reverse l)) as [Hr|Hr]; try done.
  - destruct Hr. by apply elem_of_reverse.
  - destruct Hnin. by apply elem_of_reverse.
  - by rewrite reverse_cons.
Qed.

Lemma elem_of_first_seen l x : x ∈ first_seen l ↔ x ∈ l.
Proof.
  unfold first_seen. by rewrite elem_of_reverse, elem_of_remove_dups, elem_of_reverse.
Qed.

Lemma Counter_keys l : (Counter l).*1 = first_seen l.
Proof.
  induction l as [|x l IH] using rev_ind; [done|].
  rewrite Counter_snoc, dict_set_keys, first_seen_snoc, IH.
  destruct (decide (x ∈ l)) as [Hin|Hnin].
  - rewrite decide_True; [done|]. by apply elem_of_first_seen.
  - rewrite decide_False; [done|]. by rewrite elem_of_first_seen.
Qed.

Lemma Counter_lookup l kw :
  dict_get (Counter l) kw
    = if decide (kw ∈ l) then Some (occurrences kw l) else None.
Proof.
  induction l as [|x l IH] using rev_ind.
  - rewrite decide_False; [done|]. intros H. inversion H.
  - rewrite Counter_snoc, dict_get_set, occurrences_snoc.
    destruct (decide (x = kw)) as [->|Hne]; rewrite IH.
    + destruct (decide (kw ∈ l ++ [kw])) as [_|Hn];
        [|destruct Hn; apply elem_of_app; right; left].
      destruct (decide (kw ∈ l)); simpl; [done|].
      by rewrite occurrences_absent.
    + destruct (decide (kw ∈ l)) as [Hin|Hnin];
        destruct (decide (kw ∈ l ++ [x])) as [Hin'|Hnin']; try done.
      * f_equal. lia.
      * destruct Hnin'. apply elem_of_app. by left.
      * apply elem_of_app in Hin' as [?|?%list_elem_of_singleton]; congruence.
Qed.

Lemma Counter_sum l : sumZ (Counter l).*2 = Z.of_nat (length l).
Proof.
  induction l as [|x l IH] using rev_ind; [done|].
  rewrite Counter_snoc, dict_set_sum, IH, length_app. simpl. lia.
Qed.

Lemma Counter_count_of l kw : count_of (Counter l) kw = occurrences kw l.
Proof.
  unfold count_of. rewrite Counter_lookup. case_decide; [done|].
  simpl. by rewrite occurrences_absent.
Qed.

(** X1.  The counts that [main] hands to the consolidation count
    occurrences: the keys of [Counter(all_keywords)] are the distinct
    keywords in the order they are first seen, the count of a keyword is
    the number of its occurrences in the list, which is positive for a
    keyword of the list and 0 for any other, and the counts add up to
    the length of the list. *)
Theorem X1_Counter_counts_occurrences (all_keywords : list string) :
  (Counter all_keywords).*1 = first_seen all_keywords ∧
  NoDup (Counter all_keywords).*1 ∧
  (∀ kw, kw ∈ (Counter all_keywords).*1 ↔ kw ∈ all_keywords) ∧
  (∀ kw, count_of (Counter all_keywords) kw = occurrences kw all_keywords) ∧
  (∀ kw, kw ∈ all_keywords → 0 < occurrences kw all_keywords) ∧
  (∀ kw, kw ∉ all_keywords → occurrences kw all_keywords = 0) ∧
  sumZ (Counter all_keywords).*2 = Z.of_nat (length all_keywords).
Proof.
  split_and!.
  - apply Counter_keys.
  - apply Counter_NoDup.
  - intros kw. rewrite Counter_keys. apply elem_of_first_seen.
  - apply Counter_count_of.
  - intros kw. apply occurrences_pos.
  - intros kw. apply occurrences_absent.
  - apply Counter_sum.
Qed.

Lemma representatives_NoDup kc cs :
  NoDup (all_members cs) → Forall (cluster_ok kc) cs → NoDup (representative <$> cs).
Proof.
  induction cs as [|c cs IH]; [constructor|].
  change (all_members (c :: cs)) with (members c ++ all_members cs).
  rewrite NoDup_app, Forall_cons. intros (_ & Hdisj & Hcs) [(Hr & _) Hok].
  rewrite fmap_cons. constructor; [|by apply IH].
  intros (c' & Heq & Hc')%list_elem_of_fmap.
  apply (Hdisj _ Hr). rewrite Heq. by eapply representative_in_members.
Qed.

Lemma consolidate_sum kc st :
  NoDup kc.*1 → run_inv kc st → all_members (clusters st) ≡ₚ kc.*1 →
  sumZ (consolidated st).*2 = sumZ kc.*2.
Proof.
  intros Hnd [_ _ _ Hdict Hcl] Hperm.
  rewrite Hdict, <- list_fmap_compose.
  change (snd ∘ entry) with total_count.
  rewrite (sum_totals kc) by done.
  rewrite <- (counts_of_keys kc) by done.
  apply sumZ_perm. by rewrite Hperm.
Qed.

(** X2.  The mapping returned by the consolidation has distinct keys,
    each of them a keyword of the input, and no more entries than the
    input. *)
Theorem X2_consolidated_keys (keyword_counts out : dict) :
  NoDup keyword_counts.*1 →
  consolidate_similar_keywords keyword_counts = Some out →
  NoDup out.*1 ∧
  (∀ kw, kw ∈ out.*1 → kw ∈ keyword_counts.*1) ∧
  (length out ≤ length keyword_counts)%nat.
Proof.
  intros Hnd Hout.
  destruct (consolidate_run_inv keyword_counts Hnd) as (st & Hrun & Hinv & Hperm).
  unfold consolidate_similar_keywords in Hout. rewrite Hrun in Hout.
  injection Hout as <-.
  destruct Hinv as [Hnd' _ Hkeys Hdict Hcl].
  assert (Hreps : (consolidated st).*1 = representative <$> clusters st).
  { rewrite Hdict, <- list_fmap_compose. done. }
  assert (Hsub : ∀ kw, kw ∈ (consolidated st).*1 → kw ∈ keyword_counts.*1).
  { intros kw. rewrite Hreps. intros (c & -> & Hc)%list_elem_of_fmap.
    apply Hkeys. by eapply representative_in_members. }
  assert (Hnd'' : NoDup (consolidated st).*1).
  { rewrite Hreps. by eapply representatives_NoDup. }
  split_and!; [done|done|].
  rewrite <- (length_fmap fst (consolidated st)), <- (length_fmap fst keyword_counts).
  apply submseteq_length, NoDup_submseteq; done.
Qed.

Lemma X2_witness :
  ∃ out, consolidate_similar_keywords regression_counts = Some out ∧ NoDup out.*1.
Proof.
  exists [("regression discontinuity", 8); ("rdd", 1)]%string.
  assert (H : consolidate_similar_keywords regression_counts
              = Some [("regression discontinuity", 8); ("rdd", 1)]%string)
    by (by vm_compute).
  split; [exact H|].
  refine (proj1 (X2_consolidated_keys regression_counts _ _ H)).
  apply (bool_decide_unpack _). by vm_compute.
Defined.

(** X3.  Counting and consolidating compose: for every list of keyword
    occurrences the consolidation of its [Counter] returns a mapping,
    and the counts of that mapping add up to the number of
    occurrences. *)
Theorem X3_pipeline_preserves_occurrences (all_keywords : list string) :
  ∃ out, consolidate_similar_keywords (Counter all_keywords) = Some out ∧
         sumZ out.*2 = Z.of_nat (length all_keywords).
Proof.
  destruct (consolidate_run_inv (Counter all_keywords) (Counter_NoDup all_keywords))
    as (st & Hrun & Hinv & Hperm).
  exists (consolidated st). split.
  - unfold consolidate_similar_keywords. by rewrite Hrun.
  - rewrite (consolidate_sum (Counter all_keywords)) by (done || apply Counter_NoDup).
    apply Counter_sum.
Qed.

Lemma inner_loop_related keyword l g P g' P' :
  foldl (inner_step keyword) (g, P) l = (g', P') →
  ∃ added, g' = g ++ added ∧ Forall (related keyword) added.
Proof.
  revert g P. induction l as [|[k c] l IH]; intros g P; simpl.
  - intros [= <- <-]. exists []. by rewrite app_nil_r.
  - destruct (bool_decide (k ∈ P) || bool_decide (k = keyword))%bool; [apply IH|].
    destruct (contains keyword k || contains k keyword)%bool eqn:Hrel; [|apply IH].
    intros (added & -> & Hadded)%IH. exists (k :: added).
    rewrite <- app_assoc. split; [done|]. constructor; [|done].
    apply orb_true_iff in Hrel. exact Hrel.
Qed.

Lemma outer_step_lexical kc L st item st' :
  outer_step kc L st item = Some st' →
  Forall lexical_cluster (clusters st) → Forall lexical_cluster (clusters st').
Proof.
  unfold outer_step. destruct (bool_decide (item.1 ∈ processed st)).
  { by intros [= <-]. }
  destruct (foldl (inner_step item.1) ([item.1], processed st) L) as [g P'] eqn:Hinner.
  apply inner_loop_related in Hinner as (added & -> & Hadded).
  simpl app.
  destruct (max_by_len (item.1 :: added)) as [rep|]; [|done].
  destruct (mapM (dict_get kc) (item.1 :: added)) as [counts|]; [|done]. simpl.
  intros [= <-] Hcs. simpl. apply Forall_app. split; [done|].
  constructor; [|constructor]. by exists item.1, added.
Qed.

Lemma outer_loop_lexical kc L items st st' :
  outer_loop kc L items st = Some st' →
  Forall lexical_cluster (clusters st) → Forall lexical_cluster (clusters st').
Proof.
  revert st. induction items as [|item items IH]; intros st; simpl.
  - by intros [= <-].
  - destruct (outer_step kc L st item) as [st1|] eqn:Hstep; [|done]. simpl.
    intros Hloop Hcs. apply (IH st1 Hloop). by eapply outer_step_lexical.
Qed.

Lemma consolidate_run_lexical kc st :
  consolidate_run kc = Some st → Forall lexical_cluster (clusters st).
Proof.
  intros Hrun. eapply outer_loop_lexical; [exact Hrun|]. constructor.
Qed.

(** X4.  Clustering is lexical: in every cluster the consolidation
    builds, each member after the first contains the first member or
    occurs in it. *)
Theorem X4_clusters_are_lexical (keyword_counts : dict) (st : loop_state) (c : cluster) :
  consolidate_run keyword_counts = Some st →
  c ∈ clusters st →
  ∃ head rest,
    members c = head :: rest ∧
    ∀ m, m ∈ rest → contains head m = true ∨ contains m head = true.
Proof.
  intros Hrun Hc.
  pose proof (consolidate_run_lexical _ _ Hrun) as Hall.
  rewrite Forall_forall in Hall. destruct (Hall c Hc) as (head & rest & Hm & Hrest).
  exists head, rest. split; [done|]. by apply Forall_forall.
Qed.

Lemma X4_witness :
  ∃ head rest,
    ["regression"; "regression discontinuity"]%string = head :: rest ∧
    ∀ m, m ∈ rest → contains head m = true ∨ contains m head = true.
Proof.
  refine (X4_clusters_are_lexical regression_counts
            (default (LoopState [] ∅ []) (consolidate_run regression_counts))
            (Cluster ["regression"; "regression discontinuity"]
                     "regression discontinuity" 8) _ _).
  - by vm_compute.
  - vm_compute. left.
Defined.

Lemma singleton_entries kc cs :
  Forall (λ c, ∃ h, members c = [h]) cs → Forall (cluster_ok kc) cs →
  entry <$> cs = (λ k, (k, count_of kc k)) <$> all_members cs.
Proof.
  induction cs as [|c cs IH]; [done|].
  rewrite !Forall_cons. intros [[h Hh] Hcs] [(Hrep & _ & Htot) Hok].
  change (all_members (c :: cs)) with (members c ++ all_members cs).
  rewrite Hh in *. rewrite fmap_cons, IH by done. simpl.
  apply list_elem_of_singleton in Hrep. unfold entry. rewrite Hrep, Htot. simpl.
  f_equal. f_equal. lia.
Qed.

Lemma keys_with_counts d :
  NoDup d.*1 → (λ k, (k, count_of d k)) <$> d.*1 = d.
Proof.
  intros Hnd. pose proof (counts_of_keys d Hnd) as Hc.
  revert Hc. generalize (count_of d). clear Hnd.
  induction d as [|[k v] d IH]; intros f; [done|].
  rewrite !fmap_cons. simpl. intros [= Hv Hrest]. rewrite Hv. f_equal. by apply IH.
Qed.

(** X5.  Keywords none of which occurs in another are never merged: the
    consolidation returns the entries of the input, each with its own
    count, in some order. *)
Theorem X5_unrelated_keywords_are_kept (keyword_counts : dict) :
  NoDup keyword_counts.*1 →
  (∀ k1 k2, k1 ∈ keyword_counts.*1 → k2 ∈ keyword_counts.*1 → k1 ≠ k2 →
            contains k1 k2 = false) →
  ∃ out, consolidate_similar_keywords keyword_counts = Some out ∧
         out ≡ₚ keyword_counts.
Proof.
  intros Hnd Hun.
  destruct (consolidate_run_inv keyword_counts Hnd) as (st & Hrun & Hinv & Hperm).
  pose proof (consolidate_run_lexical _ _ Hrun) as Hlex.
  destruct Hinv as [Hnd' _ Hkeys Hdict Hcl].
  exists (consolidated st). split.
  { unfold consolidate_similar_keywords. by rewrite Hrun. }
  assert (Hsingle : Forall (λ c, ∃ h, members c = [h]) (clusters st)).
  { apply Forall_forall. intros c Hc. rewrite Forall_forall in Hlex.
    destruct (Hlex c Hc) as (head & rest & Hm & Hrest).
    exists head. rewrite Hm. f_equal.
    destruct rest as [|m rest]; [done|]. exfalso.
    apply Forall_cons in Hrest as [Hrel _].
    assert (Hin : ∀ x, x ∈ members c → x ∈ keyword_counts.*1).
    { intros x Hx. apply Hkeys, elem_of_all_members. eauto. }
    assert (Hne : head ≠ m).
    { assert (Hndc : NoDup (members c)).
      { clear -Hnd' Hc. induction (clusters st) as [|c' cs IH]; [inversion Hc|].
        change (all_members (c' :: cs)) with (members c' ++ all_members cs) in Hnd'.
        apply NoDup_app in Hnd' as (? & _ & ?).
        apply elem_of_cons in Hc as [->|Hc]; auto. }
      rewrite Hm in Hndc. apply NoDup_cons in Hndc as [Hnot _].
      intros ->. apply Hnot. left. }
    rewrite Hm in Hin.
    assert (Hh : head ∈ keyword_counts.*1) by (apply Hin; left).
    assert (Hmk : m ∈ keyword_counts.*1) by (apply Hin; right; left).
    destruct Hrel as [Hrel|Hrel].
    - rewrite (Hun head m) in Hrel by done. discriminate.
    - rewrite (Hun m head) in Hrel by (done || congruence). discriminate. }
  rewrite Hdict, (singleton_entries keyword_counts) by done.
  rewrite Hperm. by rewrite keys_with_counts.
Qed.

Lemma X5_witness :
  ∃ out, consolidate_similar_keywords unrelated_counts = Some out ∧
         out ≡ₚ unrelated_counts.
Proof.
  apply X5_unrelated_keywords_are_kept.
  - apply (bool_decide_unpack _). by vm_compute.
  - intros k1 k2 H1 H2 Hne.
    change (k1 ∈ ["tax"; "lunch"]%string) in H1.
    change (k2 ∈ ["tax"; "lunch"]%string) in H2.
    apply elem_of_cons in H1 as [->|H1%list_elem_of_singleton];
    apply elem_of_cons in H2 as [->|H2%list_elem_of_singleton];
      subst; try done.
Defined.

(** ** Characters of strings *)

Lemma chars_app s t : chars (s +:+ t) = chars s ++ chars t.
Proof.
  unfold chars. induction s as [|c s IH]; [done|].
  change (String c s +:+ t) with (String c (s +:+ t)). simpl. by rewrite IH.
Qed.

Lemma lstrip_chars (P : ascii → Prop) s :
  Forall P (chars s) → Forall P (chars (lstrip s)).
Proof.
  induction s as [|c s IH]; [done|]. simpl. intros H.
  destruct (is_space c); [|done]. apply IH. by apply Forall_cons in H as [_ ?].
Qed.

Lemma rstrip_chars (P : ascii → Prop) s :
  Forall P (chars s) → Forall P (chars (rstrip s)).
Proof.
  induction s as [|c s IH]; [done|]. simpl. intros [Hc Hs]%Forall_cons.
  specialize (IH Hs). destruct (rstrip s) as [|d r].
  - destruct (is_space c); [constructor|]. by constructor.
  - by constructor.
Qed.

Lemma strip_chars (P : ascii → Prop) s :
  Forall P (chars s) → Forall P (chars (strip s)).
Proof. intros H. by apply rstrip_chars, lstrip_chars. Qed.

(** ** Trimming *)

Lemma lstrip_no_lead s : no_lead (lstrip s).
Proof. induction s as [|c s IH]; [done|]. simpl. by destruct (is_space c) eqn:Hc. Qed.

Lemma no_lead_lstrip s : no_lead s → lstrip s = s.
Proof. destruct s as [|c s]; [done|]. simpl. by intros ->. Qed.

Lemma rstrip_no_lead s : no_lead s → no_lead (rstrip s).
Proof.
  destruct s as [|c s]; [done|]. simpl. intros Hc.
  destruct (rstrip s); [by rewrite Hc|done].
Qed.

Lemma rstrip_idemp s : rstrip (rstrip s) = rstrip s.
Proof.
  induction s as [|c s IH]; [done|]. simpl.
  destruct (rstrip s) as [|d r] eqn:Hr.
  - destruct (is_space c) eqn:Hc; [done|]. simpl. by rewrite Hc.
  - change (rstrip (String c (String d r))) with
      (match rstrip (String d r) with
       | EmptyString => if is_space c then EmptyString else String c EmptyString
       | r' => String c r'
       end).
    rewrite IH. done.
Qed.

Lemma strip_idemp s : strip (strip s) = strip s.
Proof.
  unfold strip.
  rewrite (no_lead_lstrip (rstrip (lstrip s))) by apply rstrip_no_lead, lstrip_no_lead.
  apply rstrip_idemp.
Qed.

(** ** Lower case *)

Lemma lower_char_idemp c : lower_char (lower_char c) = lower_char c.
Proof. by destruct c as [[] [] [] [] [] [] [] []]. Qed.

Lemma lower_char_space c : is_space (lower_char c) = is_space c.
Proof. by destruct c as [[] [] [] [] [] [] [] []]. Qed.

Lemma lower_char_semicolon c : c ≠ ";"%char → lower_char c ≠ ";"%char.
Proof. by destruct c as [[] [] [] [] [] [] [] []]. Qed.

Lemma lower_idemp s : lower (lower s) = lower s.
Proof. induction s as [|c s IH]; [done|]. simpl. by rewrite lower_char_idemp, IH. Qed.

Lemma lower_lstrip s : lstrip (lower s) = lower (lstrip s).
Proof.
  induction s as [|c s IH]; [done|]. simpl. rewrite lower_char_space.
  by destruct (is_space c).
Qed.

Lemma lower_rstrip s : rstrip (lower s) = lower (rstrip s).
Proof.
  induction s as [|c s IH]; [done|]. simpl. rewrite IH, lower_char_space.
  destruct (rstrip s); simpl; [by destruct (is_space c)|done].
Qed.

Lemma lower_strip s : strip (lower s) = lower (strip s).
Proof. unfold strip. by rewrite lower_lstrip, lower_rstrip. Qed.

Lemma lower_chars (P : ascii → Prop) s :
  (∀ c, P c → P (lower_char c)) → Forall P (chars s) → Forall P (chars (lower s)).
Proof.
  intros HP. induction s as [|c s IH]; [done|]. simpl.
  intros [Hc Hs]%Forall_cons. constructor; auto.
Qed.

(** ** Splitting *)

Lemma push_head_Forall (P : string → Prop) c parts :
  P (String c EmptyString) → (∀ p, P p → P (String c p)) →
  Forall P parts → Forall P (push_head c parts).
Proof.
  intros H1 H2 Hparts. destruct Hparts as [|p parts Hp Hrest]; simpl.
  - by constructor.
  - constructor; auto.
Qed.

Lemma split_char_parts sep s :
  Forall (λ p, Forall (λ c, c ≠ sep) (chars p)) (split_char sep s).
Proof.
  induction s as [|c s IH]; simpl.
  - by repeat constructor.
  - destruct (Ascii.eqb_spec c sep) as [->|Hne].
    + constructor; [constructor|done].
    + apply push_head_Forall; [by repeat constructor| |done].
      intros p Hp. by constructor.
Qed.

(** X6.  Every keyword that [extract_keywords_from_text] makes of the
    model's answer is non-empty, has no white space at either end, holds
    no semicolon and is in lower case; a request that raises gives no
    keyword. *)
Theorem X6_clean_keywords_are_normalised (completion : option string) (kw : string) :
  kw ∈ keywords_of_completion completion →
  kw ≠ EmptyString ∧ strip kw = kw ∧ lower kw = kw ∧
  Forall (λ c, c ≠ ";"%char) (chars kw).
Proof.
  destruct completion as [content|]; simpl; [|by intros ?%elem_of_nil].
  unfold clean_keywords. intros (part & -> & Hpart)%list_elem_of_fmap.
  apply list_elem_of_filter in Hpart as [Hne Hin].
  split_and!.
  - by destruct (strip part).
  - by rewrite lower_strip, strip_idemp.
  - apply lower_idemp.
  - apply lower_chars; [apply lower_char_semicolon|]. apply strip_chars.
    pose proof (split_char_parts ";" (strip content)) as Hall.
    rewrite Forall_forall in Hall. by apply Hall.
Qed.

Lemma X6_witness :
  keywords_of_completion (Some " Fixed Effects ; ;RDD "%string)
    = ["fixed effects"; "rdd"]%string ∧
  strip "fixed effects" = "fixed effects"%string.
Proof.
  split; [done|].
  refine (proj1 (proj2 (X6_clean_keywords_are_normalised
                          (Some " Fixed Effects ; ;RDD "%string) "fixed effects" _))).
  vm_compute. left.
Defined.

(** ** Sanitisation *)

Lemma sanitize_length s : String.length (sanitize s) = String.length s.
Proof. induction s as [|c s IH]; simpl; congruence. Qed.

Lemma sanitize_clean s : clean (sanitize s).
Proof.
  unfold clean. induction s as [|c s IH]; [constructor|]. simpl.
  constructor; [|done]. by destruct (forbidden c) eqn:Hc.
Qed.

Lemma sanitize_fixed s : clean s → sanitize s = s.
Proof.
  unfold clean. induction s as [|c s IH]; [done|]. simpl.
  intros [Hc Hs]%Forall_cons. by rewrite Hc, IH.
Qed.

(** X7.  Sanitising a name keeps its length, leaves none of the
    characters of the substituted class (slash, backslash, colon, star,
    question mark, double quote, angle brackets, bar) in it, changes nothing in a name that
    has none of them, and so does nothing when applied twice. *)
Theorem X7_sanitize_removes_forbidden (s : string) :
  String.length (sanitize s) = String.length s ∧
  clean (sanitize s) ∧
  (clean s → sanitize s = s) ∧
  sanitize (sanitize s) = sanitize s.
Proof.
  split_and!.
  - apply sanitize_length.
  - apply sanitize_clean.
  - apply sanitize_fixed.
  - apply sanitize_fixed, sanitize_clean.
Qed.

(** ** Year of a date *)

Lemma is_decimal_cases c :
  is_decimal c = true →
  c ∈ ["0"; "1"; "2"; "3"; "4"; "5"; "6"; "7"; "8"; "9"]%char.
Proof.
  destruct c as [[] [] [] [] [] [] [] []]; intros H; try discriminate H;
    apply (bool_decide_unpack _); by vm_compute.
Qed.

Lemma is_digit_not_forbidden c : is_digit c = true → forbidden c = false.
Proof. by destruct c as [[] [] [] [] [] [] [] []]. Qed.

Lemma is_decimal_is_digit c : is_decimal c = true → is_digit c = true.
Proof. by destruct c as [[] [] [] [] [] [] [] []]. Qed.

Lemma is_digit_not_space c : is_digit c = true → is_space c = false.
Proof. by destruct c as [[] [] [] [] [] [] [] []]. Qed.

Lemma isdigit_clean s : isdigit s = true → clean s.
Proof.
  unfold isdigit, clean. intros [_ H]%andb_true_iff.
  rewrite forallb_forall in H. apply Forall_forall. intros c Hc.
  apply is_digit_not_forbidden, H. by apply list_elem_of_In.
Qed.

Lemma year_like_clean y : year_like y → clean y.
Proof.
  intros [_ [->|H]]; [|by apply isdigit_clean].
  unfold clean. by repeat constructor.
Qed.

Lemma year_like_pivot a b :
  is_decimal a = true → is_decimal b = true →
  year_like (pretty (pivot (two_digits a b))).
Proof.
  intros Ha%is_decimal_cases Hb%is_decimal_cases.
  set (digits := ["0"; "1"; "2"; "3"; "4"; "5"; "6"; "7"; "8"; "9"]%char) in *.
  set (check := λ a b, let y := pretty (pivot (two_digits a b)) in
                       Nat.eqb (String.length y) 4 && isdigit y).
  assert (Hall : forallb (λ a, forallb (check a) digits) digits = true)
    by (by vm_compute).
  rewrite forallb_forall in Hall.
  specialize (Hall a (proj1 (list_elem_of_In _ _) Ha)).
  rewrite forallb_forall in Hall.
  specialize (Hall b (proj1 (list_elem_of_In _ _) Hb)).
  unfold check in Hall. cbv zeta in Hall.
  apply andb_true_iff in Hall as [Hlen%Nat.eqb_eq Hd].
  split; [done|by right].
Qed.

Lemma int_two_digits a b :
  int (String a (String b EmptyString))
  = if is_decimal a && is_decimal b then Some (two_digits a b) else None.
Proof.
  unfold int, two_digits. simpl.
  destruct (is_decimal a); [|done]. destruct (is_decimal b); [|done]. simpl.
  f_equal; lia.
Qed.

Lemma len_2 s : len s = 2 → ∃ a b, s = String a (String b EmptyString).
Proof.
  unfold len. destruct s as [|a [|b [|c s]]]; simpl; try lia. eauto.
Qed.

Lemma year_of_parts_like parts y :
  year_of_parts parts = Some (Some y) → year_like y.
Proof.
  induction parts as [|part parts IH]; simpl; [done|].
  destruct (len (strip part) =? 4) eqn:H4; simpl.
  - destruct (isdigit (strip part)) eqn:Hd.
    + intros [= <-]. split; [|by right].
      apply Z.eqb_eq in H4. unfold len in H4. lia.
    + replace (len (strip part) =? 2) with false
        by (symmetry; apply Z.eqb_neq; apply Z.eqb_eq in H4; lia).
      simpl. apply IH.
  - destruct (Z.eqb_spec (len (strip part)) 2) as [H2|H2]; simpl; [|apply IH].
    destruct (isdigit (strip part)) eqn:Hd; [|apply IH].
    destruct (len_2 _ H2) as (a & b & Hab). rewrite Hab, int_two_digits.
    destruct (is_decimal a) eqn:Ha; [|done]. destruct (is_decimal b) eqn:Hb; [|done].
    simpl. intros [= <-].
    pose proof (year_like_pivot a b Ha Hb) as Hp. unfold pivot in Hp.
    by destruct (two_digits a b <=? 30).
Qed.

Lemma year_here_like prev s m : year_here prev s = Some m → year_like m.
Proof.
  unfold year_here. destruct s as [|c1 [|c2 [|d1 [|d2 rest]]]]; try done.
  destruct (_ && _) eqn:H; [|done]. intros [= <-].
  apply andb_true_iff in H as [H _]. apply andb_true_iff in H as [H Hd2].
  apply andb_true_iff in H as [H Hd1]. apply andb_true_iff in H as [_ Hc].
  apply is_decimal_is_digit in Hd1, Hd2.
  assert (is_digit c1 = true ∧ is_digit c2 = true) as [Hc1 Hc2].
  { apply orb_true_iff in Hc as [[->%Ascii.eqb_eq ->%Ascii.eqb_eq]%andb_true_iff
                                |[->%Ascii.eqb_eq ->%Ascii.eqb_eq]%andb_true_iff]; done. }
  split; [done|right]. unfold isdigit, chars. cbn -[is_digit].
  by rewrite Hc1, Hc2, Hd1, Hd2.
Qed.

Lemma year_search_eq prev s :
  year_search prev s
  = match year_here prev s with
    | Some m => Some m
    | None =>
        match s with
        | String c s' => year_search (Some c) s'
        | EmptyString => None
        end
    end.
Proof. by destruct s. Qed.

Lemma year_search_like prev s m : year_search prev s = Some m → year_like m.
Proof.
  revert prev. induction s as [|c s IH]; intros prev; rewrite year_search_eq.
  - done.
  - destruct (year_here prev (String c s)) eqn:H.
    + intros [= <-]. by eapply year_here_like.
    + apply IH.
Qed.

Lemma extract_year_like d y : extract_year d = Some y → year_like y.
Proof.
  unfold extract_year. destruct (truthy d); simpl.
  2:{ intros [= <-]. split; [done|by left]. }
  destruct (Z.leb_spec 4 (len (strip d))) as [H4|H4]; simpl.
  - destruct (isdigit (slice_to 4 (strip d))) eqn:Hd.
    + intros [= <-]. split; [|by right].
      unfold slice_to. rewrite substring_length. unfold len in H4. lia.
    + destruct (if contains "/" (strip d) then _ else _) as [[y'|]|] eqn:Hp; [| |done].
      * intros [= <-]. destruct (contains "/" (strip d)); [|done].
        by eapply year_of_parts_like.
      * destruct (year_search None (strip d)) eqn:Hs; intros [= <-].
        -- by eapply year_search_like.
        -- split; [done|by left].
  - destruct (if contains "/" (strip d) then _ else _) as [[y'|]|] eqn:Hp; [| |done].
    + intros [= <-]. destruct (contains "/" (strip d)); [|done].
      by eapply year_of_parts_like.
    + destruct (year_search None (strip d)) eqn:Hs; intros [= <-].
      * by eapply year_search_like.
      * split; [done|by left].
Qed.

(** X8.  Whatever the date, a year returned by [extract_year] has exactly
    four characters: it is [n.d.] or four digits.  It holds none of the
    characters that the sanitisation replaces, so sanitising it changes
    nothing. *)
Theorem X8_extract_year_shape (date_str y : string) :
  extract_year date_str = Some y →
  String.length y = 4%nat ∧ (y = "n.d."%string ∨ isdigit y = true) ∧
  sanitize y = y.
Proof.
  intros H%extract_year_like. destruct H as [Hlen Hy].
  split_and!; [done|done|]. by apply sanitize_fixed, year_like_clean.
Qed.

Lemma X8_witness :
  String.length "2019" = 4%nat ∧ ("2019" = "n.d." ∨ isdigit "2019" = true) ∧
  sanitize "2019" = "2019"%string.
Proof. apply (X8_extract_year_shape "March 2019"). by vm_compute. Defined.

Lemma split_char_nonempty sep s : split_char sep s ≠ [].
Proof.
  destruct s as [|c s]; simpl; [done|].
  destruct (Ascii.eqb c sep); [done|]. by destruct (split_char sep s).
Qed.


Lemma split_char_app sep s t :
  split_char sep (s +:+ String sep t) = split_char sep s ++ split_char sep t.
Proof.
  induction s as [|c s IH].
  - simpl. by rewrite Ascii.eqb_refl.
  - change (String c s +:+ String sep t) with (String c (s +:+ String sep t)).
    simpl. rewrite IH. destruct (Ascii.eqb c sep); [done|].
    pose proof (split_char_nonempty sep s). by destruct (split_char sep s).
Qed.

Lemma split_char_single sep s :
  Forall (λ c, c ≠ sep) (chars s) → split_char sep s = [s].
Proof.
  induction s as [|c s IH]; simpl; [done|].
  intros [Hc Hs]%Forall_cons. rewrite (IH Hs).
  by destruct (Ascii.eqb_spec c sep).
Qed.

Lemma contains_app c s t : contains (String c EmptyString) (s +:+ String c t) = true.
Proof.
  induction s as [|d s IH].
  - simpl. destruct (Ascii.ascii_dec c c); [by destruct t|done].
  - change (String d s +:+ String c t) with (String d (s +:+ String c t)).
    cbn [contains]. rewrite IH. apply orb_true_r.
Qed.

Lemma is_digit_not_slash c : is_digit c = true → c ≠ "/"%char.
Proof. by destruct c as [[] [] [] [] [] [] [] []]. Qed.

Lemma strip_two_digits a b :
  is_digit a = true → is_digit b = true →
  strip (String a (String b EmptyString)) = String a (String b EmptyString).
Proof.
  intros Ha%is_digit_not_space Hb%is_digit_not_space.
  unfold strip. simpl. rewrite Ha. simpl. by rewrite Hb.
Qed.

Lemma isdigit_two a b :
  isdigit (String a (String b EmptyString)) = is_digit a && is_digit b.
Proof. unfold isdigit, chars. cbn -[is_digit]. by rewrite andb_true_r. Qed.





Lemma truthy_strip s : truthy (strip s) = true → truthy s = true.
Proof. by destruct s. Qed.

(** X10.  A date that, once the white space around it is removed, ends
    in a slash and two digits and does not start with four digits is
    read by its last part: when both digits are decimal the year is 2000
    plus the number up to 30 and 1900 plus the number above; when one of
    them is a superscript digit the call raises. *)
Theorem X10_two_digit_year (date_str s : string) (a b : ascii) :
  strip date_str = s +:+ String "/" (String a (String b EmptyString)) →
  is_digit a = true → is_digit b = true →
  (4 <=? len (strip date_str)) && isdigit (slice_to 4 (strip date_str)) = false →
  extract_year date_str
  = if is_decimal a && is_decimal b
    then Some (pretty (pivot (two_digits a b)))
    else None.
Proof.
  intros Hstrip Ha Hb Hfour.
  unfold extract_year.
  assert (truthy date_str = true) as ->.
  { apply truthy_strip. rewrite Hstrip. by destruct s. }
  cbn [negb]. cbv zeta. rewrite Hfour. rewrite Hstrip.
  rewrite contains_app, split_char_app.
  rewrite (split_char_single _ (String a _)).
  2:{ repeat constructor; by apply is_digit_not_slash. }
  rewrite reverse_snoc. cbn [year_of_parts].
  rewrite strip_two_digits by done. rewrite isdigit_two, Ha, Hb.
  change (len (String a (String b EmptyString))) with 2.
  cbn [Z.eqb andb Pos.eqb]. rewrite int_two_digits.
  destruct (is_decimal a && is_decimal b); [|done].
  unfold pivot. by destruct (two_digits a b <=? 30).
Qed.

Lemma X10_witness :
  extract_year " 12/25/99 " = Some "1999"%string.
Proof. by apply (X10_two_digit_year " 12/25/99 " "12/25" "9" "9"). Defined.

(** ** Decimal printing *)

Lemma pretty_N_go_chars (P : ascii → Prop) x s :
  (∀ n, P (pretty_N_char n)) → Forall P (chars s) →
  Forall P (chars (pretty_N_go x s)).
Proof.
  intros HP. revert s. induction (N.lt_wf_0 x) as [x _ IH]; intros s Hs.
  destruct (decide (x = 0)%N) as [->|Hx]; [by rewrite pretty_N_go_0|].
  rewrite pretty_N_go_step by lia. apply IH.
  - apply N.div_lt; lia.
  - by constructor.
Qed.

Lemma pretty_N_go_length x s :
  (String.length s ≤ String.length (pretty_N_go x s))%nat.
Proof.
  revert s. induction (N.lt_wf_0 x) as [x _ IH]; intros s.
  destruct (decide (x = 0)%N) as [->|Hx]; [by rewrite pretty_N_go_0|].
  rewrite pretty_N_go_step by lia.
  etrans; [|apply IH, N.div_lt; lia]. simpl. lia.
Qed.

Lemma pretty_N_chars (P : ascii → Prop) (x : N) :
  (∀ n, P (pretty_N_char n)) → Forall P (chars (pretty x)).
Proof.
  intros HP. unfold pretty, pretty_N. case_decide.
  - constructor; [apply (HP 0%N)|constructor].
  - apply pretty_N_go_chars; [done|constructor].
Qed.

Lemma pretty_N_nonempty (x : N) : pretty x ≠ EmptyString.
Proof.
  unfold pretty, pretty_N. case_decide; [done|].
  rewrite pretty_N_go_step by lia. intros Heq.
  pose proof (pretty_N_go_length (x `div` 10)
                (String (pretty_N_char (x `mod` 10)) EmptyString)) as Hlen.
  rewrite Heq in Hlen. simpl in Hlen. lia.
Qed.

Lemma pretty_Z_chars (P : ascii → Prop) (z : Z) :
  (∀ n, P (pretty_N_char n)) → P "-"%char → Forall P (chars (pretty z)).
Proof.
  intros HP Hdash. destruct z as [|p|p].
  - constructor; [apply (HP 0%N)|constructor].
  - by apply (pretty_N_chars P (Npos p)).
  - change (pretty (Z.neg p)) with ("-" +:+ pretty (Npos p)).
    rewrite chars_app. apply Forall_app. split; [by repeat constructor|].
    by apply pretty_N_chars.
Qed.

Lemma pretty_Z_digits (z : Z) :
  0 ≤ z → pretty z ≠ EmptyString ∧ Forall (λ c, is_decimal c = true) (chars (pretty z)).
Proof.
  intros Hz. assert (Hd : ∀ n, is_decimal (pretty_N_char n) = true).
  { intros n. unfold pretty_N_char. by repeat case_match. }
  destruct z as [|p|p]; [by repeat constructor| |lia].
  split; [apply (pretty_N_nonempty (Npos p))|by apply (pretty_N_chars _ (Npos p))].
Qed.

(** ** Names of the notes *)

Lemma clean_app s t : clean (s +:+ t) ↔ clean s ∧ clean t.
Proof. unfold clean. rewrite chars_app. apply Forall_app. Qed.

Lemma clean_note_name a y : clean a → clean y → clean (note_name a y).
Proof.
  intros Ha Hy. unfold note_name. rewrite !clean_app.
  split_and!; try done; unfold clean; by repeat constructor.
Qed.

Lemma clean_pretty (k : Z) : clean (pretty k).
Proof.
  apply pretty_Z_chars; [|done]. intros n. unfold pretty_N_char. by repeat case_match.
Qed.

Lemma letter_loop_shape folder a y ls f ys b :
  letter_loop folder a y ls = Some (f, ys, b) →
  ∃ c, c ∈ chars ls ∧ ys = y +:+ String c EmptyString.
Proof.
  induction ls as [|d ls IH]; simpl; [done|].
  destruct (path_exists folder _).
  - intros (c & Hc & ->)%IH. exists c. split; [by right|done].
  - intros [= <- <- <-]. exists d. split; [left|done].
Qed.

Lemma counter_loop_shape folder fuel a y c f ys b :
  counter_loop folder fuel a y c = Some (f, ys, b) →
  ∃ k, c ≤ k ∧ ys = y +:+ "-" +:+ pretty k.
Proof.
  revert c. induction fuel as [|fuel IH]; intros c; simpl; [done|].
  destruct (path_exists folder _).
  - intros (k & Hk & ->)%IH. exists k. split; [lia|done].
  - intros [= <- <- <-]. exists c. split; [lia|done].
Qed.

(** The shape of every result of [get_unique_filename] *)
Lemma get_unique_filename_shape folder fuel a y mode f y' b :
  get_unique_filename folder fuel a y mode = Some (Some (f, y', b)) →
  f = note_name a y' ∧
  (y' = y ∨ (∃ c, c ∈ chars letters ∧ y' = y +:+ String c EmptyString)
   ∨ ∃ k, 1 ≤ k ∧ y' = y +:+ "-" +:+ pretty k).
Proof.
  unfold get_unique_filename. case_bool_decide.
  { intros [= <- <- <-]. split; [done|by left]. }
  case_bool_decide; [|done].
  destruct (path_exists folder (note_name a y)); cbn [negb].
  2:{ intros [= <- <- <-]. split; [done|by left]. }
  destruct (letter_loop folder a y _) as [[[f1 y1] b1]|] eqn:Hl.
  - intros [= <- <- <-].
    destruct (letter_loop_free _ _ _ _ _ _ _ Hl) as (_ & _ & ->).
    split; [done|]. right. left. by eapply letter_loop_shape.
  - destruct (counter_loop folder fuel a y 1) as [[[f1 y1] b1]|] eqn:Hc; [|done].
    intros [= <- <- <-].
    destruct (counter_loop_free _ _ _ _ _ _ _ _ Hc) as (_ & _ & ->).
    split; [done|]. right. right. by eapply counter_loop_shape.
Qed.

(** Under the suffix policy the file returned is not in the folder. *)
Lemma suffix_result_fresh folder fuel a y f y' b :
  get_unique_filename folder fuel a y "suffix" = Some (Some (f, y', b)) →
  (f ∉ folder) ∧ b = false.
Proof.
  unfold get_unique_filename.
  rewrite bool_decide_eq_false_2 by done. rewrite bool_decide_eq_true_2 by done.
  unfold path_exists at 1. case_bool_decide as Hbase; cbn [negb].
  - destruct (letter_loop folder a y _) as [[[f1 y1] b1]|] eqn:Hl.
    + intros [= <- <- <-]. by destruct (letter_loop_free _ _ _ _ _ _ _ Hl) as (? & ? & _).
    + destruct (counter_loop folder fuel a y 1) as [[[f1 y1] b1]|] eqn:Hc; [|done].
      intros [= <- <- <-].
      by destruct (counter_loop_free _ _ _ _ _ _ _ _ Hc) as (? & ? & _).
  - by intros [= <- <- <-].
Qed.

(** One more unit of fuel than the folder has files is as good as any
    larger amount. *)
Lemma get_unique_filename_fuel folder fuel a y mode :
  (size folder < fuel)%nat →
  get_unique_filename folder fuel a y mode
  = get_unique_filename folder (S (size folder)) a y mode.
Proof.
  intros Hfuel. unfold get_unique_filename.
  repeat case_bool_decide; try done.
  destruct (negb _); [done|]. destruct (letter_loop folder a y _); [done|].
  destruct (counter_loop_enough folder a y 1) as (ys & Hc & _).
  rewrite Hc. by rewrite (counter_loop_mono _ _ _ _ _ _ _ Hc) by lia.
Qed.

Lemma clean_letters : Forall (λ c, forbidden c = false) (chars letters).
Proof. by repeat constructor. Qed.

(** X11.  Whatever the folder and the policy, the file name and the year
    that [get_unique_filename] returns for a sanitised author and a
    sanitised year hold none of the characters that the sanitisation
    replaces; the file name is [author (year).md] for the year
    returned. *)
Theorem X11_file_names_are_clean
    (folder : gset string) (fuel : nat) (author year mode : string)
    (filename final_year : string) (is_replacing : bool) :
  get_unique_filename folder fuel (sanitize author) (sanitize year) mode
    = Some (Some (filename, final_year, is_replacing)) →
  filename = note_name (sanitize author) final_year ∧
  clean filename ∧ clean final_year.
Proof.
  intros (-> & Hy)%get_unique_filename_shape.
  assert (clean final_year) as Hclean.
  { destruct Hy as [->|[(c & Hc & ->)|(k & _ & ->)]].
    - apply sanitize_clean.
    - apply clean_app. split; [apply sanitize_clean|].
      pose proof clean_letters as Hl. rewrite Forall_forall in Hl.
      unfold clean. repeat constructor. by apply Hl.
    - rewrite !clean_app. split_and!; [apply sanitize_clean| |apply clean_pretty].
      unfold clean. by repeat constructor. }
  split_and!; [done| |done].
  apply clean_note_name; [apply sanitize_clean|done].
Qed.

Lemma X11_witness :
  "A-B (2020-1).md"%string = note_name (sanitize "A/B") "2020-1" ∧
  clean "A-B (2020-1).md" ∧ clean "2020-1".
Proof.
  apply (X11_file_names_are_clean
           (list_to_set (note_name "A-B" "2020" ::
                         (letter_name "A-B" "2020" <$> list_ascii_of_string letters)))
           2 "A/B" "2020" "suffix" _ _ false).
  by vm_compute.
Defined.

(** ** The loop over the items *)

Lemma creators_and_year_own zot_item data :
  creators_and_year zot_item data
  = (λ year, (Zotero.creators data, year))
      <$> extract_year (default EmptyString (Zotero.date data)).
Proof.
  unfold creators_and_year.
  destruct (extract_year _) as [year|]; [|done]. simpl.
  case_bool_decide; [|done].
  unfold is_standalone_pdf.
  destruct (truthy (default EmptyString (Zotero.parentItem data))) eqn:Hp; simpl.
  - by rewrite andb_false_r.
  - by destruct (_ && _).
Qed.

(** X12.  The branch of the loop that asks Zotero for the parent of an
    item without creators is never taken: it is entered only for a
    standalone PDF, which by definition has no parent.  The creators and
    the year are those of the item itself, whatever Zotero would answer,
    and the call raises exactly when [extract_year] does on the item's
    own date. *)
Theorem X12_parent_never_consulted
    (zot_item : string → option Zotero.item) (data : Zotero.item) :
  creators_and_year zot_item data
  = (λ year, (Zotero.creators data, year))
      <$> extract_year (default EmptyString (Zotero.date data)).
Proof. apply creators_and_year_own. Qed.

Section AnalyzerFacts.

Variable DUPLICATE_MODE : string.
Variable ZOTERO_ID : string.
Variable zot_item : string → option Zotero.item.
Variable zot_children : string → option (list Zotero.item).
Variable is_supplement : string → bool.
Variable download : string → option (Z * option (list string)).
Variable analyse : string → string → string → option string.
Variable write_note : string → string → string → string → string → string → write_outcome.

Let step := process_item DUPLICATE_MODE ZOTERO_ID zot_item zot_children
                         is_supplement download analyse write_note.
Let run := process_items DUPLICATE_MODE ZOTERO_ID zot_item zot_children
                         is_supplement download analyse write_note.

(** What one iteration can do to the state: skip the item; count it as
    failed without opening a file; count it as failed after opening its
    file; or write its note. *)
Lemma process_item_cases st it st' :
  step st it = Some st' →
  (DUPLICATE_MODE ≠ "replace"%string → replace_count st' = replace_count st) ∧
  ((is_paper it = false ∧ is_standalone_pdf it = false ∧
    notes st' = notes st ∧ opened st' = opened st ∧ written st' = written st ∧
    success_count st' = success_count st ∧ fail_count st' = fail_count st ∧
    skip_count st' = skip_count st + 1)
   ∨ ((is_paper it = true ∨ is_standalone_pdf it = true) ∧
      notes st' = notes st ∧ opened st' = opened st ∧ written st' = written st ∧
      success_count st' = success_count st ∧ fail_count st' = fail_count st + 1 ∧
      skip_count st' = skip_count st)
   ∨ (∃ creators year filename final_year is_replacing,
        (is_paper it = true ∨ is_standalone_pdf it = true) ∧
        creators_and_year zot_item it = Some (creators, year) ∧
        get_unique_filename (notes st) (S (size (notes st)))
          (sanitize (author_part creators)) (sanitize year) DUPLICATE_MODE
          = Some (Some (filename, final_year, is_replacing)) ∧
        notes st' = {[filename]} ∪ notes st ∧
        opened st' = opened st ++ [filename] ∧
        skip_count st' = skip_count st ∧
        ((written st' = written st ++ [filename] ∧
          success_count st' = success_count st + 1 ∧
          fail_count st' = fail_count st)
         ∨ (written st' = written st ∧
            success_count st' = success_count st ∧
            fail_count st' = fail_count st + 1)))).
Proof.
  unfold step, process_item.
  destruct (is_paper it) eqn:Hpaper, (is_standalone_pdf it) eqn:Hpdf; simpl.
  4:{ intros [= <-]. simpl. split; [done|]. left. by split_and!. }
  all: destruct (creators_and_year zot_item it) as [[creators year]|] eqn:Hcy; [|done].
  all: destruct (get_unique_filename _ _ _ _ _) as [[[[filename final_year] is_replacing]|]|]
         eqn:Hname; [|done|done].
  all: destruct (find_pdf _ _ _ _) as [pdf_url|]; [|done].
  all: destruct (content_to_analyze _ _ _) as [[content content_type]|]; [|done].
  all: assert (Hrep : DUPLICATE_MODE ≠ "replace"%string →
                      (if bool_decide (DUPLICATE_MODE = "replace"%string) && is_replacing
                       then replace_count st + 1 else replace_count st) = replace_count st)
         by (intros Hmode; by rewrite bool_decide_eq_false_2).
  all: destruct (negb (truthy content));
         [intros [= <-]; simpl; split; [done|]; right; left; split_and!; auto|].
  all: destruct (analyse _ _ _);
         [|intros [= <-]; simpl; split; [done|]; right; left; split_and!; auto].
  all: destruct (write_note _ _ _ _ _ _);
         [ intros [= <-]; simpl; split; [done|]; right; right;
           exists creators, year, filename, final_year, is_replacing;
           split_and!; auto; left; by split_and!
         | intros [= <-]; simpl; split; [done|]; right; left; split_and!; auto
         | intros [= <-]; simpl; split; [done|]; right; right;
           exists creators, year, filename, final_year, is_replacing;
           split_and!; auto; right; by split_and! ].
Qed.

Lemma process_items_counts items st st' :
  run items st = Some st' →
  success_count st' + fail_count st' + skip_count st'
    = success_count st + fail_count st + skip_count st + Z.of_nat (length items) ∧
  skip_count st'
    = skip_count st
      + Z.of_nat (length (filter (λ it, is_paper it = false ∧ is_standalone_pdf it = false)
                                 items)) ∧
  Z.of_nat (length (written st'))
    = Z.of_nat (length (written st)) + (success_count st' - success_count st) ∧
  (DUPLICATE_MODE ≠ "replace"%string → replace_count st' = replace_count st).
Proof.
  revert st. induction items as [|it items IH]; intros st.
  - intros [= <-]. simpl. split_and!; [lia|lia|lia|done].
  - unfold run. simpl. fold run.
    destruct (process_item _ _ _ _ _ _ _ _ st it) as [st1|] eqn:Hstep; [|done].
    intros (Hsum & Hskip & Hlen & Hrep)%IH.
    apply process_item_cases in Hstep as [Hrep1 Hstep].
    rewrite filter_cons.
    destruct Hstep as [(Hp & Hq & Hn & Ho & Hw & Hs & Hf & Hk)
                      |[(Hpq & Hn & Ho & Hw & Hs & Hf & Hk)
                       |(cr & yr & f & fy & b & Hpq & _ & _ & Hn & Ho & Hk & Hout)]].
    + rewrite decide_True by done. rewrite Hw in Hlen. simpl length.
      split_and!; [lia|lia|lia|]. intros Hm. by rewrite Hrep, Hrep1.
    + rewrite decide_False by (intros [? ?]; destruct Hpq; congruence).
      rewrite Hw in Hlen. simpl length.
      split_and!; [lia|lia|lia|]. intros Hm. by rewrite Hrep, Hrep1.
    + rewrite decide_False by (intros [? ?]; destruct Hpq; congruence).
      destruct Hout as [(Hw & Hs & Hf)|(Hw & Hs & Hf)].
      * rewrite Hw, length_app in Hlen. simpl length in *.
        split_and!; [lia|lia|lia|]. intros Hm. by rewrite Hrep, Hrep1.
      * rewrite Hw in Hlen. simpl length in *.
        split_and!; [lia|lia|lia|]. intros Hm. by rewrite Hrep, Hrep1.
Qed.

Lemma process_items_suffix items st st' :
  DUPLICATE_MODE = "suffix"%string →
  run items st = Some st' →
  ∃ new done,
    opened st' = opened st ++ new ∧ NoDup new ∧
    (∀ f, f ∈ new → f ∉ notes st) ∧
    notes st' = list_to_set new ∪ notes st ∧
    written st' = written st ++ done ∧ sublist done new.
Proof.
  intros Hmode. revert st. induction items as [|it items IH]; intros st.
  - intros [= <-]. exists [], []. rewrite !app_nil_r.
    split_and!; [done|constructor| | |done|done].
    + intros f Hf. by apply elem_of_nil in Hf.
    + by rewrite list_to_set_nil, (left_id_L ∅ (∪)).
  - unfold run. simpl. fold run.
    destruct (process_item _ _ _ _ _ _ _ _ st it) as [st1|] eqn:Hstep; [|done].
    intros (new & done & Ho' & Hnd & Hfresh & Hn' & Hw' & Hsub)%IH.
    apply process_item_cases in Hstep as [_ Hstep].
    destruct Hstep as [(_ & _ & Hn & Ho & Hw & _)
                      |[(_ & Hn & Ho & Hw & _)
                       |(cr & yr & f & fy & b & _ & _ & Hname & Hn & Ho & _ & Hout)]].
    + exists new, done. rewrite Ho', Ho, Hw', Hw, Hn'. rewrite Hn in Hfresh. rewrite Hn.
      by split_and!.
    + exists new, done. rewrite Ho', Ho, Hw', Hw, Hn'. rewrite Hn in Hfresh. rewrite Hn.
      by split_and!.
    + rewrite Hmode in Hname. apply suffix_result_fresh in Hname as [Hf _].
      assert (Hnd' : NoDup (f :: new)).
      { constructor; [|done]. intros Hin. apply (Hfresh _ Hin).
        rewrite Hn. apply elem_of_union_l. by apply elem_of_singleton. }
      assert (Hfresh' : ∀ g, g ∈ f :: new → g ∉ notes st).
      { intros g [->|Hg]%elem_of_cons; [done|]. intros Hgn. apply (Hfresh _ Hg).
        rewrite Hn. by apply elem_of_union_r. }
      assert (Hnotes : notes st' = list_to_set (f :: new) ∪ notes st).
      { rewrite Hn', Hn. simpl. rewrite (assoc_L (∪)).
        by rewrite (comm_L (∪) (list_to_set new) {[f]}). }
      destruct Hout as [(Hw & _)|(Hw & _)].
      * exists (f :: new), (f :: done). rewrite Ho', Ho, Hw', Hw, <- !app_assoc. simpl.
        split_and!; try done. by apply sublist_skip.
      * exists (f :: new), done. rewrite Ho', Ho, Hw', Hw, <- !app_assoc. simpl.
        split_and!; try done. by apply sublist_cons.
Qed.

End AnalyzerFacts.

(** X13.  Under the ["suffix"] policy a run that goes through never
    opens an existing file for writing, so it writes over no note: the
    files it opens, whether the writing then succeeds or raises, are
    pairwise distinct, and none of them was in the folder when the run
    started; the folder ends up with exactly these files added; the
    notes written are among them, in the same order, and the count of
    successes is their number. *)
Theorem X13_suffix_run_never_overwrites
    (ZOTERO_ID : string)
    (zot_item : string → option Zotero.item)
    (zot_children : string → option (list Zotero.item))
    (is_supplement : string → bool)
    (download : string → option (Z * option (list string)))
    (analyse : string → string → string → option string)
    (write_note : string → string → string → string → string → string → write_outcome)
    (items : list Zotero.item) (st st' : run_state) :
  process_items "suffix" ZOTERO_ID zot_item zot_children is_supplement download
                analyse write_note items st = Some st' →
  ∃ new done,
    opened st' = opened st ++ new ∧ NoDup new ∧
    (∀ f, f ∈ new → f ∉ notes st) ∧
    notes st' = list_to_set new ∪ notes st ∧
    written st' = written st ++ done ∧ sublist done new ∧
    success_count st' = success_count st + Z.of_nat (length done).
Proof.
  intros Hrun.
  destruct (process_items_suffix _ _ _ _ _ _ _ _ _ _ _ eq_refl Hrun)
    as (new & done & Ho & Hnd & Hfresh & Hn & Hw & Hsub).
  destruct (process_items_counts _ _ _ _ _ _ _ _ _ _ _ Hrun) as (_ & _ & Hlen & _).
  exists new, done. split_and!; try done.
  rewrite Hw, length_app in Hlen. lia.
Qed.

Lemma X13_witness :
  ∃ st', sample_run "suffix" = Some st' ∧
         opened st' = ["Lee, H. (2020).md"; "Lee, H. (2020a).md"]%string ∧
         written st' = ["Lee, H. (2020).md"]%string ∧
         ∃ new done,
           opened st' = [] ++ new ∧ NoDup new ∧
           (∀ f, f ∈ new → f ∉ (∅ : gset string)) ∧
           notes st' = list_to_set new ∪ ∅ ∧
           written st' = [] ++ done ∧ sublist done new ∧
           success_count st' = 0 + Z.of_nat (length done).
Proof.
  eexists. split; [by vm_compute|]. split; [done|]. split; [done|].
  apply (X13_suffix_run_never_overwrites
           "0" (λ _, None) (λ _, Some []) (λ _, false) (λ _, Some (404, None))
           (λ _ _ _, Some "summary"%string) sample_write_note
           sample_library (initial_state ∅)).
  by vm_compute.
Defined.

(** X14.  When the loop goes through, every item has been counted once,
    as a success, a failure or a skip; the skips are the items that are
    neither a paper nor a standalone PDF, the successes are the notes
    written, and outside the ["replace"] policy the count of
    replacements does not move. *)
Theorem X14_every_item_is_counted
    (DUPLICATE_MODE ZOTERO_ID : string)
    (zot_item : string → option Zotero.item)
    (zot_children : string → option (list Zotero.item))
    (is_supplement : string → bool)
    (download : string → option (Z * option (list string)))
    (analyse : string → string → string → option string)
    (write_note : string → string → string → string → string → string → write_outcome)
    (items : list Zotero.item) (st st' : run_state) :
  process_items DUPLICATE_MODE ZOTERO_ID zot_item zot_children is_supplement
                download analyse write_note items st = Some st' →
  success_count st' + fail_count st' + skip_count st'
    = success_count st + fail_count st + skip_count st + Z.of_nat (length items) ∧
  skip_count st'
    = skip_count st
      + Z.of_nat (length (filter (λ it, is_paper it = false ∧ is_standalone_pdf it = false)
                                 items)) ∧
  Z.of_nat (length (written st'))
    = Z.of_nat (length (written st)) + (success_count st' - success_count st) ∧
  (DUPLICATE_MODE ≠ "replace"%string → replace_count st' = replace_count st).
Proof. apply process_items_counts. Qed.

Lemma X14_witness :
  ∃ st', sample_run "replace" = Some st' ∧
         (success_count st', fail_count st', skip_count st', replace_count st')
           = (2, 1, 1, 2) ∧
         success_count st' + fail_count st' + skip_count st' = 0 + 0 + 0 + 4.
Proof.
  eexists. split; [by vm_compute|]. split; [done|].
  apply (X14_every_item_is_counted
           "replace" "0" (λ _, None) (λ _, Some []) (λ _, false) (λ _, Some (404, None))
           (λ _ _ _, Some "summary"%string) sample_write_note
           sample_library (initial_state ∅)).
  by vm_compute.
Defined.

(** ** Choice of the PDF *)

Lemma foldl_larger x r :
  ∃ pre best post,
    x :: r = pre ++ best :: post ∧ foldl larger x r = best ∧
    (∀ a, a ∈ pre → pdf_size a < pdf_size best) ∧
    (∀ a, a ∈ post → pdf_size a ≤ pdf_size best).
Proof.
  induction r as [|z r IH] using rev_ind.
  - exists [], x, []. split_and!; [done|done| |]; intros a Ha; by apply elem_of_nil in Ha.
  - destruct IH as (pre & best & post & Heq & Hbest & Hpre & Hpost).
    rewrite foldl_app. simpl. rewrite Hbest. unfold larger.
    destruct (Z.ltb_spec (pdf_size best) (pdf_size z)) as [Hlt|Hge].
    + exists (x :: r), z, []. split_and!; [done|done| |].
      * intros a Ha. rewrite Heq in Ha.
        apply elem_of_app in Ha as [Ha|[->|Ha]%elem_of_cons].
        -- specialize (Hpre a Ha). lia.
        -- done.
        -- specialize (Hpost a Ha). lia.
      * intros a Ha. by apply elem_of_nil in Ha.
    + exists pre, best, (post ++ [z]). split_and!; [|done|done|].
      * rewrite app_comm_cons, Heq. by rewrite <- app_assoc.
      * intros a [Ha|Ha]%elem_of_app; [by apply Hpost|].
        apply list_elem_of_singleton in Ha as ->. lia.
Qed.

Lemma filter_split {A} (P : A → Prop) `{∀ x, Decision (P x)} (l : list A) pre' x post' :
  filter P l = pre' ++ x :: post' →
  ∃ pre post, l = pre ++ x :: post ∧ filter P pre = pre' ∧ filter P post = post'.
Proof.
  revert pre'. induction l as [|y l IH]; intros pre'.
  - rewrite filter_nil. by destruct pre'.
  - rewrite filter_cons. destruct (decide (P y)) as [Hy|Hy].
    + destruct pre' as [|z pre']; simpl.
      * intros [= -> Hl]. exists [], l. split_and!; [done|done|done].
      * intros [= -> Hl]. destruct (IH _ Hl) as (pre & post & -> & Hpre & Hpost).
        exists (z :: pre), post. split_and!; [done| |done].
        rewrite filter_cons. rewrite decide_True by done. by rewrite Hpre.
    + intros Hl. destruct (IH _ Hl) as (pre & post & -> & Hpre & Hpost).
      exists (y :: pre), post. split_and!; [done| |done].
      rewrite filter_cons. by rewrite decide_False by done.
Qed.

(** X15.  [select_pdf] selects nothing exactly when no attachment is a
    PDF.  Otherwise it selects a PDF of the list; a supplement is
    selected only when every PDF is one; and among the PDFs of its kind
    the selected one is the first of the largest: those before it are
    strictly smaller, those after it are not larger. *)
Theorem X15_select_pdf
    (is_supplement : string → bool) (attachments : list Zotero.item) :
  (select_pdf is_supplement attachments = None ↔
   ∀ att, att ∈ attachments → ¬ is_pdf att) ∧
  ∀ selected, select_pdf is_supplement attachments = Some selected →
    is_pdf selected ∧
    (∀ att, att ∈ attachments → is_pdf att →
            supplementary is_supplement selected = true →
            supplementary is_supplement att = true) ∧
    ∃ pre post, attachments = pre ++ selected :: post ∧
      (∀ att, att ∈ pre → is_pdf att →
              supplementary is_supplement att = supplementary is_supplement selected →
              pdf_size att < pdf_size selected) ∧
      (∀ att, att ∈ post → is_pdf att →
              supplementary is_supplement att = supplementary is_supplement selected →
              pdf_size att ≤ pdf_size selected).
Proof.
  unfold select_pdf. fold is_pdf.
  change (λ att, is_supplement (default EmptyString (Zotero.title att)) = false)
    with (λ att, supplementary is_supplement att = false).
  remember (filter is_pdf attachments) as pdfs eqn:Epdfs.
  remember (filter (λ att, supplementary is_supplement att = false) pdfs)
    as mains eqn:Emains.
  assert (Hpdfs : ∀ att, att ∈ pdfs ↔ is_pdf att ∧ att ∈ attachments)
    by (intros att; rewrite Epdfs; apply list_elem_of_filter).
  assert (Hmains : ∀ att, att ∈ mains ↔ supplementary is_supplement att = false ∧ att ∈ pdfs)
    by (intros att; rewrite Emains; by rewrite list_elem_of_filter).
  split.
  - destruct pdfs as [|p pdfs'].
    + split; [|done]. intros _ att Hatt Hpdf.
      assert (att ∈ []) as Hin by (apply Hpdfs; done). by apply elem_of_nil in Hin.
    + split.
      * by destruct mains.
      * intros Hnone. destruct (Hnone p); apply (Hpdfs p); left.
  - intros selected Hsel.
    assert (∃ c cs, (match mains with [] => pdfs | _ :: _ => mains end) = c :: cs ∧
                    foldl larger c cs = selected) as (c & cs & Hcands & Hmax).
    { destruct pdfs as [|p pdfs']; [done|].
      destruct mains as [|m mains']; simpl in Hsel; injection Hsel as Hsel; eauto. }
    destruct (foldl_larger c cs) as (pre' & best & post' & Heq & Hbest & Hpre & Hpost).
    rewrite Hmax in Hbest. subst best. rewrite <- Hcands in Heq. clear Hcands Hmax Hsel.
    destruct mains as [|m mains'].
    + (* every PDF is a supplement *)
      assert (Hall : ∀ att, att ∈ pdfs → supplementary is_supplement att = true).
      { intros att Hatt. destruct (supplementary is_supplement att) eqn:Hs; [done|].
        assert (att ∈ []) as Hin by (apply Hmains; done). by apply elem_of_nil in Hin. }
      assert (Hin : selected ∈ pdfs) by (rewrite Heq; apply elem_of_app; right; left).
      split; [by apply Hpdfs|]. split.
      { intros att Hatt Hpdf _. apply Hall, Hpdfs. done. }
      rewrite Epdfs in Heq.
      destruct (filter_split _ _ _ _ _ Heq) as (pre & post & -> & Hfpre & Hfpost).
      exists pre, post. split; [done|]. split.
      * intros att Hatt Hpdf _. apply Hpre. rewrite <- Hfpre. by apply list_elem_of_filter.
      * intros att Hatt Hpdf _. apply Hpost. rewrite <- Hfpost. by apply list_elem_of_filter.
    + (* some PDF is not a supplement *)
      assert (Hin : selected ∈ m :: mains') by (rewrite Heq; apply elem_of_app; right; left).
      apply Hmains in Hin as [Hmain Hin].
      split; [by apply Hpdfs|]. split.
      { intros att _ _ Hs. congruence. }
      rewrite Emains in Heq.
      destruct (filter_split _ _ _ _ _ Heq) as (pre1 & post1 & Hpdfs1 & Hfpre1 & Hfpost1).
      rewrite Epdfs in Hpdfs1.
      destruct (filter_split _ _ _ _ _ Hpdfs1) as (pre & post & -> & Hfpre & Hfpost).
      exists pre, post. split; [done|]. split.
      * intros att Hatt Hpdf Hs. apply Hpre. rewrite <- Hfpre1.
        apply list_elem_of_filter. split; [congruence|].
        rewrite <- Hfpre. by apply list_elem_of_filter.
      * intros att Hatt Hpdf Hs. apply Hpost. rewrite <- Hfpost1.
        apply list_elem_of_filter. split; [congruence|].
        rewrite <- Hfpost. by apply list_elem_of_filter.
Qed.

Lemma X15_witness :
  (Zotero.key <$> select_pdf sample_is_supplement sample_attachments) = Some "A3"%string ∧
  ∀ att, att ∈ sample_attachments → is_pdf att →
         supplementary sample_is_supplement att = false →
         pdf_size att ≤ 500.
Proof.
  split; [by vm_compute|].
  destruct (proj2 (X15_select_pdf sample_is_supplement sample_attachments)
              (Zotero.Item "A3" (Some "attachment"%string) (Some "application/pdf"%string)
                 (Some "K1"%string) (Some "Paper"%string) None [] None (Some 500)))
    as (_ & _ & pre & post & Heq & Hpre & Hpost); [by vm_compute|].
  intros att Hatt Hpdf Hs. rewrite Heq in Hatt.
  apply elem_of_app in Hatt as [Hatt|[->|Hatt]%elem_of_cons].
  - specialize (Hpre att Hatt Hpdf Hs). unfold pdf_size in *. simpl in *. lia.
  - by vm_compute.
  - apply (Hpost att Hatt Hpdf Hs).
Defined.

(** ** Content that is analysed *)

(** X16.  The content handed to the analysis is either the item's
    abstract, or the text of the PDF cut to its first 100000 characters;
    it is the latter exactly when the download answers 200 and the pages
    are read, also when that text is empty, in which case the abstract
    is not used. *)
Theorem X16_content_to_analyze
    (download : string → option (Z * option (list string)))
    (pdf_url : option string) (abstract content content_type : string) :
  content_to_analyze download pdf_url abstract = Some (content, content_type) →
  (content_type = "abstract"%string ∧ content = abstract ∧
   ∀ url texts, pdf_url = Some url → truthy url = true →
                download url ≠ Some (200, Some texts))
  ∨ (content_type = "full_text"%string ∧ len content ≤ 100000 ∧
     ∃ url texts, pdf_url = Some url ∧ download url = Some (200, Some texts) ∧
       let full_text := foldl String.append EmptyString texts in
       content = slice_to 100000 full_text ∧
       (len full_text ≤ 100000 → content = full_text)).
Proof.
  unfold content_to_analyze.
  destruct pdf_url as [url|].
  2:{ intros [= <- <-]. left. by split_and!. }
  destruct (truthy url) eqn:Hurl.
  2:{ intros [= <- <-]. left. split_and!; try done. intros ?? [= <-]. congruence. }
  destruct (download url) as [[status pages]|] eqn:Hd; [|done].
  destruct (Z.eqb_spec status 200) as [->|Hne].
  2:{ intros [= <- <-]. left. split_and!; try done.
      intros ?? [= <-] _. congruence. }
  destruct pages as [texts|].
  2:{ intros [= <- <-]. left. split_and!; try done.
      intros ?? [= <-] _. congruence. }
  intros [= <- <-]. right. split; [done|].
  set (full_text := foldl String.append EmptyString texts).
  assert (Hslice : len full_text ≤ 100000 → slice_to 100000 full_text = full_text).
  { intros Hle. unfold slice_to, len in *.
    assert (Hsub : ∀ s n, (String.length s ≤ n)%nat → String.substring 0 n s = s).
    { clear. induction s as [|c s IH]; intros [|n] Hn; simpl in *; try done; try lia.
      rewrite IH; [done|lia]. }
    apply Hsub. lia. }
  unfold max_chars.
  destruct (Z.gtb_spec (len full_text) 100000) as [Hgt|Hle].
  - split; [rewrite len_slice_to by done; lia|].
    exists url, texts. split_and!; [done|done|done|].
    intros Hle. unfold full_text in *. lia.
  - split; [done|]. exists url, texts. split_and!; [done|done| |done].
    symmetry. by apply Hslice.
Qed.

Lemma X16_witness :
  content_to_analyze sample_download (Some "u"%string) "An abstract."
    = Some (EmptyString, "full_text"%string) ∧
  (("full_text" = "abstract" ∧ EmptyString = "An abstract."%string ∧
    ∀ url texts, Some "u"%string = Some url → truthy url = true →
                 sample_download url ≠ Some (200, Some texts))
   ∨ ("full_text" = "full_text" ∧ len EmptyString ≤ 100000 ∧
      ∃ url texts, Some "u"%string = Some url ∧
        sample_download url = Some (200, Some texts) ∧
        let full_text := foldl String.append EmptyString texts in
        EmptyString = slice_to 100000 full_text ∧
        (len full_text ≤ 100000 → EmptyString = full_text))).
Proof.
  split; [done|].
  by apply (X16_content_to_analyze sample_download (Some "u"%string) "An abstract.").
Defined.

(** ** The vocabulary file *)

Lemma app_String c s t : String c s +:+ t = String c (s +:+ t).
Proof. done. Qed.

Lemma without_app x s t : without x (s +:+ t) ↔ without x s ∧ without x t.
Proof. unfold without. rewrite chars_app. apply Forall_app. Qed.

Lemma without_cons x c s : without x (String c s) ↔ c ≠ x ∧ without x s.
Proof. unfold without. simpl. by rewrite Forall_cons. Qed.

Lemma quote_free_app s t : quote_free (s +:+ t) ↔ quote_free s ∧ quote_free t.
Proof. apply without_app. Qed.

Lemma quote_free_cons c s : quote_free (String c s) ↔ c ≠ dq ∧ quote_free s.
Proof. apply without_cons. Qed.

(** A text given in full has no double quote, or no carriage return: by
    evaluation. *)
Ltac without_text :=
  unfold quote_free, cr_free, without; apply (bool_decide_unpack _); by vm_compute.

Ltac quote_free_text := without_text.

Lemma without_pretty x (z : Z) : x = dq ∨ x = cr → without x (pretty z).
Proof.
  intros Hx. apply pretty_Z_chars.
  - intros n. unfold pretty_N_char. destruct Hx as [-> | ->]; by repeat case_match.
  - by destruct Hx as [-> | ->].
Qed.

Lemma quote_free_pretty (z : Z) : quote_free (pretty z).
Proof. apply without_pretty. by left. Qed.

Lemma without_join x sep parts :
  without x sep → Forall (without x) parts → without x (join sep parts).
Proof.
  intros Hsep. induction 1 as [|p parts Hp Hparts IH]; [constructor|].
  destruct parts as [|q parts]; [done|].
  change (join sep (p :: q :: parts)) with (p +:+ sep +:+ join sep (q :: parts)).
  rewrite !without_app. by split_and!.
Qed.

Lemma without_list_repr x years : x = dq ∨ x = cr → without x (list_repr years).
Proof.
  intros Hx. unfold list_repr. rewrite !without_app. split_and!.
  - destruct Hx as [-> | ->]; without_text.
  - apply without_join; [destruct Hx as [-> | ->]; without_text|].
    apply Forall_fmap, Forall_forall. intros z _. by apply without_pretty.
  - destruct Hx as [-> | ->]; without_text.
Qed.

Lemma quote_free_list_repr years : quote_free (list_repr years).
Proof. apply without_list_repr. by left. Qed.

(** *** Text mode *)

Lemma universal_newlines_written linesep text :
  is_linesep linesep → cr_free text →
  universal_newlines (written_text linesep text) = text.
Proof.
  intros Hsep. induction text as [|c text IH]; [done|].
  intros [Hc Htext]%without_cons. specialize (IH Htext).
  cbn [written_text]. destruct (Ascii.eqb_spec c newline) as [->|Hnl].
  - destruct Hsep as [-> | ->].
    + change (nl +:+ ?s) with (String newline s). cbn [universal_newlines].
      change (Ascii.eqb newline cr) with false. cbv iota. by rewrite IH.
    + change (String cr nl +:+ ?s) with (String cr (String newline s)).
      cbn [universal_newlines]. rewrite !Ascii.eqb_refl. by rewrite IH.
  - cbn [universal_newlines]. destruct (Ascii.eqb_spec c cr); [done|]. by rewrite IH.
Qed.

(** *** The matcher *)

Lemma rep_greedy {R} cls min (k : string → string → option R) run t taken n r :
  Forall (λ c, cls c = true) (chars run) →
  from_option cls false (first_char t) = false →
  (min ≤ n + String.length run)%nat →
  k (taken +:+ run) t = Some r →
  rep cls min k taken n (run +:+ t) = Some r.
Proof.
  revert taken n. induction run as [|c run IH]; intros taken n Hrun Ht Hmin Hk.
  - rewrite string_app_nil_r in Hk. simpl in Hmin.
    assert (Hle : (min <=? n)%nat = true) by (apply Nat.leb_le; lia).
    change (EmptyString +:+ t) with t.
    destruct t as [|d t]; simpl; [by rewrite Hle|].
    simpl in Ht. by rewrite Ht, Hle.
  - apply Forall_cons in Hrun as [Hc Hrun].
    rewrite app_String. simpl. rewrite Hc.
    rewrite (IH (taken +:+ String c EmptyString) (S n)); [done|done|done| |].
    + simpl in Hmin. lia.
    + by rewrite string_app_assoc.
Qed.

Lemma match_Lit c atoms s :
  match_atoms (Lit c :: atoms) (String c s) = match_atoms atoms s.
Proof. simpl. by rewrite Ascii.eqb_refl. Qed.

Lemma match_lits w atoms s :
  match_atoms (lits w ++ atoms) (w +:+ s) = match_atoms atoms s.
Proof.
  unfold lits. induction w as [|c w IH]; [done|].
  rewrite app_String. change (chars (String c w)) with (c :: chars w).
  rewrite fmap_cons. simpl app. by rewrite match_Lit.
Qed.

Lemma match_Rep cls min group atoms run t groups rest :
  Forall (λ c, cls c = true) (chars run) →
  from_option cls false (first_char t) = false →
  (min ≤ String.length run)%nat →
  match_atoms atoms t = Some (groups, rest) →
  match_atoms (Rep cls min group :: atoms) (run +:+ t)
  = Some (if group then run :: groups else groups, rest).
Proof.
  intros Hrun Ht Hmin Hk. simpl. apply rep_greedy; [done|done|simpl; lia|].
  change (EmptyString +:+ run) with run. by rewrite Hk.
Qed.

Lemma first_char_pretty (z : Z) s :
  0 ≤ z → is_space <$> first_char (pretty z +:+ s) = Some false.
Proof.
  intros Hz. destruct (pretty_Z_digits z Hz) as [Hne Hd].
  destruct (pretty z) as [|c p]; [done|]. rewrite app_String. simpl.
  apply Forall_cons in Hd as [Hc _].
  f_equal. by destruct c as [[] [] [] [] [] [] [] []].
Qed.

(** The pattern matches the quoted part of a line of the list, takes the
    keyword as its group, and stops after [times]. *)
Lemma match_keyword_line kw n rest :
  kw ≠ EmptyString → quote_free kw → 0 ≤ n →
  match_atoms pattern
    (String dq (kw +:+ String dq (",  # appeared " +:+ pretty n +:+ " times" +:+ rest)))
  = Some ([kw], rest).
Proof.
  intros Hne Hq Hn. unfold pattern. simpl app.
  rewrite match_Lit.
  apply (match_Rep not_dq 1 true _ kw _ [] rest).
  { unfold quote_free, without in Hq. eapply Forall_impl; [exact Hq|].
    intros c Hc. unfold not_dq. by destruct (Ascii.eqb_spec c dq). }
  { done. }
  { destruct kw; [done|simpl; lia]. }
  rewrite match_Lit.
  change (",  # appeared " +:+ pretty n +:+ " times" +:+ rest)
    with (String "," ("  " +:+ String "#" (" " +:+ "appeared"
            +:+ (" " +:+ (pretty n +:+ (" " +:+ "times" +:+ rest)))))).
  rewrite match_Lit.
  apply (match_Rep is_space 0 false _ "  " _ [] rest); [by repeat constructor|done|simpl; lia|].
  rewrite match_Lit.
  apply (match_Rep is_space 0 false _ " " _ [] rest); [by repeat constructor|done|simpl; lia|].
  etrans; [apply (match_lits "appeared" [Rep is_space 1 false; Rep is_decimal 1 false;
                                         Rep is_space 1 false; Lit "t"; Lit "i";
                                         Lit "m"; Lit "e"; Lit "s"])|].
  apply (match_Rep is_space 1 false _ " " _ [] rest); [by repeat constructor| |simpl; lia|].
  { pose proof (first_char_pretty n (" " +:+ "times" +:+ rest) Hn) as Hf.
    destruct (first_char _); [|done]. simpl in *. by injection Hf. }
  destruct (pretty_Z_digits n Hn) as [Hpne Hpd].
  apply (match_Rep is_decimal 1 false _ (pretty n) _ [] rest); [done|done| |].
  { destruct (pretty n); [done|simpl; lia]. }
  apply (match_Rep is_space 1 false _ " " _ [] rest); [by repeat constructor|done|simpl; lia|].
  apply (match_lits "times" []).
Qed.

(** *** The search *)

Lemma findall_skip atoms u s :
  findall_from atoms (String.length u) (u +:+ s) = findall_from atoms 0 s.
Proof.
  induction u as [|c u IH]; [by destruct s|].
  rewrite app_String. simpl. apply IH.
Qed.

Lemma findall_other_char c s :
  c ≠ dq → findall_from pattern 0 (String c s) = findall_from pattern 0 s.
Proof.
  intros Hc. cbn [findall_from].
  assert (match_atoms pattern (String c s) = None) as ->; [|done].
  unfold pattern. cbn [app match_atoms]. by destruct (Ascii.eqb_spec dq c).
Qed.

Lemma findall_quote_free_prefix u s :
  quote_free u → findall_from pattern 0 (u +:+ s) = findall_from pattern 0 s.
Proof.
  induction u as [|c u IH]; [done|].
  intros [Hc Hu]%quote_free_cons. rewrite app_String.
  rewrite findall_other_char by done. by apply IH.
Qed.

Lemma findall_quote_free u : quote_free u → findall pattern u = [].
Proof.
  intros Hu. unfold findall. rewrite <- (string_app_nil_r u).
  by rewrite findall_quote_free_prefix.
Qed.

Lemma findall_match atoms c m rest groups :
  match_atoms atoms (String c (m +:+ rest)) = Some (groups, rest) →
  findall_from atoms 0 (String c (m +:+ rest))
  = default EmptyString (head groups) :: findall_from atoms 0 rest.
Proof.
  intros Hm. cbn [findall_from]. rewrite Hm. f_equal.
  replace (String.length (String c (m +:+ rest)) - String.length rest - 1)%nat
    with (String.length m) by (simpl; rewrite string_length_app; lia).
  apply findall_skip.
Qed.

Lemma findall_keyword_line item rest :
  loadable item →
  findall_from pattern 0 (keyword_line item +:+ rest)
  = item.1 :: findall_from pattern 0 (nl +:+ rest).
Proof.
  intros (Hne & Hq & _ & Hn). unfold keyword_line.
  rewrite string_app_assoc.
  rewrite findall_quote_free_prefix by quote_free_text.
  rewrite app_String, string_app_assoc, app_String.
  rewrite !string_app_assoc.
  pose proof (match_keyword_line item.1 item.2 (nl +:+ rest) Hne Hq Hn) as Hm.
  set (tail := ",  # appeared " +:+ pretty item.2 +:+ " times") in *.
  replace (String dq (item.1 +:+ String dq (",  # appeared " +:+ pretty item.2
                                             +:+ " times" +:+ nl +:+ rest)))
    with (String dq ((item.1 +:+ String dq tail) +:+ (nl +:+ rest))).
  2:{ unfold tail. by rewrite !string_app_assoc, app_String, !string_app_assoc. }
  rewrite (findall_match pattern dq _ (nl +:+ rest) [item.1]); [done|].
  rewrite <- Hm. unfold tail. by rewrite !string_app_assoc, app_String, !string_app_assoc.
Qed.

Lemma findall_keyword_lines items rest :
  Forall loadable items → quote_free rest →
  findall pattern (foldr (λ item r, keyword_line item +:+ r) rest items) = items.*1.
Proof.
  intros Hitems Hrest. unfold findall.
  assert (H : ∀ pre, quote_free pre →
            findall_from pattern 0
              (pre +:+ foldr (λ item r, keyword_line item +:+ r) rest items) = items.*1);
    [|apply (H EmptyString); constructor].
  induction Hitems as [|item items Hitem _ IH]; intros pre Hpre; simpl.
  - rewrite findall_quote_free_prefix by done. by apply findall_quote_free.
  - rewrite findall_quote_free_prefix by done.
    rewrite findall_keyword_line by done. f_equal.
    apply IH. quote_free_text.
Qed.

Lemma without_ranked x items idxs :
  x = dq ∨ x = cr →
  Forall (λ item : string * Z, without x item.1) items →
  without x (foldr (λ item r, ranked_line item.1 item.2 +:+ r) EmptyString
                   (zip idxs items)).
Proof.
  intros Hx Hitems. revert idxs.
  induction Hitems as [|item items Hq _ IH]; intros [|i idxs]; simpl;
    try constructor.
  apply without_app. split; [|apply IH].
  unfold ranked_line. rewrite !without_app.
  split_and!; try (by apply without_pretty); try done;
    destruct Hx as [-> | ->]; without_text.
Qed.

Lemma without_keyword_lines x items rest :
  x = cr →
  Forall (λ item : string * Z, without x item.1) items → without x rest →
  without x (foldr (λ item r, keyword_line item +:+ r) rest items).
Proof.
  intros -> Hitems Hrest. induction Hitems as [|item items Hq _ IH]; [done|].
  simpl. apply without_app. split; [|done].
  unfold keyword_line.
  apply without_app. split; [without_text|].
  apply without_cons. split; [done|].
  apply without_app. split; [done|].
  apply without_cons. split; [done|].
  rewrite !without_app.
  split_and!; try (apply without_pretty; by right); without_text.
Qed.

(** The text that [main] hands to the file has no carriage return when
    the time stamp and the keywords have none. *)
Lemma report_cr_free now completed top :
  cr_free now → Forall (λ item : string * Z, cr_free item.1) top →
  cr_free (report now completed top).
Proof.
  intros Hnow Htop. unfold cr_free, report. rewrite !without_app.
  split_and!; try done; try (apply without_pretty; by right);
    try (apply without_list_repr; by right); try without_text.
  apply without_keyword_lines; [done|done|].
  rewrite !without_app. split_and!; try without_text.
  apply without_ranked; [by right|done].
Qed.

Lemma quote_free_ranked items idxs :
  Forall loadable items →
  quote_free (foldr (λ item r, ranked_line item.1 item.2 +:+ r) EmptyString
                    (zip idxs items)).
Proof.
  intros Hitems. apply without_ranked; [by left|].
  eapply Forall_impl; [exact Hitems|]. by intros item (_ & Hq & _).
Qed.

(** What [load_controlled_keywords] finds in the text that [main] hands
    to the file *)
Lemma findall_report now completed top :
  quote_free now → Forall loadable top →
  findall pattern (report now completed top) = top.*1.
Proof.
  intros Hnow Htop. unfold findall, report.
  repeat (rewrite findall_quote_free_prefix
            by first [done | apply quote_free_pretty | apply quote_free_list_repr
                     | quote_free_text]).
  apply findall_keyword_lines; [done|].
  rewrite !quote_free_app. split_and!; try quote_free_text.
  by apply quote_free_ranked.
Qed.

Lemma load_written_report linesep now completed top :
  is_linesep linesep → quote_free now → cr_free now → Forall loadable top →
  load_controlled_keywords (Some (written_text linesep (report now completed top)))
  = top.*1.
Proof.
  intros Hsep Hq Hcr Htop. unfold load_controlled_keywords. cbv zeta.
  rewrite universal_newlines_written; [by apply findall_report|done|].
  apply report_cr_free; [done|].
  eapply Forall_impl; [exact Htop|]. by intros item (_ & _ & Hc & _).
Qed.

(** X17.  The file that [main] writes is read back by
    [load_controlled_keywords] as the keywords of the ranking, in
    order, on either platform ([os.linesep] a line feed, or a carriage
    return and a line feed), when no keyword is empty or holds a double
    quote or a carriage return, no count is negative, and the time stamp
    holds neither a double quote nor a carriage return: neither the
    headings nor the ranked list at the end add or hide an entry. *)
Theorem X17_vocabulary_round_trip
    (linesep now : string) (completed : list Z) (top_keywords : list (string * Z)) :
  is_linesep linesep →
  quote_free now → cr_free now →
  Forall loadable top_keywords →
  load_controlled_keywords
    (Some (written_text linesep (report now completed top_keywords)))
  = top_keywords.*1.
Proof. apply load_written_report. Qed.

Lemma X17_witness :
  load_controlled_keywords
    (Some (written_text (String cr nl)
             (report "2026-01-01 10:00:00" [2016; 2015]
                     [("fixed effects"%string, 12); ("rdd"%string, 3)])))
  = ["fixed effects"; "rdd"]%string.
Proof.
  apply (X17_vocabulary_round_trip (String cr nl) "2026-01-01 10:00:00" [2016; 2015]
           [("fixed effects"%string, 12); ("rdd"%string, 3)]).
  - by right.
  - without_text.
  - without_text.
  - repeat constructor; simpl; try done; try lia; without_text.
Defined.

Lemma sumZ_nonneg l : Forall (λ z, 0 ≤ z) l → 0 ≤ sumZ l.
Proof. induction 1; simpl; lia. Qed.

Lemma count_of_Counter l kw : 0 ≤ count_of (Counter l) kw.
Proof.
  unfold count_of. rewrite Counter_lookup. case_decide; simpl; [|done].
  unfold occurrences. lia.
Qed.

(** The entries of the final vocabulary are keywords of the input with
    counts that are not negative. *)
Lemma final_vocabulary_entries all_keywords :
  ∃ top, final_vocabulary all_keywords = Some top ∧
         Forall (λ item, item.1 ∈ all_keywords ∧ 0 ≤ item.2) top.
Proof.
  destruct (consolidate_run_inv (Counter all_keywords) (Counter_NoDup all_keywords))
    as (st & Hrun & Hinv & Hperm).
  exists (top_keywords (consolidated st)). split.
  - unfold final_vocabulary, consolidate_similar_keywords. by rewrite Hrun.
  - unfold top_keywords. apply Forall_take.
    rewrite sorted_desc_perm. rewrite (inv_dict _ _ Hinv).
    apply Forall_fmap, Forall_forall. intros c Hc. simpl.
    pose proof (inv_clusters _ _ Hinv) as Hok. rewrite Forall_forall in Hok.
    destruct (Hok c Hc) as (Hrep & _ & Htot). split.
    + apply elem_of_first_seen. rewrite <- Counter_keys.
      apply (inv_keys _ _ Hinv), elem_of_all_members. eauto.
    + unfold entry. simpl. rewrite Htot. apply sumZ_nonneg, Forall_fmap, Forall_forall.
      intros m _. apply count_of_Counter.
Qed.

(** X18.  From the keywords gathered over the years to the analyzer:
    when no gathered keyword is empty or holds a double quote or a
    carriage return, and the time stamp holds neither, the ranking is
    computed, and the analyzer loads from the file written for it, on
    either platform, exactly the keywords of that ranking, in its
    order. *)
Theorem X18_vocabulary_reaches_the_analyzer
    (linesep now : string) (completed : list Z) (all_keywords : list string) :
  is_linesep linesep →
  quote_free now → cr_free now →
  Forall (λ kw, kw ≠ EmptyString ∧ quote_free kw ∧ cr_free kw) all_keywords →
  ∃ top, final_vocabulary all_keywords = Some top ∧
         load_controlled_keywords (Some (written_text linesep (report now completed top)))
         = top.*1.
Proof.
  intros Hsep Hq Hcr Hkws.
  destruct (final_vocabulary_entries all_keywords) as (top & Htop & Hentries).
  exists top. split; [done|].
  apply load_written_report; try done.
  rewrite Forall_forall in Hkws. eapply Forall_impl; [exact Hentries|].
  intros item [Hin Hn]. destruct (Hkws _ Hin) as (Hne & Hqf & Hcf). by split_and!.
Qed.

Lemma X18_witness :
  ∃ top, final_vocabulary ["rdd"; "fixed effects"; "rdd"]%string = Some top ∧
         load_controlled_keywords
           (Some (written_text nl (report "2026-01-01 10:00:00" [2015] top)))
         = top.*1.
Proof.
  apply (X18_vocabulary_reaches_the_analyzer nl "2026-01-01 10:00:00" [2015]
           ["rdd"; "fixed effects"; "rdd"]%string).
  - by left.
  - without_text.
  - without_text.
  - repeat constructor; try done; without_text.
Defined.

(** ** The loop over the years *)

Lemma filter_ext_in {A} (P Q : A → Prop) `{∀ x, Decision (P x)} `{∀ x, Decision (Q x)}
    (l : list A) :
  (∀ x, x ∈ l → P x ↔ Q x) → filter P l = filter Q l.
Proof.
  induction l as [|x l IH]; intros Hl; [done|].
  rewrite !filter_cons. rewrite IH by (intros y Hy; apply Hl; by right).
  destruct (decide (P x)) as [HP|HP], (decide (Q x)) as [HQ|HQ]; try done.
  - destruct HQ. apply Hl; [left|done].
  - destruct HP. apply Hl; [left|done].
Qed.

Lemma disk_after_write_all s t :
  disk_after (WriteChar <$> list_ascii_of_string s) (Some t) = Some (t +:+ s).
Proof.
  revert t. induction s as [|c s IH]; intros t; simpl.
  - by rewrite string_app_nil_r.
  - unfold disk_after in *. simpl. rewrite IH. by rewrite string_app_assoc.
Qed.

Lemma disk_after_save p d :
  disk_after ([Makedirs; OpenTruncate]
              ++ (WriteChar <$> list_ascii_of_string (json_dumps p)) ++ [CloseFile]) d
  = Some (json_dumps p).
Proof.
  rewrite disk_after_app. change (disk_after [Makedirs; OpenTruncate] d) with (Some EmptyString).
  rewrite disk_after_app, disk_after_write_all. done.
Qed.

Lemma crossref_queries_quiet es : Forall quiet es → crossref_queries es = [].
Proof.
  induction 1 as [|e es [_ He] _ IH]; [done|].
  destruct e; try exact IH. exfalso. by eapply He.
Qed.

Lemma crossref_queries_app es1 es2 :
  crossref_queries (es1 ++ es2) = crossref_queries es1 ++ crossref_queries es2.
Proof. apply omap_app. Qed.

Lemma crossref_queries_writes l : crossref_queries (WriteChar <$> l) = [].
Proof. induction l as [|c l IH]; [done|exact IH]. Qed.

Lemma crossref_queries_save s :
  crossref_queries ([Makedirs; OpenTruncate]
                    ++ (WriteChar <$> list_ascii_of_string s) ++ [CloseFile]) = [].
Proof. by rewrite !crossref_queries_app, crossref_queries_writes. Qed.

Lemma disk_after_quiet_events es d : Forall quiet es → disk_after es d = d.
Proof.
  intros H. apply disk_after_work. eapply Forall_impl; [exact H|]. by intros e [? _].
Qed.

Section MainFacts.

Variable re_finditer : string → string → list string.
Variable re_search : string → string → bool.
Variable crossref : Z → option crossref_response.
Variable semantic_scholar : string → option (option string).
Variable fetch_pdf : string → option (list string).
Variable extract_keywords_from_text : string → string → string → list string.

Let body := λ p year, process_year re_finditer re_search crossref semantic_scholar
                                    fetch_pdf extract_keywords_from_text year p.

Lemma search_step_quiet acc p :
  Forall quiet (search_step re_finditer re_search semantic_scholar fetch_pdf acc p).1.
Proof.
  unfold search_step, search_semantic_scholar_by_doi, tbind, emit, tret.
  destruct (truthy (doi p)); simpl.
  - destruct (semantic_scholar (doi p)) as [[url|]|]; simpl;
      try (by repeat constructor).
    destruct (truthy url); simpl; [|by repeat constructor].
    destruct (download_pdf_and_extract_method _ _ _) as [text|]; simpl;
      [destruct (truthy text)|]; simpl; by repeat constructor.
  - constructor.
Qed.

Lemma keyword_step_quiet acc p :
  Forall quiet (keyword_step extract_keywords_from_text acc p).1.
Proof.
  unfold keyword_step, tbind, emit, tret. simpl.
  destruct (method_text p) as [text|]; simpl; [destruct (truthy text)|]; simpl;
    by repeat constructor.
Qed.

Lemma process_papers_quiet year papers p :
  ∃ work year_keywords,
    process_papers re_finditer re_search semantic_scholar fetch_pdf
                   extract_keywords_from_text year papers p
      = (work, Progress (completed_years p ++ [year])
                        (all_keywords p ++ year_keywords)) ∧
    Forall quiet work.
Proof.
  unfold process_papers, tbind.
  destruct (tfold_inv (search_step re_finditer re_search semantic_scholar fetch_pdf)
              (λ _, True) quiet (λ _, True) papers []) as [Hev1 _].
  { by apply Forall_forall. }
  { done. }
  { intros acc x _ _. split; [apply search_step_quiet|done]. }
  destruct (tfold _ papers []) as [ev1 papers']. simpl in Hev1.
  destruct (tfold_inv (keyword_step extract_keywords_from_text)
              (λ _, True) quiet (λ _, True) papers' []) as [Hev2 _].
  { by apply Forall_forall. }
  { done. }
  { intros acc x _ _. split; [apply keyword_step_quiet|done]. }
  destruct (tfold _ papers' []) as [ev2 year_keywords]. simpl in Hev2.
  exists (ev1 ++ ev2 ++ []), year_keywords. split; [done|].
  rewrite app_nil_r. by apply Forall_app.
Qed.

(** The three ways in which a call of [process_year] ends *)
Lemma process_year_cases year p :
  (year ∈ completed_years p ∧ body p year = ([], p))
  ∨ ((year ∉ completed_years p) ∧ has_papers crossref year = false ∧
     body p year = ([CrossrefQuery year], p))
  ∨ ((year ∉ completed_years p) ∧ has_papers crossref year = true ∧
     ∃ work year_keywords,
       let p' := Progress (completed_years p ++ [year])
                          (all_keywords p ++ year_keywords) in
       body p year
         = (CrossrefQuery year :: work ++ [Makedirs; OpenTruncate]
              ++ (WriteChar <$> list_ascii_of_string (json_dumps p')) ++ [CloseFile], p') ∧
       Forall quiet work).
Proof.
  unfold body, process_year, has_papers.
  case_bool_decide as Hyear; [by left|]. right.
  destruct (get_papers_for_year (crossref year) year) as [|q qs] eqn:Hq.
  - left. by split_and!.
  - right. split_and!; [done|done|].
    destruct (process_papers_quiet year (q :: qs) p) as (work & kws & Hpp & Hwork).
    exists work, kws. cbn zeta.
    unfold tbind at 1. cbn [emit]. unfold tbind at 1. rewrite Hpp.
    unfold tbind, save_progress, tret. split; [|done].
    by rewrite app_nil_r.
Qed.

Lemma year_loop_spec years p d :
  NoDup years →
  ∃ events p',
    tfold body years p = (events, p') ∧
    crossref_queries events = filter (λ y, y ∉ completed_years p) years ∧
    completed_years p'
      = completed_years p
        ++ filter (λ y, (y ∉ completed_years p) ∧ has_papers crossref y = true) years ∧
    (∃ new_keywords, all_keywords p' = all_keywords p ++ new_keywords) ∧
    disk_after events d = (if decide (p' = p) then d else Some (json_dumps p')).
Proof.
  revert p d. induction years as [|y years IH]; intros p d Hnd.
  - exists [], p. split_and!; [done|done|by rewrite app_nil_r| |].
    + exists []. by rewrite app_nil_r.
    + by rewrite decide_True.
  - apply NoDup_cons in Hnd as [Hy Hnd]. cbn [tfold]. unfold tbind.
    rewrite !filter_cons.
    destruct (process_year_cases y p)
      as [[Hin ->]|[(Hnin & Hpap & ->)|(Hnin & Hpap & work & kws & Hbody & Hwork)]].
    + destruct (IH p d Hnd) as (ev & p' & -> & Hq & Hc & Hk & Hd).
      exists ev, p'. rewrite decide_False by (by intros ?).
      rewrite decide_False by (by intros [? _]). by split_and!.
    + destruct (IH p d Hnd) as (ev & p' & -> & Hq & Hc & Hk & Hd).
      exists (CrossrefQuery y :: ev), p'. rewrite decide_True by done.
      rewrite decide_False by (intros [_ ?]; congruence).
      split_and!; [done| |done|done|done].
      change (crossref_queries (CrossrefQuery y :: ev)) with (y :: crossref_queries ev).
      by rewrite Hq.
    + cbn zeta in Hbody. rewrite Hbody.
      set (p1 := Progress (completed_years p ++ [y]) (all_keywords p ++ kws)) in *.
      destruct (IH p1 (Some (json_dumps p1)) Hnd) as (ev & p' & -> & Hq & Hc & Hk & Hd).
      eexists _, p'. split; [done|].
      assert (Hsame : ∀ x, x ∈ years →
                (x ∉ completed_years p1) ↔ (x ∉ completed_years p)).
      { intros x Hx. simpl. rewrite elem_of_app, list_elem_of_singleton.
        split; [tauto|]. intros H [Hin|Heq]; [tauto|]. by subst x. }
      rewrite decide_True by done. rewrite decide_True by done.
      split_and!.
      * rewrite crossref_queries_app.
        change (crossref_queries (CrossrefQuery y :: ?l)) with (y :: crossref_queries l).
        rewrite crossref_queries_app, (crossref_queries_quiet work Hwork).
        rewrite crossref_queries_save, Hq. simpl. f_equal.
        by apply filter_ext_in.
      * rewrite Hc. simpl. rewrite <- app_assoc. simpl. do 2 f_equal.
        apply filter_ext_in. intros x Hx.
        pose proof (Hsame x Hx) as Hs. simpl in Hs. simpl. tauto.
      * destruct Hk as [kws' ->]. exists (kws ++ kws'). simpl. by rewrite app_assoc.
      * rewrite decide_False.
        2:{ intros Heq. apply (f_equal (length ∘ completed_years)) in Heq.
            simpl in Heq. rewrite Hc in Heq. simpl in Heq.
            rewrite !length_app in Heq. simpl in Heq. lia. }
        rewrite disk_after_app, app_comm_cons, disk_after_app.
        rewrite (disk_after_work (CrossrefQuery y :: work)).
        2:{ constructor; [done|]. eapply Forall_impl; [exact Hwork|]. by intros e [? _]. }
        rewrite disk_after_save, Hd. by case_decide; subst.
Qed.

End MainFacts.

Lemma NoDup_year_range : NoDup year_range.
Proof.
  unfold year_range. apply NoDup_fmap_2_strong; [|apply NoDup_seq].
  intros i j _ _ Hij. lia.
Qed.

(** X19.  The loop of [main] queries CrossRef exactly for the years from
    2015 to 2025 that the progress it starts from does not list as
    completed, once each and in increasing order. *)
Theorem X19_years_queried
    (re_finditer : string → string → list string)
    (re_search : string → string → bool)
    (crossref : Z → option crossref_response)
    (semantic_scholar : string → option (option string))
    (fetch_pdf : string → option (list string))
    (extract_keywords_from_text : string → string → string → list string)
    (p : progress) :
  crossref_queries
    (main_loop re_finditer re_search crossref semantic_scholar fetch_pdf
               extract_keywords_from_text p).1
  = filter (λ y, y ∉ completed_years p) year_range.
Proof.
  destruct (year_loop_spec re_finditer re_search crossref semantic_scholar fetch_pdf
              extract_keywords_from_text year_range p None NoDup_year_range)
    as (events & p' & Hrun & Hq & _).
  unfold main_loop. by rewrite Hrun.
Qed.

(** X20.  The loop of [main] appends to the completed years exactly the
    years from 2015 to 2025 that were not completed and for which
    [get_papers_for_year] gives at least one paper, in increasing order;
    a year without paper is not recorded.  The keywords gathered before
    are kept in front of the new ones. *)
Theorem X20_years_completed
    (re_finditer : string → string → list string)
    (re_search : string → string → bool)
    (crossref : Z → option crossref_response)
    (semantic_scholar : string → option (option string))
    (fetch_pdf : string → option (list string))
    (extract_keywords_from_text : string → string → string → list string)
    (p : progress) :
  let p' := (main_loop re_finditer re_search crossref semantic_scholar fetch_pdf
                       extract_keywords_from_text p).2 in
  completed_years p'
    = completed_years p
      ++ filter (λ y, (y ∉ completed_years p) ∧ has_papers crossref y = true) year_range ∧
  ∃ new_keywords, all_keywords p' = all_keywords p ++ new_keywords.
Proof.
  destruct (year_loop_spec re_finditer re_search crossref semantic_scholar fetch_pdf
              extract_keywords_from_text year_range p None NoDup_year_range)
    as (events & p' & Hrun & _ & Hc & Hk & _).
  unfold main_loop. by rewrite Hrun.
Qed.

(** X21.  When the loop of [main] is over, started from the progress read
    from the checkpoint file and the user's answer, the file is as it
    was if the progress has not changed, and holds the final progress
    otherwise. *)
Theorem X21_checkpoint_after_the_loop
    (re_finditer : string → string → list string)
    (re_search : string → string → bool)
    (crossref : Z → option crossref_response)
    (semantic_scholar : string → option (option string))
    (fetch_pdf : string → option (list string))
    (extract_keywords_from_text : string → string → string → list string)
    (json_load : string → option progress)
    (d : disk) (answer : string) :
  let p := starting_progress json_load d answer in
  let run := main_loop re_finditer re_search crossref semantic_scholar fetch_pdf
                       extract_keywords_from_text p in
  disk_after run.1 d = if decide (run.2 = p) then d else Some (json_dumps run.2).
Proof.
  intros p run.
  destruct (year_loop_spec re_finditer re_search crossref semantic_scholar fetch_pdf
              extract_keywords_from_text year_range p d NoDup_year_range)
    as (events & p' & Hrun & _ & _ & _ & Hd).
  unfold run, main_loop. by rewrite Hrun.
Qed.

(** X22.  A second pass of the loop, on the progress that the first pass
    ends with and with the same answers of CrossRef, queries exactly the
    years that were not completed before and gave no paper: a year
    without paper is asked for again at every run. *)
Theorem X22_years_without_paper_are_retried
    (re_finditer : string → string → list string)
    (re_search : string → string → bool)
    (crossref : Z → option crossref_response)
    (semantic_scholar : string → option (option string))
    (fetch_pdf : string → option (list string))
    (extract_keywords_from_text : string → string → string → list string)
    (p : progress) :
  let loop := main_loop re_finditer re_search crossref semantic_scholar fetch_pdf
                        extract_keywords_from_text in
  crossref_queries (loop (loop p).2).1
  = filter (λ y, (y ∉ completed_years p) ∧ has_papers crossref y = false) year_range.
Proof.
  intros loop.
  destruct (year_loop_spec re_finditer re_search crossref semantic_scholar fetch_pdf
              extract_keywords_from_text year_range p None NoDup_year_range)
    as (events & p' & Hrun & _ & Hc & _).
  destruct (year_loop_spec re_finditer re_search crossref semantic_scholar fetch_pdf
              extract_keywords_from_text year_range p' None NoDup_year_range)
    as (events2 & p2 & Hrun2 & Hq2 & _).
  unfold loop, main_loop. rewrite Hrun. cbn [snd]. rewrite Hrun2. cbn [fst]. rewrite Hq2.
  apply filter_ext_in. intros y Hy. rewrite Hc, elem_of_app, list_elem_of_filter.
  destruct (has_papers crossref y); split.
  - intros H. destruct H. destruct (decide (y ∈ completed_years p)); [by left|].
    right. by split_and!.
  - by intros [_ ?].
  - intros H. split; [|done]. intros Hin. apply H. by left.
  - intros [H _] [Hin|[[_ ?] _]]; done.
Qed.


Lemma get_unique_filename_unknown folder fuel a y mode :
  mode ≠ "replace"%string → mode ≠ "suffix"%string →
  get_unique_filename folder fuel a y mode = Some None.
Proof.
  intros H1 H2. unfold get_unique_filename.
  by rewrite !bool_decide_eq_false_2 by done.
Qed.



(** X24.  Under a policy that is neither ["replace"] nor ["suffix"],
    [get_unique_filename] returns nothing, and the loop stops on the
    exception at the first item that is a paper or a standalone PDF. *)
Theorem X24_unknown_policy_stops_the_run
    (DUPLICATE_MODE ZOTERO_ID : string)
    (zot_item : string → option Zotero.item)
    (zot_children : string → option (list Zotero.item))
    (is_supplement : string → bool)
    (download : string → option (Z * option (list string)))
    (analyse : string → string → string → option string)
    (write_note : string → string → string → string → string → string → write_outcome)
    (skipped : list Zotero.item) (it : Zotero.item) (rest : list Zotero.item)
    (st : run_state) :
  DUPLICATE_MODE ≠ "replace"%string → DUPLICATE_MODE ≠ "suffix"%string →
  Forall (λ it, is_paper it = false ∧ is_standalone_pdf it = false) skipped →
  is_paper it = true ∨ is_standalone_pdf it = true →
  process_items DUPLICATE_MODE ZOTERO_ID zot_item zot_children is_supplement
                download analyse write_note (skipped ++ it :: rest) st = None.
Proof.
  intros H1 H2 Hskipped Hit. revert st.
  induction Hskipped as [|sk skipped [Hp Hs] _ IH]; intros st.
  - cbn [app process_items].
    assert (process_item DUPLICATE_MODE ZOTERO_ID zot_item zot_children is_supplement
              download analyse write_note st it = None) as ->; [|done].
    unfold process_item.
    assert (negb (is_paper it) && negb (is_standalone_pdf it) = false) as ->.
    { destruct Hit as [-> | ->]; [done|apply andb_false_r]. }
    destruct (creators_and_year zot_item it) as [[creators year]|]; [|done].
    by rewrite get_unique_filename_unknown.
  - cbn [app process_items]. unfold process_item at 1. rewrite Hp, Hs. simpl. apply IH.
Qed.

Lemma X24_witness : sample_run "rename" = None.
Proof.
  apply (X24_unknown_policy_stops_the_run "rename" "0" (λ _, None) (λ _, Some [])
           (λ _, false) (λ _, Some (404, None)) (λ _ _ _, Some "summary"%string)
           sample_write_note [] (sample_article "K1" (Some "An abstract."%string))); try done.
  by left.
Defined.
